(** * promptforge2: the AI orchestration core, as a shallow embedding

    Sources embedded here:
    - [src/services/geminiService.ts]  ([cleanJsonResponse], [discoverJsonPrompts])
    - [src/components/ResultView.tsx]  ([validateAgainstSchema], [deriveSchemaFromExample])
    - the [StockCard] component         ([fetchMarketData], its effect, [handleSymbolSubmit])
    - the [ChatWidget] component        ([initChat], [handleSend])

    JavaScript strings are sequences of UTF-16 code units.  The embedding
    keeps the code units below 256: a string is a [list ascii], the
    character of number [n] standing for the code unit [n]. *)

From Stdlib Require Import List Ascii String ZArith Lia Bool Arith DecimalString.
Import ListNotations.

(** ** JavaScript strings *)

Definition jsstring := list ascii.

Definition lit (s : string) : jsstring := list_ascii_of_string s.
Coercion lit : string >-> jsstring.

Open Scope string_scope.
Open Scope list_scope.
Open Scope Z_scope.

(** Concatenation of JavaScript strings ([a + b], template literals). *)
Definition concat (a b : jsstring) : jsstring := a ++ b.
Infix "+++" := concat (at level 60, right associativity).

(** The line feed, and the double quote as a string. *)
Definition LF : ascii := ascii_of_nat 10.
Definition dq : jsstring := [ascii_of_nat 34].

(** [length] is the length of lists throughout ([String.length] is not used). *)
Abbreviation length := List.length.

Definition jsstring_eqb (a b : jsstring) : bool :=
  if list_eq_dec ascii_dec a b then true else false.

(** [o || d] on a possibly undefined string: the empty string is falsy. *)
Definition orElse (o : option jsstring) (d : jsstring) : jsstring :=
  match o with
  | None | Some [] => d
  | Some s => s
  end.

(** [startsWith p s] is [s.startsWith(p)]. *)
Fixpoint startsWith (p s : jsstring) : bool :=
  match p, s with
  | [], _ => true
  | _ :: _, [] => false
  | a :: p', b :: s' => Ascii.eqb a b && startsWith p' s'
  end.

(** [s.indexOf(p)]: least index at which [p] occurs in [s], or -1.
    In [indexOf_from], [i] is the index of the head of [s] in the whole
    string. *)
Fixpoint indexOf_from (i : Z) (p s : jsstring) : Z :=
  match s with
  | [] => if startsWith p [] then i else -1
  | c :: s' => if startsWith p (c :: s') then i else indexOf_from (i + 1) p s'
  end.

Definition indexOf (s p : jsstring) : Z := indexOf_from 0 p s.

(** [s.lastIndexOf(p)]: greatest index at which [p] occurs in [s], or -1. *)
Fixpoint lastIndexOf_from (i : Z) (p s : jsstring) : Z :=
  match s with
  | [] => if startsWith p [] then i else -1
  | c :: s' =>
      let r := lastIndexOf_from (i + 1) p s' in
      if r =? -1 then (if startsWith p (c :: s') then i else -1) else r
  end.

Definition lastIndexOf (s p : jsstring) : Z := lastIndexOf_from 0 p s.

(** [s.includes(p)] *)
Definition includes (s p : jsstring) : bool := negb (indexOf s p =? -1).

(** [String.prototype.substring]: both ends are clamped to [0, length] and
    swapped when out of order. *)
Definition substring (s : jsstring) (a b : Z) : jsstring :=
  let len := Z.of_nat (List.length s) in
  let a' := Z.min (Z.max a 0) len in
  let b' := Z.min (Z.max b 0) len in
  let lo := Z.min a' b' in
  let hi := Z.max a' b' in
  firstn (Z.to_nat (hi - lo)) (skipn (Z.to_nat lo) s).

(** White space and line terminators stripped by [String.prototype.trim],
    among the code units below 256: TAB, LF, VT, FF, CR, SP, NBSP. *)
Definition isWhiteSpace (c : ascii) : bool :=
  existsb (N.eqb (N_of_ascii c)) [9; 10; 11; 12; 13; 32; 160]%N.

Fixpoint trimStart (s : jsstring) : jsstring :=
  match s with
  | [] => []
  | c :: s' => if isWhiteSpace c then trimStart s' else s
  end.

Definition trimEnd (s : jsstring) : jsstring := rev (trimStart (rev s)).

Definition trim (s : jsstring) : jsstring := trimEnd (trimStart s).

(** ** ResponseSanitizer: [cleanJsonResponse] (geminiService.ts) *)

Module Sanitizer.

(** The regular expression [/```json\n?|```/] tried at the head of [s]:
    the number of code units it consumes there.  The first alternative is
    tried first and its optional line feed is greedy. *)
Definition fence_at (s : jsstring) : option nat :=
  if startsWith "```json" s then
    (if startsWith [LF] (skipn 7 s) then Some 8%nat else Some 7%nat)
  else if startsWith "```" s then Some 3%nat
  else None.

(** [text.replace(/```json\n?|```/g, '')]: a left-to-right scan that drops
    every match.  [skip] is the number of code units of the current match
    still to be dropped. *)
Fixpoint replace_fences_from (skip : nat) (s : jsstring) : jsstring :=
  match s with
  | [] => []
  | c :: s' =>
      match skip with
      | S k => replace_fences_from k s'
      | O =>
          match fence_at (c :: s') with
          | Some (S k) => replace_fences_from k s'
          | _ => c :: replace_fences_from 0 s'
          end
      end
  end.

Definition replace_fences (s : jsstring) : jsstring := replace_fences_from 0 s.

(** The last lines of [cleanJsonResponse], as a function of [cleaned]: the
    brace test and the [substring] call. *)
Definition between_braces (cleaned : jsstring) : jsstring :=
  let startBrace := indexOf cleaned "{" in
  let endBrace := lastIndexOf cleaned "}" in
  if negb (startBrace =? -1) && negb (endBrace =? -1) && (endBrace >? startBrace)
  then substring cleaned startBrace (endBrace + 1)
  else cleaned.

(** [cleanJsonResponse(text)].  [None] is [undefined]; [!text] holds for
    [undefined] and for the empty string. *)
Definition cleanJsonResponse (text : option jsstring) : jsstring :=
  match text with
  | None | Some [] => "{}"
  | Some t =>
      let cleaned := trim (replace_fences t) in
      let startBrace := indexOf cleaned "{" in
      let endBrace := lastIndexOf cleaned "}" in
      if negb (startBrace =? -1) && negb (endBrace =? -1) && (endBrace >? startBrace)
      then substring cleaned startBrace (endBrace + 1)
      else cleaned
  end.

(** The stock card's [text.match(/\{[\s\S]*\}/)]: the match starts at the
    leftmost ['{'] that has a ['}'] after it and, the star being greedy, runs
    to the last ['}'] of the text.  [greedy_close s] is the longest prefix of
    [s] that ends in ['}']. *)
Fixpoint greedy_close (s : jsstring) : option jsstring :=
  match s with
  | [] => None
  | c :: s' =>
      match greedy_close s' with
      | Some m => Some (c :: m)
      | None => if Ascii.eqb c "}" then Some [c] else None
      end
  end.

Fixpoint match_braces (s : jsstring) : option jsstring :=
  match s with
  | [] => None
  | c :: s' =>
      if Ascii.eqb c "{" then
        match greedy_close s' with
        | Some m => Some (c :: m)
        | None => match_braces s'
        end
      else match_braces s'
  end.

(** Does [s] contain a code-fence marker (three backquotes)? *)
Fixpoint has_fence (s : jsstring) : bool :=
  match s with
  | [] => false
  | _ :: s' => startsWith "```" s || has_fence s'
  end.


(** The three texts the regular expression matches. *)
Definition fence_markers : list jsstring :=
  [lit "```json" ++ [LF]; lit "```json"; lit "```"].

(** [strips s r]: [r] is [s] with some of its code-fence markers taken out. *)
Inductive strips : jsstring -> jsstring -> Prop :=
| strips_nil : strips [] []
| strips_keep (c : ascii) (s r : jsstring) : strips s r -> strips (c :: s) (c :: r)
| strips_fence (m s r : jsstring) :
    In m fence_markers -> strips s r -> strips (m ++ s) r.

(** [cleaned] is [t] "with its code-fence markers stripped, and trimmed":
    some text obtained from [t] by taking markers out holds no marker any
    more, and [cleaned] is that text without the white space at its two
    ends. *)
Definition stripped_and_trimmed (t cleaned : jsstring) : Prop :=
  exists stripped u v,
    strips t stripped /\ has_fence stripped = false /\
    stripped = u ++ cleaned ++ v /\
    forallb isWhiteSpace u = true /\ forallb isWhiteSpace v = true /\
    (forall c r, cleaned = c :: r -> isWhiteSpace c = false) /\
    (forall r c, cleaned = r ++ [c] -> isWhiteSpace c = false).

(** Vocabulary of the specification: the first and the last position of a
    code unit, the inclusive substring between two positions, and a text
    that has an opening brace with a closing brace strictly after it. *)
Definition first_at (c : ascii) (s : jsstring) (i : nat) : Prop :=
  nth_error s i = Some c /\ forall k, (k < i)%nat -> nth_error s k <> Some c.

Definition last_at (c : ascii) (s : jsstring) (j : nat) : Prop :=
  nth_error s j = Some c /\ forall k, (j < k)%nat -> nth_error s k <> Some c.

Definition slice_incl (s : jsstring) (i j : nat) : jsstring :=
  firstn (j - i + 1) (skipn i s).

Definition brace_pair (s : jsstring) : Prop :=
  exists i j, (i < j)%nat /\ nth_error s i = Some "{"%char /\ nth_error s j = Some "}"%char.

End Sanitizer.
Import Sanitizer.

(** ** JavaScript values, errors and [JSON.parse] *)

(** A thrown value, seen through its [message] property: [None] when the
    property is undefined (a thrown string or plain object), the empty string
    for an [Error] built without a message. *)
Record JSError := { message : option jsstring }.

Definition new_Error (msg : jsstring) : JSError := {| message := Some msg |}.

(** The completion of a call: a returned value or a thrown error. *)
Inductive completion (A : Type) : Type :=
| Return (a : A)
| Throw (e : JSError).
Arguments Return {A} a.
Arguments Throw {A} e.

Definition bind {A B : Type} (c : completion A) (k : A -> completion B) : completion B :=
  match c with
  | Return a => k a
  | Throw e => Throw e
  end.

(** [try { body } catch (error) { handler }] *)
Definition try_catch {A : Type} (body : completion A) (handler : JSError -> completion A)
  : completion A :=
  match body with
  | Return a => Return a
  | Throw e => handler e
  end.

Declare Scope js_scope.
Delimit Scope js_scope with js.
Notation "x <- c ;; k" := (bind c (fun x => k))
  (at level 61, c at next level, right associativity) : js_scope.
Open Scope js_scope.

#[local] Set Warnings "-register-all".

(** The values [JSON.parse] produces.  A number is kept as the decimal
    [mantissa * 10 ^ exponent] of its literal (rounding to a double is not
    modelled: the code only asks whether a value is a number, and whether a
    length is zero).  An object is the list of its own properties; no key
    occurs twice in an object built with [obj_set]. *)
Inductive json : Type :=
| JNull
| JBool (b : bool)
| JNumber (mantissa exponent : Z)
| JString (s : jsstring)
| JArray (items : list json)
| JObject (props : list (jsstring * json)).

Fixpoint obj_get (k : jsstring) (props : list (jsstring * json)) : option json :=
  match props with
  | [] => None
  | (k', v) :: r => if jsstring_eqb k k' then Some v else obj_get k r
  end.

Fixpoint obj_set (k : jsstring) (v : json) (props : list (jsstring * json))
  : list (jsstring * json) :=
  match props with
  | [] => [(k, v)]
  | (k', v') :: r =>
      if jsstring_eqb k k' then (k, v) :: r else (k', v') :: obj_set k v r
  end.

(** Decimal rendering of an array index and of [Date.now()]. *)
Definition nat_to_jsstring (n : nat) : jsstring :=
  lit (DecimalString.NilZero.string_of_uint (Nat.to_uint n)).

Definition Z_to_jsstring (z : Z) : jsstring :=
  lit (DecimalString.NilZero.string_of_int (Z.to_int z)).

Fixpoint indexed {A : Type} (f : A -> json) (i : nat) (l : list A)
  : list (jsstring * json) :=
  match l with
  | [] => []
  | a :: l' => (nat_to_jsstring i, f a) :: indexed f (S i) l'
  end.

(** The own enumerable properties copied by an object spread [{...v}]. *)
Definition own_props (v : json) : list (jsstring * json) :=
  match v with
  | JObject props => props
  | JArray items => indexed (fun x => x) 0 items
  | JString s => indexed (fun c => JString [c]) 0 s
  | JNull | JBool _ | JNumber _ _ => []
  end.

(** [!v] for a property value ([None] is [undefined]). *)
Definition falsy (v : option json) : bool :=
  match v with
  | None | Some JNull => true
  | Some (JBool b) => negb b
  | Some (JNumber m _) => m =? 0
  | Some (JString s) => match s with [] => true | _ => false end
  | Some (JArray _) | Some (JObject _) => false
  end.

(** [typeof v === 'number'] *)
Definition is_number (v : option json) : bool :=
  match v with
  | Some (JNumber _ _) => true
  | _ => false
  end.

(** [v.length === 0] for a truthy [v]: arrays and strings have a length,
    an object has one if it owns a property of that name. *)
Definition length_is_zero (v : json) : bool :=
  match v with
  | JArray items => Nat.eqb (length items) 0
  | JString s => Nat.eqb (length s) 0
  | JObject props =>
      match obj_get "length" props with
      | Some (JNumber m _) => m =? 0
      | _ => false
      end
  | JNull | JBool _ | JNumber _ _ => false
  end.

(** *** A reference [JSON.parse]

    The functions of the repository receive [JSON.parse] as a parameter, and
    every theorem about them holds for any such function.  This
    recursive-descent parser of the JSON grammar is the instance used to run
    them on the concrete replies of the examples.  It is not the platform's
    parser, and departs from it in these points:
    - a number is kept as the decimal mantissa and exponent of its literal
      and is not rounded to a double, with one exception: a literal of
      magnitude at most [2^-1075], which the platform reads as zero, is read
      as zero, since the code under study tests numbers for truthiness;
    - an escape [\uXXXX] above 255 leaves the code units of the embedding
      and is refused;
    - the members of an object are kept in the order of the text (a repeated
      key keeps its first place and takes its last value), while the
      platform lists integer-like keys first;
    - the message of a [SyntaxError] is the engine's own and varies with the
      text; here it is one fixed message. *)
Module JSONRef.

Definition DQUOTE : ascii := ascii_of_nat 34.
Definition BACKSLASH : ascii := ascii_of_nat 92.

Definition is_json_ws (c : ascii) : bool :=
  existsb (N.eqb (N_of_ascii c)) [9; 10; 13; 32]%N.

Fixpoint skip_ws (s : jsstring) : jsstring :=
  match s with
  | c :: s' => if is_json_ws c then skip_ws s' else s
  | [] => []
  end.

Definition digit_of (c : ascii) : option Z :=
  let n := Z.of_N (N_of_ascii c) in
  if (48 <=? n) && (n <=? 57) then Some (n - 48) else None.

Definition hex_of (c : ascii) : option Z :=
  let n := Z.of_N (N_of_ascii c) in
  if (48 <=? n) && (n <=? 57) then Some (n - 48)
  else if (65 <=? n) && (n <=? 70) then Some (n - 55)
  else if (97 <=? n) && (n <=? 102) then Some (n - 87)
  else None.

(** Reads a run of digits: its value after [acc], its length, the rest. *)
Fixpoint digits (acc : Z) (count : nat) (s : jsstring) : Z * nat * jsstring :=
  match s with
  | c :: s' =>
      match digit_of c with
      | Some d => digits (10 * acc + d) (S count) s'
      | None => (acc, count, s)
      end
  | [] => (acc, count, s)
  end.

Definition parse_exponent (s : jsstring) : option (Z * jsstring) :=
  match s with
  | c :: r =>
      if Ascii.eqb c "e" || Ascii.eqb c "E" then
        let '(sign, r1) :=
          match r with
          | d :: r' =>
              if Ascii.eqb d "-" then (-1, r')
              else if Ascii.eqb d "+" then (1, r') else (1, r)
          | [] => (1, r)
          end in
        match digits 0 0 r1 with
        | (_, O, _) => None
        | (e, _, r2) => Some (sign * e, r2)
        end
      else Some (0, s)
  | [] => Some (0, s)
  end.

(** The literal [m * 10^e] rounds to zero as a double: its magnitude is at
    most [2^-1075], half of the least positive double. *)
Definition rounds_to_zero (m e : Z) : bool :=
  if e <? 0 then Z.abs m * 2 ^ 1075 <=? 10 ^ (- e) else m =? 0.

Definition parse_number (s : jsstring) : option (json * jsstring) :=
  let '(sign, s1) :=
    match s with
    | c :: r => if Ascii.eqb c "-" then (-1, r) else (1, s)
    | [] => (1, s)
    end in
  match digits 0 0 s1 with
  | (_, O, _) => None
  | (int, n, s2) =>
      (* no leading zero in front of further digits *)
      if (1 <? n)%nat && startsWith "0" s1 then None else
      let frac :=
        match s2 with
        | c :: r =>
            if Ascii.eqb c "." then
              match digits int 0 r with
              | (_, O, _) => None
              | (m, k, s3) => Some (m, Z.of_nat k, s3)
              end
            else Some (int, 0, s2)
        | [] => Some (int, 0, s2)
        end in
      match frac with
      | None => None
      | Some (m, k, s3) =>
          match parse_exponent s3 with
          | None => None
          | Some (e, s4) =>
              if rounds_to_zero (sign * m) (e - k) then Some (JNumber 0 0, s4)
              else Some (JNumber (sign * m) (e - k), s4)
          end
      end
  end.

(** The characters of a string literal, after its opening quote. *)
Fixpoint parse_string (fuel : nat) (s : jsstring) : option (jsstring * jsstring) :=
  match fuel with
  | O => None
  | S fuel' =>
      match s with
      | [] => None
      | c :: r =>
          if Ascii.eqb c DQUOTE then Some ([], r)
          else if (N_of_ascii c <? 32)%N then None
          else if Ascii.eqb c BACKSLASH then
            match r with
            | e :: r' =>
                let simple (x : ascii) :=
                  match parse_string fuel' r' with
                  | Some (str, rest) => Some (x :: str, rest)
                  | None => None
                  end in
                if Ascii.eqb e DQUOTE then simple DQUOTE
                else if Ascii.eqb e BACKSLASH then simple BACKSLASH
                else if Ascii.eqb e "/" then simple "/"%char
                else if Ascii.eqb e "b" then simple (ascii_of_nat 8)
                else if Ascii.eqb e "f" then simple (ascii_of_nat 12)
                else if Ascii.eqb e "n" then simple (ascii_of_nat 10)
                else if Ascii.eqb e "r" then simple (ascii_of_nat 13)
                else if Ascii.eqb e "t" then simple (ascii_of_nat 9)
                else if Ascii.eqb e "u" then
                  match r' with
                  | h1 :: h2 :: h3 :: h4 :: r'' =>
                      match hex_of h1, hex_of h2, hex_of h3, hex_of h4 with
                      | Some a, Some b, Some c', Some d =>
                          let u := ((a * 16 + b) * 16 + c') * 16 + d in
                          if u <? 256 then
                            match parse_string fuel' r'' with
                            | Some (str, rest) =>
                                Some (ascii_of_N (Z.to_N u) :: str, rest)
                            | None => None
                            end
                          else None
                      | _, _, _, _ => None
                      end
                  | _ => None
                  end
                else None
            | [] => None
            end
          else
            match parse_string fuel' r with
            | Some (str, rest) => Some (c :: str, rest)
            | None => None
            end
      end
  end.

Fixpoint parse_value (fuel : nat) (s : jsstring) {struct fuel}
  : option (json * jsstring) :=
  match fuel with
  | O => None
  | S fuel' =>
      match skip_ws s with
      | [] => None
      | c :: r =>
          if Ascii.eqb c "{" then
            match skip_ws r with
            | d :: r' =>
                if Ascii.eqb d "}" then Some (JObject [], r')
                else parse_members fuel' r []
            | [] => None
            end
          else if Ascii.eqb c "[" then
            match skip_ws r with
            | d :: r' =>
                if Ascii.eqb d "]" then Some (JArray [], r')
                else parse_elements fuel' r []
            | [] => None
            end
          else if Ascii.eqb c DQUOTE then
            match parse_string (S (length r)) r with
            | Some (str, rest) => Some (JString str, rest)
            | None => None
            end
          else if startsWith "true" (c :: r) then Some (JBool true, skipn 4 (c :: r))
          else if startsWith "false" (c :: r) then Some (JBool false, skipn 5 (c :: r))
          else if startsWith "null" (c :: r) then Some (JNull, skipn 4 (c :: r))
          else parse_number (c :: r)
      end
  end

with parse_elements (fuel : nat) (s : jsstring) (acc : list json) {struct fuel}
  : option (json * jsstring) :=
  match fuel with
  | O => None
  | S fuel' =>
      match parse_value fuel' s with
      | None => None
      | Some (v, r) =>
          match skip_ws r with
          | c :: r' =>
              if Ascii.eqb c "," then parse_elements fuel' r' (acc ++ [v])
              else if Ascii.eqb c "]" then Some (JArray (acc ++ [v]), r')
              else None
          | [] => None
          end
      end
  end

with parse_members (fuel : nat) (s : jsstring) (acc : list (jsstring * json))
  {struct fuel} : option (json * jsstring) :=
  match fuel with
  | O => None
  | S fuel' =>
      match skip_ws s with
      | q :: r =>
          if Ascii.eqb q DQUOTE then
            match parse_string (S (length r)) r with
            | None => None
            | Some (k, r1) =>
                match skip_ws r1 with
                | c :: r2 =>
                    if Ascii.eqb c ":" then
                      match parse_value fuel' r2 with
                      | None => None
                      | Some (v, r3) =>
                          match skip_ws r3 with
                          | d :: r4 =>
                              if Ascii.eqb d "," then
                                parse_members fuel' r4 (obj_set k v acc)
                              else if Ascii.eqb d "}" then
                                Some (JObject (obj_set k v acc), r4)
                              else None
                          | [] => None
                          end
                      end
                    else None
                | [] => None
                end
            end
          else None
      | [] => None
      end
  end.

(** The message of a [SyntaxError] depends on the engine and on the text;
    no statement below depends on the text chosen here.  The fuel given to
    [parse_value] covers every text: along a chain of nested calls, two
    successive calls consume at least one code unit. *)
Definition SyntaxError : JSError :=
  new_Error "JSON.parse: unexpected character".

Definition JSON_parse (s : jsstring) : completion json :=
  match parse_value (2 * length s + 2) s with
  | Some (v, r) =>
      match skip_ws r with
      | [] => Return v
      | _ :: _ => Throw SyntaxError
      end
  | None => Throw SyntaxError
  end.

End JSONRef.

(** ** The generative-language client, as the repository uses it *)

Module GenAI.

Record WebChunk := { web_title : option jsstring; web_uri : option jsstring }.

Record GroundingChunk := { web : option WebChunk }.

(** [text] is [response.text]; [groundingChunks] is
    [response.candidates?.[0]?.groundingMetadata?.groundingChunks], [None]
    when any link of the chain is missing. *)
Record GenerateContentResponse := {
  text : option jsstring;
  groundingChunks : option (list GroundingChunk)
}.

Inductive SchemaType := STRING | ARRAY (items : SchemaType).

Record ResponseSchema := {
  properties : list (jsstring * SchemaType);
  required : list jsstring
}.

Record GenerateContentConfig := {
  googleSearch : bool;
  responseMimeType : option jsstring;
  responseSchema : option ResponseSchema;
  systemInstruction : option jsstring
}.

Definition no_config : GenerateContentConfig :=
  {| googleSearch := false; responseMimeType := None; responseSchema := None;
     systemInstruction := None |}.

Record GenerateContentParameters := {
  model : jsstring;
  contents : jsstring;
  config : GenerateContentConfig
}.

End GenAI.
Import GenAI.

(** ** ArtifactSynthesizer: [discoverJsonPrompts] (geminiService.ts) *)

Module GeminiService.

Record Source := { title : jsstring; uri : jsstring }.

Definition Source_to_json (s : Source) : json :=
  JObject [(lit "title", JString (title s)); (lit "uri", JString (uri s))].

Definition researchPrompt (query : jsstring) : jsstring :=
  [LF] +++
  "      Act as a Lead Data Architect. Perform a targeted, industry-wide search for the most authoritative JSON data structures, API specifications, and formal schemas for: " +++
  dq +++ query +++ dq +++ "." +++ [LF] +++ "      " +++ [LF] +++ "      PRIORITY SOURCES:" +++
  [LF] +++ "      1. Official Developer Documentation (e.g., Stripe, Google, AWS, GitHub)." +++
  [LF] +++ "      2. OpenAPI (Swagger) or GraphQL specifications." +++ [LF] +++
  "      3. Public Schema Repositories (e.g., Schema.org, industry-standard GitHub repos)." +++
  [LF] +++ "      4. Technical RFCs or IETF standards." +++ [LF] +++ "      " +++ [LF] +++
  "      INSTRUCTIONS:" +++ [LF] +++
  "      - Prioritize official documentation over generic blog posts or community tutorials." +++
  [LF] +++ "      - Identify the canonical " +++ dq +++ "Source of Truth" +++ dq +++
  " for this data model." +++ [LF] +++
  "      - Identify core keys, nesting patterns, and standardized naming conventions." +++ [LF] +++
  "      - Distinguish between required and optional fields." +++ [LF] +++
  "      - Reference specific implementations from major tech platforms." +++ [LF] +++ "    ".

Definition synthesisPrompt (query researchText : jsstring) : jsstring :=
  [LF] +++
  "      As a Senior AI Architect, use this research to engineer a high-fidelity JSON prompt package for: " +++
  dq +++ query +++ dq +++ "." +++ [LF] +++ "      " +++ [LF] +++ "      Research Input:" +++
  [LF] +++ "      " +++ researchText +++ [LF] +++ [LF] +++ "      Return a JSON object with:" +++
  [LF] +++ "      1. " +++ dq +++ "title" +++ dq +++ ": Descriptive professional title." +++
  [LF] +++ "      2. " +++ dq +++ "description" +++ dq +++ ": Deep overview in Markdown." +++
  [LF] +++ "      3. " +++ dq +++ "jsonPrompt" +++ dq +++
  ": A precise, highly explicit LLM system prompt. This prompt MUST:" +++ [LF] +++
  "         - Define exactly what data to generate." +++ [LF] +++
  "         - Explicitly list every key name." +++ [LF] +++
  "         - Specify data types for every field (e.g., " +++ dq +++ "Integer" +++ dq +++ ", " +++
  dq +++ "Floating point" +++ dq +++ ", " +++ dq +++ "ISO-8601 date string" +++ dq +++ ", " +++
  dq +++ "Boolean" +++ dq +++ ")." +++ [LF] +++
  "         - Define array structures and constraints (e.g., " +++ dq +++
  "An array of exactly 5 items" +++ dq +++ ")." +++ [LF] +++
  "         - Mention mandatory vs. optional fields." +++ [LF] +++
  "         - Use technical but clear language optimized for LLM accuracy." +++ [LF] +++
  "      4. " +++ dq +++ "exampleJson" +++ dq +++ ": A robust, realistic example JSON string." +++
  [LF] +++ "      5. " +++ dq +++ "tsInterface" +++ dq +++
  ": Production-ready TypeScript interface." +++ [LF] +++ "      6. " +++ dq +++ "jsonSchema" +++
  dq +++ ": Comprehensive JSON Schema (Draft 7)." +++ [LF] +++ "      7. " +++ dq +++
  "promptVariations" +++ dq +++ ": 3 alternative prompt strategies." +++ [LF] +++ "    ".

Definition researchRequest (query : jsstring) : GenerateContentParameters :=
  {| model := "gemini-3-flash-preview";
     contents := researchPrompt query;
     config := {| googleSearch := true; responseMimeType := None;
                  responseSchema := None; systemInstruction := None |} |}.

Definition synthesisRequest (query researchText : jsstring) : GenerateContentParameters :=
  {| model := "gemini-3-flash-preview";
     contents := synthesisPrompt query researchText;
     config :=
       {| googleSearch := false;
          responseMimeType := Some (lit "application/json");
          responseSchema := Some
            {| properties :=
                 [(lit "title", STRING); (lit "description", STRING);
                  (lit "jsonPrompt", STRING); (lit "exampleJson", STRING);
                  (lit "tsInterface", STRING); (lit "jsonSchema", STRING);
                  (lit "promptVariations", ARRAY STRING)];
               required :=
                 [lit "title"; lit "description"; lit "jsonPrompt"; lit "exampleJson";
                  lit "tsInterface"; lit "jsonSchema"; lit "promptVariations"] |};
          systemInstruction := None |} |}.

(** [searchResponse.text || "No grounded data available."] *)
Definition researchText (searchResponse : GenerateContentResponse) : jsstring :=
  orElse (text searchResponse) "No grounded data available.".

(** One grounding chunk as a [Source]: [chunk.web?.title || "Grounded
    Reference"] and [chunk.web?.uri || "#"]. *)
Definition chunk_to_source (chunk : GroundingChunk) : Source :=
  {| title := orElse (match web chunk with Some w => web_title w | None => None end)
                     "Grounded Reference";
     uri := orElse (match web chunk with Some w => web_uri w | None => None end) "#" |}.

(** The [sources] constant: map, filter out the placeholder, [slice(0, 5)]. *)
Definition sources (searchResponse : GenerateContentResponse) : list Source :=
  firstn 5
    (filter (fun s => negb (jsstring_eqb (uri s) "#"))
       (map chunk_to_source
          (match groundingChunks searchResponse with
           | Some chunks => chunks
           | None => []
           end))).

Definition fallback_source : Source :=
  {| title := "General Industry Documentation"; uri := "#" |}.

(** [sources.length > 0 ? sources : [fallback]] *)
Definition final_sources (srcs : list Source) : list Source :=
  if (0 <? length srcs)%nat then srcs else [fallback_source].

Definition fallback_message : jsstring :=
  "The synthesis engine encountered a logic fault. Please retry.".

Section DiscoverJsonPrompts.

(** The platform's [JSON.parse] and the remote [ai.models.generateContent]. *)
Variable JSON_parse : jsstring -> completion json.
Variable generateContent : GenerateContentParameters -> completion GenerateContentResponse.

(** The body of the [try] block. *)
Definition discover_body (query : jsstring) : completion json :=
  searchResponse <- generateContent (researchRequest query) ;;
  let srcs := sources searchResponse in
  formatResponse <-
    generateContent (synthesisRequest query (researchText searchResponse)) ;;
  let rawResult := orElse (text formatResponse) "{}" in
  parsed <- JSON_parse (cleanJsonResponse (Some rawResult)) ;;
  Return
    (JObject
       (obj_set "sources" (JArray (map Source_to_json (final_sources srcs)))
          (own_props parsed))).

Definition discoverJsonPrompts (query : jsstring) : completion json :=
  try_catch (discover_body query)
    (fun error => Throw (new_Error (orElse (message error) fallback_message))).

End DiscoverJsonPrompts.

(** A property of a returned object. *)
Definition field (k : jsstring) (v : json) : option json :=
  match v with
  | JObject props => obj_get k props
  | _ => None
  end.

(** "Present and non-empty string". *)
Definition nonempty_string (v : option json) : Prop :=
  exists s, v = Some (JString s) /\ s <> [].

End GeminiService.

(** ** SchemaAuditor: [validateAgainstSchema] and [deriveSchemaFromExample]
    (ResultView.tsx) *)

Module ResultView.

(** The properties of the [result] prop that the two operations read;
    [None] is [undefined]. *)
Record SearchResult := {
  jsonPrompt : option jsstring;
  exampleJson : option jsstring;
  jsonSchema : option jsstring
}.

Inductive Tab := TabJson | TabTs | TabSchema | TabCloud | TabIntegration.

(** The component's [useState] cells that the operations touch. *)
Record State := {
  activeTab : Tab;
  isTestingPrompt : bool;
  testResult : option jsstring;
  isValidatingSchema : bool;
  validationReport : option jsstring;
  isDerivingSchema : bool;
  derivedSchema : option jsstring;
  schemaError : option jsstring
}.

Definition initial : State :=
  {| activeTab := TabJson; isTestingPrompt := false; testResult := None;
     isValidatingSchema := false; validationReport := None;
     isDerivingSchema := false; derivedSchema := None; schemaError := None |}.

(** [a || b] on possibly undefined strings. *)
Definition or_undefined (a b : option jsstring) : option jsstring :=
  match a with
  | Some (_ :: _) => a
  | _ => b
  end.

Definition auditPrompt (schemaToUse example : jsstring) : jsstring :=
  "Validate JSON against Schema. Report in Markdown. Schema: " +++ schemaToUse +++
  " JSON: " +++ example.

(** [validateAgainstSchema], up to its [await]: the request it sends, if it
    does not return early. *)
Definition validate_request (st : State) (result : SearchResult)
  : option GenerateContentParameters :=
  let schemaToUse := or_undefined (derivedSchema st) (jsonSchema result) in
  match schemaToUse, exampleJson result with
  | Some (c :: sch), Some (d :: ex) =>
      Some {| model := "gemini-3-flash-preview";
              contents := auditPrompt (c :: sch) (d :: ex);
              config := no_config |}
  | _, _ => None
  end.

Definition validate_start (st : State) (result : SearchResult)
  : State * option GenerateContentParameters :=
  match validate_request st result with
  | None => (st, None)
  | Some req =>
      ({| activeTab := activeTab st;
          isTestingPrompt := isTestingPrompt st; testResult := testResult st;
          isValidatingSchema := true; validationReport := None;
          isDerivingSchema := isDerivingSchema st;
          derivedSchema := derivedSchema st; schemaError := schemaError st |},
       Some req)
  end.

(** [validateAgainstSchema], from the settlement of its call on. *)
Definition validate_settle (st : State) (outcome : completion GenerateContentResponse)
  : State :=
  {| activeTab := activeTab st;
     isTestingPrompt := isTestingPrompt st; testResult := testResult st;
     isValidatingSchema := false;
     validationReport :=
       match outcome with
       | Return response => Some (orElse (text response) "Validation complete.")
       | Throw _ => Some (lit "Schema audit failed.")
       end;
     isDerivingSchema := isDerivingSchema st;
     derivedSchema := derivedSchema st; schemaError := schemaError st |}.

Definition derive_request (result : SearchResult) : option GenerateContentParameters :=
  match exampleJson result with
  | Some (d :: ex) =>
      Some {| model := "gemini-3-flash-preview";
              contents := "Architect: Reverse engineer JSON Schema from: " +++ (d :: ex);
              config := {| googleSearch := false;
                           responseMimeType := Some (lit "application/json");
                           responseSchema := None; systemInstruction := None |} |}
  | _ => None
  end.

Definition derive_start (st : State) (result : SearchResult)
  : State * option GenerateContentParameters :=
  match derive_request result with
  | None => (st, None)
  | Some req =>
      ({| activeTab := activeTab st;
          isTestingPrompt := isTestingPrompt st; testResult := testResult st;
          isValidatingSchema := isValidatingSchema st;
          validationReport := validationReport st;
          isDerivingSchema := true;
          derivedSchema := derivedSchema st; schemaError := schemaError st |},
       Some req)
  end.

(** [deriveSchemaFromExample], from the settlement of its call on:
    [setDerivedSchema(response.text?.trim())]. *)
Definition derive_settle (st : State) (outcome : completion GenerateContentResponse)
  : State :=
  match outcome with
  | Return response =>
      {| activeTab := TabSchema;
         isTestingPrompt := isTestingPrompt st; testResult := testResult st;
         isValidatingSchema := isValidatingSchema st;
         validationReport := validationReport st;
         isDerivingSchema := false;
         derivedSchema := option_map trim (text response);
         schemaError := schemaError st |}
  | Throw _ =>
      {| activeTab := activeTab st;
         isTestingPrompt := isTestingPrompt st; testResult := testResult st;
         isValidatingSchema := isValidatingSchema st;
         validationReport := validationReport st;
         isDerivingSchema := false;
         derivedSchema := derivedSchema st;
         schemaError := Some (lit "Architectural Fault.") |}
  end.

(** What happens to a mounted component: the two buttons, the settlement of
    the calls they started, and a change of tab.  [result] is the prop at
    the time of the click. *)
Inductive Event :=
| ClickValidate (result : SearchResult)
| SettleValidate (outcome : completion GenerateContentResponse)
| ClickDerive (result : SearchResult)
| SettleDerive (outcome : completion GenerateContentResponse)
| SelectTab (tab : Tab).

Definition step (st : State) (ev : Event) : State * option GenerateContentParameters :=
  match ev with
  | ClickValidate result => validate_start st result
  | SettleValidate outcome => (validate_settle st outcome, None)
  | ClickDerive result => derive_start st result
  | SettleDerive outcome => (derive_settle st outcome, None)
  | SelectTab tab =>
      ({| activeTab := tab;
          isTestingPrompt := isTestingPrompt st; testResult := testResult st;
          isValidatingSchema := isValidatingSchema st;
          validationReport := validationReport st;
          isDerivingSchema := isDerivingSchema st;
          derivedSchema := derivedSchema st; schemaError := schemaError st |}, None)
  end.

(** The events of a run, each with the request it sent. *)
Fixpoint trace (st : State) (evs : list Event)
  : list (Event * option GenerateContentParameters) :=
  match evs with
  | [] => []
  | ev :: evs' => (ev, snd (step st ev)) :: trace (fst (step st ev)) evs'
  end.

(** No schema derivation succeeds during these events. *)
Definition no_derivation (evs : list Event) : Prop :=
  forall response, ~ In (SettleDerive (Return response)) evs.

End ResultView.

(** ** ConversationSession: the chat widget *)

Module ChatWidget.

(** The roles ['user'] and ['model']. *)
Inductive Role := user | model_role.

Record Message := { id : jsstring; role : Role; msg_text : jsstring }.

(** The properties of [currentContext] that the widget reads. *)
Record Context := { title : option jsstring; ctx_jsonPrompt : option jsstring }.

(** A possibly undefined string inside a template literal. *)
Definition interpolate (o : option jsstring) : jsstring :=
  match o with
  | Some s => s
  | None => "undefined"
  end.

Definition hex_digit (n : N) : ascii :=
  if (n <? 10)%N then ascii_of_N (48 + n) else ascii_of_N (87 + n).

(** [JSON.stringify] of a string: the quoted, escaped literal. *)
Definition quote_unit (c : ascii) : jsstring :=
  let n := N_of_ascii c in
  if (n =? 34)%N then [ascii_of_nat 92; c]
  else if (n =? 92)%N then [c; c]
  else if (n =? 8)%N then [ascii_of_nat 92; "b"%char]
  else if (n =? 12)%N then [ascii_of_nat 92; "f"%char]
  else if (n =? 10)%N then [ascii_of_nat 92; "n"%char]
  else if (n =? 13)%N then [ascii_of_nat 92; "r"%char]
  else if (n =? 9)%N then [ascii_of_nat 92; "t"%char]
  else if (n <? 32)%N then
    [ascii_of_nat 92; "u"%char; "0"%char; "0"%char; hex_digit (n / 16); hex_digit (n mod 16)]
  else [c].

Definition JSON_stringify_string (s : jsstring) : jsstring :=
  dq +++ flat_map quote_unit s +++ dq.

(** [JSON.stringify({ title: ..., prompt: ... })]: undefined properties are
    left out. *)
Definition JSON_stringify_context (ctx : Context) : jsstring :=
  let member (k : jsstring) (v : option jsstring) : list jsstring :=
    match v with
    | Some s => [dq +++ k +++ dq +++ ":" +++ JSON_stringify_string s]
    | None => []
    end in
  let members := member "title" (title ctx) ++ member "prompt" (ctx_jsonPrompt ctx) in
  "{" +++ List.concat (match members with
                       | [a; b] => [a; lit ","; b]
                       | _ => members
                       end) +++ "}".

Definition systemInstruction_of (currentContext : option Context) : jsstring :=
  "You are the JSON Prompter Assistant. Expert in data schemas and prompt engineering. Focus on structural integrity. Page context: " +++
  match currentContext with
  | Some ctx => JSON_stringify_context ctx
  | None => "No active context."
  end.

(** Where the one [handleSend] in flight stands: not started, awaiting
    [sendMessageStream], or iterating over the stream with [fullResponse]. *)
Inductive Flight := Idle | Awaiting | Streaming (fullResponse : jsstring).

Record State := {
  currentContext : option Context;
  messages : list Message;
  input : jsstring;
  isTyping : bool;
  (** [chatInstance.current]: the system instruction the session was
      created with, and the messages sent through it *)
  chatInstance : option jsstring;
  sent : list (jsstring * jsstring);
  flight : Flight
}.

Definition greeting : Message :=
  {| id := "1"; role := model_role;
     msg_text := "Assistant active. Need help refining structural logic?" |}.

Definition context_greeting (ctx : Context) (now : Z) : Message :=
  {| id := Z_to_jsstring now; role := model_role;
     msg_text := "I've analyzed the " +++ dq +++ interpolate (title ctx) +++ dq +++
                 " structure. Ready for refinements." |}.

Definition failure_message : Message :=
  {| id := "err"; role := model_role; msg_text := "Logic trace failed." |}.

Definition title_of (c : option Context) : option jsstring :=
  match c with
  | Some ctx => title ctx
  | None => None
  end.

(** The effect on [currentContext?.title], as it runs on mount. *)
Definition mount (ctx : option Context) (now : Z) : State :=
  {| currentContext := ctx;
     messages := match ctx with
                 | Some c => [context_greeting c now]
                 | None => [greeting]
                 end;
     input := []; isTyping := false; chatInstance := None; sent := [];
     flight := Idle |}.

(** [newMessages[newMessages.length - 1].text = fullResponse] *)
Fixpoint set_last_text (t : jsstring) (l : list Message) : list Message :=
  match l with
  | [] => []
  | [m] => [{| id := id m; role := role m; msg_text := t |}]
  | m :: l' => m :: set_last_text t l'
  end.

Definition with_messages (st : State) (ms : list Message) : State :=
  {| currentContext := currentContext st; messages := ms; input := input st;
     isTyping := isTyping st; chatInstance := chatInstance st; sent := sent st;
     flight := flight st |}.

(** [catch] and [finally] of [handleSend]. *)
Definition fail_send (st : State) : State :=
  {| currentContext := currentContext st;
     messages := messages st ++ [failure_message];
     input := input st; isTyping := false; chatInstance := chatInstance st;
     sent := sent st; flight := Idle |}.

Inductive Event :=
| SetContext (ctx : option Context) (now : Z)
| InputChange (value : jsstring)
| Submit (now : Z)
| StreamOpened (now : Z)
| StreamRejected
| Chunk (chunk_text : option jsstring)
| StreamFailed
| StreamDone.

Definition step (st : State) (ev : Event) : State :=
  match ev with
  | SetContext ctx now =>
      (* the effect runs when [currentContext?.title] changes *)
      if match title_of ctx, title_of (currentContext st) with
         | Some a, Some b => jsstring_eqb a b
         | None, None => true
         | _, _ => false
         end
      then {| currentContext := ctx; messages := messages st; input := input st;
              isTyping := isTyping st; chatInstance := chatInstance st;
              sent := sent st; flight := flight st |}
      else {| currentContext := ctx;
              messages := match ctx with
                          | Some c => [context_greeting c now]
                          | None => messages st
                          end;
              input := input st; isTyping := isTyping st; chatInstance := None;
              sent := sent st; flight := flight st |}
  | InputChange value =>
      {| currentContext := currentContext st; messages := messages st; input := value;
         isTyping := isTyping st; chatInstance := chatInstance st; sent := sent st;
         flight := flight st |}
  | Submit now =>
      (* [handleSend] up to [await chat.sendMessageStream] *)
      match trim (input st), isTyping st with
      | c :: m, false =>
          let userMessage := c :: m in
          let chat := match chatInstance st with
                      | Some i => i
                      | None => systemInstruction_of (currentContext st)
                      end in
          {| currentContext := currentContext st;
             messages := messages st ++
                         [{| id := Z_to_jsstring now; role := user; msg_text := userMessage |}];
             input := []; isTyping := true; chatInstance := Some chat;
             sent := sent st ++ [(chat, userMessage)];
             flight := Awaiting |}
      | _, _ => st
      end
  | StreamOpened now =>
      match flight st with
      | Awaiting =>
          {| currentContext := currentContext st;
             messages := messages st ++
                         [{| id := Z_to_jsstring (now + 1); role := model_role;
                             msg_text := [] |}];
             input := input st; isTyping := isTyping st;
             chatInstance := chatInstance st; sent := sent st;
             flight := Streaming [] |}
      | _ => st
      end
  | StreamRejected =>
      match flight st with
      | Awaiting => fail_send st
      | _ => st
      end
  | Chunk chunk_text =>
      match flight st with
      | Streaming fullResponse =>
          let fullResponse' := fullResponse +++ orElse chunk_text [] in
          {| currentContext := currentContext st;
             messages := set_last_text fullResponse' (messages st);
             input := input st; isTyping := isTyping st;
             chatInstance := chatInstance st; sent := sent st;
             flight := Streaming fullResponse' |}
      | _ => st
      end
  | StreamFailed =>
      match flight st with
      | Streaming _ => fail_send st
      | _ => st
      end
  | StreamDone =>
      match flight st with
      | Streaming _ =>
          {| currentContext := currentContext st; messages := messages st;
             input := input st; isTyping := false; chatInstance := chatInstance st;
             sent := sent st; flight := Idle |}
      | _ => st
      end
  end.

Definition run (st : State) (evs : list Event) : State := fold_left step evs st.

(** One message typed and sent, its stream delivered in full. *)
Definition send (value : jsstring) (now now' : Z) (fragments : list (option jsstring))
  : list Event :=
  [InputChange value; Submit now; StreamOpened now'] ++ map Chunk fragments ++ [StreamDone].

(** The concatenation of the fragments of a stream, in arrival order
    ([chunk.text || '']). *)
Definition concat_fragments (fragments : list (option jsstring)) : jsstring :=
  List.concat (map (fun t => orElse t []) fragments).

End ChatWidget.

(** ** FeedPoller: the stock card *)

Module StockCard.

(** The object [{...parsed, sourceUrl}] kept in [data]: the own properties
    of the parsed reply, and [sourceUrl] (which shadows a property of that
    name among [fields]). *)
Record MarketData := {
  fields : list (jsstring * json);
  sourceUrl : option jsstring
}.

Record ErrorInfo := { err_message : jsstring; hint : jsstring }.

(** An outstanding [generateContent] call of [fetchMarketData]: the
    [activeSymbol] of the closure that issued it, and its [isInitial]. *)
Record Fetch := { symbol : jsstring; isInitial : bool }.

Fixpoint lookup {A : Type} (id : nat) (l : list (nat * A)) : option A :=
  match l with
  | [] => None
  | (i, a) :: l' => if Nat.eqb id i then Some a else lookup id l'
  end.

Fixpoint remove_id {A : Type} (id : nat) (l : list (nat * A)) : list (nat * A) :=
  match l with
  | [] => []
  | (i, a) :: l' => if Nat.eqb id i then remove_id id l' else (i, a) :: remove_id id l'
  end.

(** The component: its [useState] cells, the [refreshInterval] ref, the
    intervals armed on [window] (each with the [activeSymbol] its callback
    closes over) and the outstanding calls. *)
Record State := {
  activeSymbol : jsstring;
  inputSymbol : jsstring;
  data : option MarketData;
  isLoading : bool;
  error : option ErrorInfo;
  isRefreshing : bool;
  refreshInterval : option nat;
  intervals : list (nat * jsstring);
  nextInterval : nat;
  pending : list (nat * Fetch);
  nextFetch : nat;
  mounted : bool
}.

Definition fetchPrompt (activeSymbol : jsstring) : jsstring :=
  "Fetch the current stock price and the last 7 days of daily closing prices for the symbol " +++
  dq +++ activeSymbol +++ dq +++ ". " +++ [LF] +++
  "                  Format the output strictly as a JSON object with keys: " +++ [LF] +++
  "                  " +++ dq +++ "currentPrice" +++ dq +++ " (number), " +++ dq +++
  "changePercent" +++ dq +++ " (number), and " +++ dq +++ "history" +++ dq +++
  " (array of {date: string, price: number}). " +++ [LF] +++
  "                  Keep dates very short, like 'Mon', 'Tue', etc.".

Definition fetchRequest (activeSymbol : jsstring) : GenerateContentParameters :=
  {| model := "gemini-3-flash-preview";
     contents := fetchPrompt activeSymbol;
     config := {| googleSearch := true; responseMimeType := None;
                  responseSchema := None; systemInstruction := None |} |}.

(** [fetchMarketData(isInitial)] of the render whose [activeSymbol] is
    [sym], up to its [await]. *)
Definition fetch_start (st : State) (sym : jsstring) (isInit : bool) : State :=
  {| activeSymbol := activeSymbol st;
     inputSymbol := inputSymbol st;
     data := if isInit then None else data st;
     isLoading := if isInit then true else isLoading st;
     error := None;
     isRefreshing := if isInit then isRefreshing st else true;
     refreshInterval := refreshInterval st;
     intervals := intervals st;
     nextInterval := nextInterval st;
     pending := pending st ++ [(nextFetch st, {| symbol := sym; isInitial := isInit |})];
     nextFetch := S (nextFetch st);
     mounted := mounted st |}.

(** [if (refreshInterval.current) window.clearInterval(refreshInterval.current)] *)
Definition clear_interval (st : State) : State :=
  match refreshInterval st with
  | Some id =>
      {| activeSymbol := activeSymbol st; inputSymbol := inputSymbol st;
         data := data st; isLoading := isLoading st; error := error st;
         isRefreshing := isRefreshing st; refreshInterval := refreshInterval st;
         intervals := remove_id id (intervals st);
         nextInterval := nextInterval st; pending := pending st;
         nextFetch := nextFetch st; mounted := mounted st |}
  | None => st
  end.

(** [refreshInterval.current = window.setInterval(() => fetchMarketData(false), 15000)] *)
Definition set_interval (st : State) (sym : jsstring) : State :=
  {| activeSymbol := activeSymbol st; inputSymbol := inputSymbol st;
     data := data st; isLoading := isLoading st; error := error st;
     isRefreshing := isRefreshing st;
     refreshInterval := Some (nextInterval st);
     intervals := intervals st ++ [(nextInterval st, sym)];
     nextInterval := S (nextInterval st);
     pending := pending st; nextFetch := nextFetch st; mounted := mounted st |}.

(** The effect on [activeSymbol], run in the render whose [activeSymbol] is
    [sym]. *)
Definition effect (st : State) (sym : jsstring) : State :=
  set_interval (clear_interval (fetch_start st sym true)) sym.

Definition mount (initialSymbol : jsstring) : State :=
  effect
    {| activeSymbol := initialSymbol; inputSymbol := initialSymbol;
       data := None; isLoading := true; error := None; isRefreshing := false;
       refreshInterval := None; intervals := []; nextInterval := 1;
       pending := []; nextFetch := 0; mounted := true |}
    initialSymbol.

Definition set_activeSymbol (st : State) (sym : jsstring) : State :=
  {| activeSymbol := sym; inputSymbol := inputSymbol st;
     data := data st; isLoading := isLoading st; error := error st;
     isRefreshing := isRefreshing st; refreshInterval := refreshInterval st;
     intervals := intervals st; nextInterval := nextInterval st;
     pending := pending st; nextFetch := nextFetch st; mounted := mounted st |}.

(** The state is well formed: the outstanding calls have distinct numbers
    below [nextFetch]; a mounted card has exactly one interval armed, the
    one held by the ref, and its callback closes over the current
    [activeSymbol]; an unmounted card has none. *)
Definition wf (st : State) : Prop :=
  (forall i, In i (map fst (pending st)) -> (i < nextFetch st)%nat) /\
  NoDup (map fst (pending st)) /\
  (if mounted st
   then exists id, refreshInterval st = Some id /\
                   intervals st = [(id, activeSymbol st)]
   else intervals st = []).

(** The values of [history] that the checks of [fetchMarketData] leave
    through: every value except [null], [false], zero, the empty string,
    the empty array and an object whose own [length] is zero.  The checks
    do not ask for an array: [true], a non-zero number, a non-empty string
    and an object such as [{}] are left through as well. *)
Definition admissible_history (h : json) : Prop :=
  match h with
  | JNull => False
  | JBool b => b = true
  | JNumber m _ => m <> 0
  | JString s => s <> []
  | JArray items => items <> []
  | JObject props => forall e, obj_get "length" props <> Some (JNumber 0 e)
  end.

(** What holds of a snapshot that went through these checks: its
    [currentPrice] is a number and its [history] is present and
    admissible. *)
Definition checked (d : MarketData) : Prop :=
  (exists m e, obj_get "currentPrice" (fields d) = Some (JNumber m e)) /\
  exists history,
    obj_get "history" (fields d) = Some history /\ admissible_history history.

Definition malformed_message : jsstring :=
  "Logic Sync Failure: The model returned a malformed response format.".

Definition incomplete_message : jsstring :=
  "Data Incomplete: The market feed returned an empty dataset for this asset.".

(** [v.history] and [v.currentPrice]: reading a property of [null] throws
    a [TypeError] (the message is V8's); other values are looked up in their
    own properties. *)
Definition get_prop (v : json) (k : jsstring) : completion (option json) :=
  match v with
  | JNull =>
      Throw (new_Error ("Cannot read properties of null (reading '" +++ k +++ "')"))
  | _ => Return (obj_get k (own_props v))
  end.

(** [!parsed.history || parsed.history.length === 0 ||
     typeof parsed.currentPrice !== 'number'], the properties already read *)
Definition incomplete (history currentPrice : option json) : bool :=
  falsy history
  || match history with
     | Some h => length_is_zero h
     | None => false
     end
  || negb (is_number currentPrice).

(** [response.candidates?.[0]?.groundingMetadata?.groundingChunks?.[0]?.web?.uri] *)
Definition first_uri (response : GenerateContentResponse) : option jsstring :=
  match groundingChunks response with
  | Some (chunk :: _) =>
      match web chunk with
      | Some w => web_uri w
      | None => None
      end
  | _ => None
  end.

Section FetchMarketData.

(** The platform's [JSON.parse] and [String.prototype.toUpperCase]. *)
Variable JSON_parse : jsstring -> completion json.
Variable toUpperCase : jsstring -> jsstring.

(** The [try] block of [fetchMarketData] after the call has returned: the
    value passed to [setData], or the error thrown. *)
Definition accept (response : GenerateContentResponse) : completion MarketData :=
  let reply := orElse (text response) [] in
  match match_braces reply with
  | None => Throw (new_Error malformed_message)
  | Some jsonMatch =>
      parsed <- JSON_parse jsonMatch ;;
      history <- get_prop parsed "history" ;;
      currentPrice <- get_prop parsed "currentPrice" ;;
      if incomplete history currentPrice
      then Throw (new_Error incomplete_message)
      else Return {| fields := own_props parsed; sourceUrl := first_uri response |}
  end.

(** The [catch] block: the error shown after an initial fetch. *)
Definition describe (err : JSError) : ErrorInfo :=
  let errorMessage := orElse (message err) "Establishing Signal failed." in
  {| err_message := errorMessage;
     hint :=
       if includes errorMessage "malformed" then
         "The search engine could not structure the price data correctly. Retrying might solve this."
       else if includes errorMessage "empty" then
         "No recent historical price data was found for this symbol on the web."
       else "Check your connection or verify the asset ticker symbol is correct." |}.

(** [fetchMarketData] from the settlement of call [id] on.  The state
    setters do nothing once the component is unmounted. *)
Definition settle (st : State) (id : nat) (outcome : completion GenerateContentResponse)
  : State :=
  match lookup id (pending st) with
  | None => st
  | Some f =>
      let result := bind outcome accept in
      let live := mounted st in
      {| activeSymbol := activeSymbol st;
         inputSymbol := inputSymbol st;
         data := match result with
                 | Return snapshot => if live then Some snapshot else data st
                 | Throw _ => data st
                 end;
         isLoading := if live then false else isLoading st;
         error := match result with
                  | Return _ => error st
                  | Throw err =>
                      if live && isInitial f then Some (describe err) else error st
                  end;
         isRefreshing := if live then false else isRefreshing st;
         refreshInterval := refreshInterval st;
         intervals := intervals st;
         nextInterval := nextInterval st;
         pending := remove_id id (pending st);
         nextFetch := nextFetch st;
         mounted := mounted st |}
  end.

(** [handleSymbolSubmit]; when [setActiveSymbol] changes the state, the
    component renders again, the cleanup of the previous effect runs and
    then the effect itself. *)
Definition handleSymbolSubmit (st : State) : State :=
  match trim (inputSymbol st) with
  | [] => st
  | _ :: _ =>
      if jsstring_eqb (toUpperCase (inputSymbol st)) (toUpperCase (activeSymbol st))
      then st
      else
        let sym := toUpperCase (inputSymbol st) in
        if jsstring_eqb sym (activeSymbol st) then st
        else effect (set_activeSymbol (clear_interval st) sym) sym
  end.

Inductive Event :=
| InputChange (value : jsstring)
| SymbolSubmit
| Tick (id : nat)
| Retry
| Settle (id : nat) (outcome : completion GenerateContentResponse)
| Unmount.

Definition step (st : State) (ev : Event) : State :=
  if negb (mounted st) then
    match ev with
    | Settle id outcome => settle st id outcome
    | _ => st
    end
  else
    match ev with
    | InputChange value =>
        {| activeSymbol := activeSymbol st; inputSymbol := value;
           data := data st; isLoading := isLoading st; error := error st;
           isRefreshing := isRefreshing st; refreshInterval := refreshInterval st;
           intervals := intervals st; nextInterval := nextInterval st;
           pending := pending st; nextFetch := nextFetch st; mounted := mounted st |}
    | SymbolSubmit => handleSymbolSubmit st
    | Tick id =>
        match lookup id (intervals st) with
        | Some sym => fetch_start st sym false
        | None => st
        end
    | Retry =>
        (* the button is rendered when [!isLoading && (error || !data)] *)
        if negb (isLoading st)
           && (match error st with Some _ => true | None => false end
               || match data st with Some _ => false | None => true end)
        then fetch_start st (activeSymbol st) true
        else st
    | Settle id outcome => settle st id outcome
    | Unmount =>
        let st' := clear_interval st in
        {| activeSymbol := activeSymbol st'; inputSymbol := inputSymbol st';
           data := data st'; isLoading := isLoading st'; error := error st';
           isRefreshing := isRefreshing st'; refreshInterval := refreshInterval st';
           intervals := intervals st'; nextInterval := nextInterval st';
           pending := pending st'; nextFetch := nextFetch st'; mounted := false |}
    end.

Definition run (st : State) (evs : list Event) : State := fold_left step evs st.

(** The race-freedom rule in the words of the specification: when the
    subject is changed while a fetch [i] issued under the old subject is
    outstanding, and the reply to the new subject's fetch arrives before the
    reply to [i], the snapshot finally shown is the new subject's. *)
Definition stale_results_discarded : Prop :=
  forall initialSymbol evs i f rOld rNew snapOld snapNew,
    let st := run (mount initialSymbol) evs in
    let st1 := step st SymbolSubmit in
    mounted st = true -> In (i, f) (pending st) ->
    activeSymbol st1 <> activeSymbol st ->
    accept rOld = Return snapOld -> accept rNew = Return snapNew ->
    data (run st1 [Settle (nextFetch st) (Return rNew); Settle i (Return rOld)])
    = Some snapNew.

End FetchMarketData.

(** [toUpperCase] on the letters a to z; the instance used on
    concrete symbols. *)
Definition ascii_toUpperCase (s : jsstring) : jsstring :=
  map (fun c =>
         let n := N_of_ascii c in
         if ((97 <=? n) && (n <=? 122))%N then ascii_of_N (n - 32) else c) s.

End StockCard.

(** ** The search bar (components/SearchBar.tsx) *)

Module SearchBar.

(** [handleSubmit]: the query passed to [onSearch], if the form passes one
    on ([input.trim() && !isLoading]). *)
Definition handleSubmit (input : jsstring) (isLoading : bool) : option jsstring :=
  match trim input, isLoading with
  | c :: q, false => Some (c :: q)
  | _, _ => None
  end.

End SearchBar.

(** ** The application state: [handleSearch], [handleToggleSave] and the
    handlers passed to the lists *)

Module App.

(** [SearchResult] and [SavedResult] of types.ts. *)
Record SearchResult := {
  title : jsstring;
  description : jsstring;
  jsonPrompt : jsstring;
  exampleJson : jsstring;
  jsonSchema : option jsstring;
  tsInterface : option jsstring;
  sources : list GeminiService.Source;
  promptVariations : option (list jsstring)
}.

Record SavedResult := { saved : SearchResult; id : jsstring; savedAt : Z }.

(** [AppState] of types.ts, with the [handleSearch] calls that await
    [discoverJsonPrompts], each with its [query]. *)
Record AppState := {
  isSearching : bool;
  query : jsstring;
  results : option SearchResult;
  error : option jsstring;
  favorites : list SavedResult;
  searchHistory : list jsstring;
  useCount : Z;
  isSubscribed : bool;
  searches : list (nat * jsstring);
  nextSearch : nat
}.

Definition severed_message : jsstring :=
  "The neural link was severed. Please try again.".

(** [handleSearch(query)] up to its [await]. *)
Definition search_start (st : AppState) (q : jsstring) : AppState :=
  match trim q with
  | [] => st
  | _ :: _ =>
      {| isSearching := true; query := q; results := None; error := None;
         favorites := favorites st; searchHistory := searchHistory st;
         useCount := useCount st; isSubscribed := isSubscribed st;
         searches := searches st ++ [(nextSearch st, q)];
         nextSearch := S (nextSearch st) |}
  end.

(** [[query, ...prev.searchHistory.filter(h => h !== query)].slice(0, 10)] *)
Definition push_history (q : jsstring) (history : list jsstring) : list jsstring :=
  firstn 10 (q :: filter (fun h => negb (jsstring_eqb h q)) history).

(** [handleSearch] from the settlement of [discoverJsonPrompts] on. *)
Definition search_settle (st : AppState) (id : nat) (outcome : completion SearchResult)
  : AppState :=
  match StockCard.lookup id (searches st) with
  | None => st
  | Some q =>
      match outcome with
      | Return r =>
          {| isSearching := false; query := query st; results := Some r;
             error := error st; favorites := favorites st;
             searchHistory := push_history q (searchHistory st);
             useCount := useCount st; isSubscribed := isSubscribed st;
             searches := StockCard.remove_id id (searches st);
             nextSearch := nextSearch st |}
      | Throw err =>
          {| isSearching := false; query := query st; results := results st;
             error := Some (orElse (message err) severed_message);
             favorites := favorites st; searchHistory := searchHistory st;
             useCount := useCount st; isSubscribed := isSubscribed st;
             searches := StockCard.remove_id id (searches st);
             nextSearch := nextSearch st |}
      end
  end.

(** [state.favorites.some(f => f.title === result.title)] *)
Definition isSaved (favs : list SavedResult) (result : SearchResult) : bool :=
  existsb (fun f => jsstring_eqb (title (saved f)) (title result)) favs.

(** [handleToggleSave(result)]; [newId] is
    [Math.random().toString(36).substring(7)] and [now] is [Date.now()]. *)
Definition toggle_favorites (favs : list SavedResult) (result : SearchResult)
    (newId : jsstring) (now : Z) : list SavedResult :=
  if isSaved favs result
  then filter (fun f => negb (jsstring_eqb (title (saved f)) (title result))) favs
  else {| saved := result; id := newId; savedAt := now |} :: favs.

Definition with_favorites (st : AppState) (favs : list SavedResult) : AppState :=
  {| isSearching := isSearching st; query := query st; results := results st;
     error := error st; favorites := favs; searchHistory := searchHistory st;
     useCount := useCount st; isSubscribed := isSubscribed st;
     searches := searches st; nextSearch := nextSearch st |}.

(** What the user and the service do.  [ToggleSave] is the button of the
    result view, shown when [!isSearching && results]; [RemoveFavorite] and
    [SelectFavorite] are those of the list of favourites, shown when
    [!results && !isSearching]. *)
Inductive Event :=
| Search (q : jsstring)
| SearchSettled (id : nat) (outcome : completion SearchResult)
| ToggleSave (newId : jsstring) (now : Z)
| RemoveFavorite (favId : jsstring)
| SelectFavorite (fav : SavedResult)
| ClearHistory.

Definition step (st : AppState) (ev : Event) : AppState :=
  match ev with
  | Search q => search_start st q
  | SearchSettled id outcome => search_settle st id outcome
  | ToggleSave newId now =>
      match results st, isSearching st with
      | Some result, false =>
          with_favorites st (toggle_favorites (favorites st) result newId now)
      | _, _ => st
      end
  | RemoveFavorite favId =>
      match results st, isSearching st with
      | None, false =>
          with_favorites st
            (filter (fun f => negb (jsstring_eqb (id f) favId)) (favorites st))
      | _, _ => st
      end
  | SelectFavorite fav =>
      match results st, isSearching st with
      | None, false =>
          {| isSearching := isSearching st; query := title (saved fav);
             results := Some (saved fav); error := error st;
             favorites := favorites st; searchHistory := searchHistory st;
             useCount := useCount st; isSubscribed := isSubscribed st;
             searches := searches st; nextSearch := nextSearch st |}
      | _, _ => st
      end
  | ClearHistory =>
      {| isSearching := isSearching st; query := query st; results := results st;
         error := error st; favorites := favorites st; searchHistory := [];
         useCount := useCount st; isSubscribed := isSubscribed st;
         searches := searches st; nextSearch := nextSearch st |}
  end.

Definition run (st : AppState) (evs : list Event) : AppState := fold_left step evs st.

(** The state of a first visit: nothing in [localStorage]. *)
Definition fresh : AppState :=
  {| isSearching := false; query := []; results := None; error := None;
     favorites := []; searchHistory := []; useCount := 0; isSubscribed := false;
     searches := []; nextSearch := 0 |}.

End App.

(** ** The deployment snippets of the result view: escaping the prompt for a
    template literal *)

Module Snippets.

Definition BACKSLASH : ascii := ascii_of_nat 92.

(** [s.replace(/`/g, '\\`')] *)
Fixpoint escape_backquotes (s : jsstring) : jsstring :=
  match s with
  | [] => []
  | c :: s' =>
      if Ascii.eqb c "`" then BACKSLASH :: c :: escape_backquotes s'
      else c :: escape_backquotes s'
  end.

(** [s.replace(/\${/g, '\\${')] *)
Fixpoint escape_interpolations (s : jsstring) : jsstring :=
  match s with
  | [] => []
  | c :: s' =>
      if Ascii.eqb c "$" then
        match s' with
        | d :: s'' =>
            if Ascii.eqb d "{" then BACKSLASH :: c :: d :: escape_interpolations s''
            else c :: escape_interpolations s'
        | [] => [c]
        end
      else c :: escape_interpolations s'
  end.

(** The harness as it is spliced into the three snippets. *)
Definition escape_for_template (harness : jsstring) : jsstring :=
  escape_interpolations (escape_backquotes harness).

End Snippets.

(** ** Vocabulary of the further properties *)

Module Vocabulary.

(** A grounding chunk that carries a URI other than the placeholder. *)
Definition usable (chunk : GroundingChunk) : bool :=
  match web chunk with
  | Some w =>
      match web_uri w with
      | Some (c :: u) => negb (jsstring_eqb (c :: u) "#")
      | _ => false
      end
  | None => false
  end.

(** The grounding chunks of a response ([|| []]). *)
Definition chunks_of (response : GenerateContentResponse) : list GroundingChunk :=
  match groundingChunks response with
  | Some chunks => chunks
  | None => []
  end.

(** In [s], every occurrence of the code unit [c] comes right after a
    backslash. *)
Definition each_escaped (c : ascii) (s : jsstring) : Prop :=
  forall i, nth_error s i = Some c ->
            exists j, i = S j /\ nth_error s j = Some Snippets.BACKSLASH.

(** In [s], every occurrence of [${] comes right after a backslash. *)
Definition each_interpolation_escaped (s : jsstring) : Prop :=
  forall i, nth_error s i = Some "$"%char -> nth_error s (S i) = Some "{"%char ->
            exists j, i = S j /\ nth_error s j = Some Snippets.BACKSLASH.

(** The fields of the stock card that its rendering reads. *)
Definition shown (st : StockCard.State)
  : jsstring * option StockCard.MarketData * bool * option StockCard.ErrorInfo * bool :=
  (StockCard.activeSymbol st, StockCard.data st, StockCard.isLoading st,
   StockCard.error st, StockCard.isRefreshing st).

(** A tick of the interval, or the settlement of a fetch by a failure: a
    failed call, or a reply that [fetchMarketData] rejects. *)
Definition tick_or_failure (JSON_parse : jsstring -> completion json)
    (ev : StockCard.Event) : Prop :=
  match ev with
  | StockCard.Tick _ => True
  | StockCard.Settle _ outcome =>
      exists e, bind outcome (StockCard.accept JSON_parse) = Throw e
  | _ => False
  end.

(** The turns of the chat transcript without their texts. *)
Definition turns (st : ChatWidget.State) : list (jsstring * ChatWidget.Role) :=
  map (fun m => (ChatWidget.id m, ChatWidget.role m)) (ChatWidget.messages st).

Definition keeps_context (ev : ChatWidget.Event) : Prop :=
  match ev with
  | ChatWidget.SetContext _ _ => False
  | _ => True
  end.

(** The decidable form of [each_escaped], scanning [s] with the knowledge
    of whether the code unit before it is a backslash. *)
Fixpoint guarded (c : ascii) (after_backslash : bool) (s : jsstring) : bool :=
  match s with
  | [] => true
  | a :: s' =>
      (negb (Ascii.eqb a c) || after_backslash)
      && guarded c (Ascii.eqb a Snippets.BACKSLASH) s'
  end.

(** The decidable form of [each_interpolation_escaped]. *)
Fixpoint interpolation_guarded (after_backslash : bool) (s : jsstring) : bool :=
  match s with
  | [] => true
  | a :: s' =>
      match s' with
      | d :: _ => negb (Ascii.eqb a "$" && Ascii.eqb d "{") || after_backslash
      | [] => true
      end
      && interpolation_guarded (Ascii.eqb a Snippets.BACKSLASH) s'
  end.

(** The result view after a sequence of events. *)
Definition view_after (st : ResultView.State) (evs : list ResultView.Event)
  : ResultView.State :=
  fold_left (fun st ev => fst (ResultView.step st ev)) evs st.

End Vocabulary.

(** ** Sample inputs and remote models, to run the code on *)

Module Samples.
Import GeminiService.

(** A reply wrapped in a fence and followed by prose. *)
Definition fenced_reply : jsstring :=
  "```json" +++ [LF] +++ "{ok: {}}" +++ [LF] +++ "``` done }".

(** A model that answers every call with an empty response. *)
Definition silent_model (_ : GenerateContentParameters)
  : completion GenerateContentResponse :=
  Return {| text := None; groundingChunks := None |}.

(** A model whose calls fail with the given message. *)
Definition failing_model (msg : option jsstring) (_ : GenerateContentParameters)
  : completion GenerateContentResponse :=
  Throw {| message := msg |}.

Definition cite (t u : option jsstring) : GroundingChunk :=
  {| web := Some {| web_title := t; web_uri := u |} |}.

(** Seven citations, one without a URI and one without a [web] record. *)
Definition seven_chunks : list GroundingChunk :=
  [cite (Some (lit "Stripe API")) (Some (lit "https://stripe.com/docs/api"));
   cite None None;
   cite None (Some (lit "https://schema.org/Invoice"));
   {| web := None |};
   cite (Some (lit "RFC 8259")) (Some (lit "https://www.rfc-editor.org/rfc/rfc8259"));
   cite (Some (lit "OpenAPI")) (Some (lit "https://spec.openapis.org/oas/latest.html"));
   cite (Some (lit "GitHub")) (Some (lit "https://docs.github.com/rest"));
   cite (Some (lit "AWS")) (Some (lit "https://docs.aws.amazon.com"));
   cite (Some (lit "Google")) (Some (lit "https://developers.google.com"))].

Definition synthesis_text : jsstring :=
  "```json" +++ [LF] +++
  "{" +++ dq +++ "title" +++ dq +++ ": " +++ dq +++ "Invoice" +++ dq +++ ", " +++
  dq +++ "jsonPrompt" +++ dq +++ ": " +++ dq +++ "Generate an invoice." +++ dq +++ ", " +++
  dq +++ "exampleJson" +++ dq +++ ": " +++ dq +++ "{}" +++ dq +++ "}" +++ [LF] +++ "```".

(** A model that grounds its research on [seven_chunks] and then returns
    a fenced JSON object. *)
Definition grounded_model (r : GenerateContentParameters)
  : completion GenerateContentResponse :=
  if googleSearch (config r)
  then Return {| text := Some (lit "Invoices have a number and lines.");
                 groundingChunks := Some seven_chunks |}
  else Return {| text := Some synthesis_text; groundingChunks := None |}.

(** A model whose synthesis is not JSON. *)
Definition rambling_model (r : GenerateContentParameters)
  : completion GenerateContentResponse :=
  if googleSearch (config r)
  then Return {| text := Some (lit "Some research."); groundingChunks := None |}
  else Return {| text := Some (lit "I cannot help with that."); groundingChunks := None |}.

(** An artifact with a schema of its own, and a derivation that answers
    with another one. *)
Definition audited_result : ResultView.SearchResult :=
  {| ResultView.jsonPrompt := Some (lit "Generate an invoice.");
     ResultView.exampleJson := Some (lit "{}");
     ResultView.jsonSchema := Some (lit "{original}") |}.

Definition derivation_response : GenerateContentResponse :=
  {| text := Some (lit " {derived} "); groundingChunks := None |}.

(** Replies of the market feed. *)
Definition quote_reply (price : jsstring) : GenerateContentResponse :=
  {| text := Some ("Here is the data you asked for: {" +++
                   dq +++ "currentPrice" +++ dq +++ ": " +++ price +++ ", " +++
                   dq +++ "changePercent" +++ dq +++ ": 1.5, " +++
                   dq +++ "history" +++ dq +++ ": [{" +++
                   dq +++ "date" +++ dq +++ ": " +++ dq +++ "Mon" +++ dq +++ ", " +++
                   dq +++ "price" +++ dq +++ ": " +++ price +++ "}]}");
     groundingChunks := None |}.

Definition empty_history_reply : GenerateContentResponse :=
  {| text := Some ("{" +++ dq +++ "currentPrice" +++ dq +++ ": 10, " +++
                   dq +++ "history" +++ dq +++ ": []}");
     groundingChunks := None |}.

End Samples.

(** ** Sample values for the application state *)

Module AppSamples.

Definition invoice_result : App.SearchResult :=
  {| App.title := "Invoice";
     App.description := "An invoice.";
     App.jsonPrompt := "Generate an invoice.";
     App.exampleJson := "{}";
     App.jsonSchema := None;
     App.tsInterface := None;
     App.sources := [GeminiService.fallback_source];
     App.promptVariations := None |}.

End AppSamples.

(* ################################################################# *)
(** * Properties *)

(** ** Facts on strings *)

(** Unfolds [startsWith] on literals, keeping the comparisons of code units
    folded. *)
Ltac sw_simpl := cbn [startsWith lit list_ascii_of_string] in *.

Section StringFacts.

Lemma startsWith_app_l (p s t : jsstring) :
  startsWith p s = true -> startsWith p (s ++ t) = true.
Proof.
  revert s; induction p as [|a p IH]; intros [|b s]; simpl; auto; try discriminate.
  rewrite !andb_true_iff; intros [-> H]; auto.
Qed.

Lemma startsWith_length (p s : jsstring) :
  startsWith p s = true -> (length p <= length s)%nat.
Proof.
  revert s; induction p as [|a p IH]; intros [|b s]; simpl; try lia; try discriminate.
  rewrite andb_true_iff; intros [_ H]; apply IH in H; lia.
Qed.

Lemma startsWith_skipn (p s : jsstring) :
  startsWith p s = true -> s = p ++ skipn (length p) s.
Proof.
  revert s; induction p as [|a p IH]; intros [|b s]; simpl; try discriminate; auto.
  rewrite andb_true_iff. intros [E H].
  apply Ascii.eqb_eq in E as ->. f_equal. now apply IH.
Qed.


Lemma startsWith_char (c d : ascii) (s : jsstring) :
  startsWith [c] (d :: s) = Ascii.eqb c d.
Proof. simpl; apply andb_true_r. Qed.

(** [indexOf] and [lastIndexOf] of a single code unit. *)

Lemma indexOf_from_absent (c : ascii) (s : jsstring) (i : Z) :
  ~ In c s -> indexOf_from i [c] s = -1.
Proof.
  revert i; induction s as [|d s IH]; intros i H; [reflexivity|].
  cbn [indexOf_from]; rewrite startsWith_char.
  destruct (Ascii.eqb_spec c d) as [->|]; [exfalso; apply H; now left|].
  apply IH; intros Hin; apply H; now right.
Qed.

Lemma indexOf_from_first (c : ascii) (a b : jsstring) (i : Z) :
  ~ In c a -> indexOf_from i [c] (a ++ c :: b) = i + Z.of_nat (length a).
Proof.
  revert i; induction a as [|d a IH]; intros i H.
  - cbn [app indexOf_from]; rewrite startsWith_char, Ascii.eqb_refl; simpl; lia.
  - cbn [app indexOf_from]; rewrite startsWith_char.
    destruct (Ascii.eqb_spec c d) as [->|]; [exfalso; apply H; now left|].
    rewrite IH; [cbn [length]; lia|]. intros Hin; apply H; now right.
Qed.

Lemma lastIndexOf_from_absent (c : ascii) (s : jsstring) (i : Z) :
  ~ In c s -> lastIndexOf_from i [c] s = -1.
Proof.
  revert i; induction s as [|d s IH]; intros i H; [reflexivity|].
  cbn [lastIndexOf_from]; rewrite startsWith_char, IH.
  - destruct (Ascii.eqb_spec c d) as [->|]; [exfalso; apply H; now left|reflexivity].
  - intros Hin; apply H; now right.
Qed.

Lemma lastIndexOf_from_last (c : ascii) (a b : jsstring) (i : Z) :
  0 <= i -> ~ In c b ->
  lastIndexOf_from i [c] (a ++ c :: b) = i + Z.of_nat (length a).
Proof.
  revert i; induction a as [|d a IH]; intros i Hi H.
  - cbn [app lastIndexOf_from]; rewrite startsWith_char, Ascii.eqb_refl.
    rewrite lastIndexOf_from_absent by assumption; simpl; lia.
  - cbn [app lastIndexOf_from]; rewrite IH by (assumption || lia).
    destruct (Z.eqb_spec (i + 1 + Z.of_nat (length a)) (-1)); [lia|].
    cbn [length]; lia.
Qed.

(** First and last occurrence of a code unit. *)
Lemma in_split_first (c : ascii) (s : jsstring) :
  In c s -> exists a b, s = a ++ c :: b /\ ~ In c a.
Proof.
  induction s as [|d s IH]; [intros []|].
  destruct (ascii_dec d c) as [->|Hd].
  - intros _; exists [], s; split; auto.
  - intros [H|H]; [contradiction|].
    destruct (IH H) as (a & b & -> & Ha).
    exists (d :: a), b; split; [reflexivity|].
    intros [E|E]; auto.
Qed.

Lemma in_split_last (c : ascii) (s : jsstring) :
  In c s -> exists a b, s = a ++ c :: b /\ ~ In c b.
Proof.
  intros H. apply in_rev in H.
  destruct (in_split_first _ _ H) as (a & b & E & Ha).
  exists (rev b), (rev a); split.
  - rewrite <- (rev_involutive s), E, rev_app_distr; simpl.
    now rewrite <- app_assoc.
  - now rewrite <- in_rev.
Qed.

Lemma indexOf_absent_iff (c : ascii) (s : jsstring) :
  indexOf s [c] = -1 <-> ~ In c s.
Proof.
  split; [|apply indexOf_from_absent].
  intros E H. destruct (in_split_first _ _ H) as (a & b & -> & Ha).
  unfold indexOf in E; rewrite indexOf_from_first in E by assumption; lia.
Qed.

Lemma lastIndexOf_absent_iff (c : ascii) (s : jsstring) :
  lastIndexOf s [c] = -1 <-> ~ In c s.
Proof.
  split; [|apply lastIndexOf_from_absent].
  intros E H. destruct (in_split_last _ _ H) as (a & b & -> & Hb).
  unfold lastIndexOf in E; rewrite lastIndexOf_from_last in E by (assumption || lia); lia.
Qed.

(** [substring] between two positions given by a decomposition. *)
Lemma substring_middle (a m b : jsstring) :
  substring (a ++ m ++ b) (Z.of_nat (length a)) (Z.of_nat (length a + length m)) = m.
Proof.
  unfold substring. rewrite !length_app.
  set (la := length a); set (lm := length m); set (lb := length b).
  replace (Z.min (Z.max (Z.of_nat la) 0) (Z.of_nat (la + (lm + lb)))) with (Z.of_nat la) by lia.
  replace (Z.min (Z.max (Z.of_nat (la + lm)) 0) (Z.of_nat (la + (lm + lb))))
    with (Z.of_nat (la + lm)) by lia.
  replace (Z.min (Z.of_nat la) (Z.of_nat (la + lm))) with (Z.of_nat la) by lia.
  replace (Z.max (Z.of_nat la) (Z.of_nat (la + lm)) - Z.of_nat la) with (Z.of_nat lm) by lia.
  rewrite !Nat2Z.id. subst la lm.
  rewrite skipn_app, skipn_all, Nat.sub_diag; simpl.
  rewrite firstn_app, firstn_all, Nat.sub_diag; simpl. apply app_nil_r.
Qed.

(** [trim] *)

Lemma trimStart_app_not_ws (a : jsstring) (c : ascii) (s : jsstring) :
  isWhiteSpace c = false -> trimStart (a ++ c :: s) = trimStart a ++ c :: s.
Proof.
  intros H; induction a as [|d a IH]; simpl.
  - now rewrite H.
  - now destruct (isWhiteSpace d).
Qed.

Lemma trimStart_suffix (s : jsstring) : exists w, s = w ++ trimStart s.
Proof.
  induction s as [|c s [w IH]]; [now exists []|]; simpl.
  destruct (isWhiteSpace c).
  - exists (c :: w); simpl; now f_equal.
  - now exists [].
Qed.

Lemma trimStart_idem (s : jsstring) : trimStart (trimStart s) = trimStart s.
Proof.
  induction s as [|c s IH]; [reflexivity|]; simpl.
  destruct (isWhiteSpace c) eqn:E; [exact IH|]. simpl; now rewrite E.
Qed.

Lemma trimStart_fixed (t : jsstring) :
  trimStart t = t -> t = [] \/ exists c t', t = c :: t' /\ isWhiteSpace c = false.
Proof.
  destruct t as [|c t']; [now left|]; simpl.
  destruct (isWhiteSpace c) eqn:E; [|right; eauto].
  intros H. destruct (trimStart_suffix t') as [w Hw].
  apply (f_equal (@List.length ascii)) in H, Hw.
  rewrite length_app in Hw. simpl in H. lia.
Qed.

Lemma trimEnd_prefix (s : jsstring) : exists w, s = trimEnd s ++ w.
Proof.
  unfold trimEnd. destruct (trimStart_suffix (rev s)) as [w E].
  exists (rev w). rewrite <- rev_app_distr, <- E. symmetry; apply rev_involutive.
Qed.

Lemma trimEnd_idem (s : jsstring) : trimEnd (trimEnd s) = trimEnd s.
Proof. unfold trimEnd; now rewrite rev_involutive, trimStart_idem. Qed.

Lemma trimEnd_app_not_ws (s : jsstring) (c : ascii) (b : jsstring) :
  isWhiteSpace c = false -> trimEnd (s ++ c :: b) = s ++ c :: trimEnd b.
Proof.
  intros H. unfold trimEnd.
  rewrite rev_app_distr. cbn [rev]. rewrite <- app_assoc. cbn [app].
  rewrite trimStart_app_not_ws by assumption.
  rewrite rev_app_distr. cbn [rev]. rewrite rev_involutive.
  rewrite <- app_assoc. reflexivity.
Qed.

Lemma trim_idem (s : jsstring) : trim (trim s) = trim s.
Proof.
  unfold trim.
  assert (H : trimStart (trimEnd (trimStart s)) = trimEnd (trimStart s)).
  { destruct (trimStart_fixed (trimStart s) (trimStart_idem s))
      as [->|(c & t' & -> & Hc)]; [reflexivity|].
    pose proof (trimEnd_app_not_ws [] c t' Hc) as E; cbn [app] in E.
    rewrite E. simpl. now rewrite Hc. }
  rewrite H. apply trimEnd_idem.
Qed.

(** Trimming a text whose first and last code units are not white space. *)
Lemma trim_between (a : jsstring) (c : ascii) (m : jsstring) (d : ascii) (b : jsstring) :
  isWhiteSpace c = false -> isWhiteSpace d = false ->
  trim (a ++ c :: m ++ d :: b) = trimStart a ++ c :: m ++ d :: trimEnd b.
Proof.
  intros Hc Hd. unfold trim. rewrite trimStart_app_not_ws by assumption.
  replace (trimStart a ++ c :: m ++ d :: b) with ((trimStart a ++ c :: m) ++ d :: b)
    by (rewrite <- app_assoc; reflexivity).
  rewrite trimEnd_app_not_ws by assumption. rewrite <- app_assoc; reflexivity.
Qed.

Lemma trimStart_dropped (s : jsstring) :
  exists w, s = w ++ trimStart s /\ forallb isWhiteSpace w = true.
Proof.
  induction s as [|c s (w & IH & Hw)]; [now exists []|]; simpl.
  destruct (isWhiteSpace c) eqn:E.
  - exists (c :: w); simpl. rewrite E, Hw. split; [now f_equal|reflexivity].
  - now exists [].
Qed.

Lemma trimEnd_dropped (s : jsstring) :
  exists w, s = trimEnd s ++ w /\ forallb isWhiteSpace w = true.
Proof.
  unfold trimEnd. destruct (trimStart_dropped (rev s)) as (w & E & Hw).
  exists (rev w). split.
  - rewrite <- rev_app_distr, <- E. symmetry; apply rev_involutive.
  - rewrite forallb_forall in *. intros x Hx. apply Hw. now apply in_rev.
Qed.

(** What [trim] does: it drops a run of white space at each end, and what
    it returns neither starts nor ends with white space. *)
Lemma trim_spec (s : jsstring) :
  (exists u v, s = u ++ trim s ++ v /\
               forallb isWhiteSpace u = true /\ forallb isWhiteSpace v = true) /\
  (forall c r, trim s = c :: r -> isWhiteSpace c = false) /\
  (forall r c, trim s = r ++ [c] -> isWhiteSpace c = false).
Proof.
  split; [|split].
  - unfold trim. destruct (trimStart_dropped s) as (u & Hu & Wu).
    destruct (trimEnd_dropped (trimStart s)) as (v & Hv & Wv).
    exists u, v. now rewrite <- Hv.
  - intros c r E.
    assert (H : trimStart (trim s) = trim s).
    { unfold trim.
      destruct (trimStart_fixed (trimStart s) (trimStart_idem s))
        as [->|(d & t' & -> & Hd)]; [reflexivity|].
      pose proof (trimEnd_app_not_ws [] d t' Hd) as E'; cbn [app] in E'.
      rewrite E'. simpl. now rewrite Hd. }
    rewrite E in H. simpl in H. destruct (isWhiteSpace c) eqn:Hc; [|reflexivity].
    destruct (trimStart_suffix r) as [w Hw].
    apply (f_equal (@List.length ascii)) in H, Hw.
    rewrite length_app in Hw. simpl in H. lia.
  - intros r c E. unfold trim, trimEnd in E.
    apply (f_equal (@rev ascii)) in E. rewrite rev_involutive, rev_app_distr in E.
    cbn [rev app] in E.
    pose proof (trimStart_idem (rev (trimStart s))) as H. rewrite E in H.
    simpl in H. destruct (isWhiteSpace c) eqn:Hc; [|reflexivity].
    destruct (trimStart_suffix (rev r)) as [w Hw].
    apply (f_equal (@List.length ascii)) in H, Hw.
    rewrite length_app in Hw. simpl in H. lia.
Qed.

(** [trim] returns a contiguous part of its argument. *)
Lemma trim_infix (s : jsstring) : exists u v, s = u ++ trim s ++ v.
Proof.
  unfold trim. destruct (trimStart_suffix s) as [u Hu].
  destruct (trimEnd_prefix (trimStart s)) as [v Hv].
  exists u, v. now rewrite <- Hv.
Qed.

End StringFacts.

(** ** Facts on the code-fence regular expression *)

Section FenceFacts.

Lemma fence_at_None (s : jsstring) :
  fence_at s = None <-> startsWith "```" s = false.
Proof.
  unfold fence_at.
  destruct (startsWith "```json" s) eqn:E7.
  - assert (startsWith "```" s = true) as ->.
    { destruct s as [|a [|b [|c s]]]; sw_simpl; try discriminate;
        rewrite ?andb_true_iff in *; try tauto; intuition discriminate. }
    destruct (startsWith [LF] (skipn 7 s)); split; discriminate.
  - destruct (startsWith "```" s); split; congruence.
Qed.

Lemma fence_at_Some (s : jsstring) (n : nat) :
  fence_at s = Some n ->
  startsWith "```" s = true /\ (3 <= n <= length s)%nat.
Proof.
  intros H. split.
  - destruct (startsWith "```" s) eqn:E; [reflexivity|].
    apply fence_at_None in E; congruence.
  - unfold fence_at in H.
    destruct (startsWith "```json" s) eqn:E7.
    + apply startsWith_length in E7. change (length (lit "```json")) with 7%nat in E7.
      destruct (startsWith [LF] (skipn 7 s)) eqn:EL; injection H as <-; [|lia].
      apply startsWith_length in EL. rewrite length_skipn in EL. simpl in EL. lia.
    + destruct (startsWith "```" s) eqn:E3; [|discriminate].
      injection H as <-. apply startsWith_length in E3. simpl in E3. lia.
Qed.

Lemma fence_at_head (c : ascii) (s : jsstring) :
  c <> "`"%char -> fence_at (c :: s) = None.
Proof.
  intros H. apply fence_at_None. sw_simpl.
  destruct (Ascii.eqb_spec "`" c); [congruence|reflexivity].
Qed.







(** Texts without a code-fence marker are left as they are. *)
Lemma replace_fences_no_fence (s : jsstring) :
  has_fence s = false -> replace_fences s = s.
Proof.
  unfold replace_fences. induction s as [|c s IH]; [reflexivity|].
  cbn [has_fence]. rewrite orb_false_iff. intros [H3 Hs].
  cbn [replace_fences_from]. apply fence_at_None in H3. rewrite H3.
  f_equal. auto.
Qed.

Lemma has_fence_app (a b : jsstring) :
  has_fence (a ++ b) = false -> has_fence a = false /\ has_fence b = false.
Proof.
  induction a as [|c a IH]; [now split|].
  cbn [app has_fence]. rewrite !orb_false_iff. intros [H3 H].
  destruct (IH H) as [Ha Hb]. repeat split; auto.
  destruct (startsWith "```" (c :: a)) eqn:E; [|reflexivity].
  apply (startsWith_app_l _ _ b) in E. cbn [app] in E. congruence.
Qed.

(** The output of the global replacement starts with a backquote only if
    the input does not start with something else. *)
Lemma replace_fences_head (c : ascii) (s : jsstring) :
  c <> "`"%char -> replace_fences (c :: s) = c :: replace_fences s.
Proof.
  intros H. unfold replace_fences. cbn [replace_fences_from].
  now rewrite fence_at_head.
Qed.

Lemma startsWith_bq_replace (s : jsstring) :
  startsWith "`" s = false -> startsWith "`" (replace_fences s) = false.
Proof.
  destruct s as [|c s]; [reflexivity|]. intros H.
  assert (c <> "`"%char) as Hc.
  { intros ->. sw_simpl. discriminate. }
  rewrite replace_fences_head by assumption. exact H.
Qed.

(** The global replacement leaves no code-fence marker behind: what it
    keeps never joins into a new marker. *)
Lemma has_fence_replace_from (s : jsstring) (k : nat) :
  has_fence (replace_fences_from k s) = false.
Proof.
  revert k; induction s as [|c s IH]; intros k; [reflexivity|].
  cbn [replace_fences_from]. destruct k as [|k]; [|apply IH].
  destruct (fence_at (c :: s)) as [n|] eqn:E.
  - destruct n as [|n]; [|apply IH].
    apply fence_at_Some in E. lia.
  - cbn [has_fence]. rewrite IH, orb_false_r.
    apply fence_at_None in E.
    destruct (ascii_dec c "`") as [->|Hc].
    2:{ sw_simpl. destruct (Ascii.eqb_spec "`" c); [congruence|reflexivity]. }
    (* [c] is a backquote: the text after it does not start with two *)
    destruct s as [|d s]; [reflexivity|].
    destruct (ascii_dec d "`") as [->|Hd].
    2:{ fold (replace_fences (d :: s)). rewrite replace_fences_head by assumption.
        sw_simpl. destruct (Ascii.eqb_spec "`" d); [congruence|].
        now rewrite andb_false_r. }
    assert (Hs : startsWith "`" s = false).
    { destruct s as [|e s]; [reflexivity|]. sw_simpl.
      now rewrite !Ascii.eqb_refl, andb_true_r in *. }
    assert (E2 : fence_at ("`"%char :: s) = None).
    { apply fence_at_None. destruct s as [|e [|f s]]; sw_simpl; try reflexivity;
        rewrite andb_true_r in Hs; now rewrite Hs, ?andb_false_r. }
    cbn [replace_fences_from]. rewrite E2.
    fold (replace_fences s). apply startsWith_bq_replace in Hs.
    destruct (replace_fences s) as [|e r]; [reflexivity|].
    sw_simpl. rewrite andb_true_r in Hs. now rewrite Hs, !andb_false_r.
Qed.

Lemma has_fence_replace (s : jsstring) : has_fence (replace_fences s) = false.
Proof. apply has_fence_replace_from. Qed.

Lemma replace_fences_idem (s : jsstring) :
  replace_fences (replace_fences s) = replace_fences s.
Proof. apply replace_fences_no_fence, has_fence_replace. Qed.


(** What the global replacement does: it takes code-fence markers out of
    the text (and, by [has_fence_replace], leaves none). *)
Lemma fence_at_marker (s : jsstring) (n : nat) :
  fence_at s = Some n ->
  exists m, In m fence_markers /\ length m = n /\ s = m ++ skipn n s.
Proof.
  unfold fence_at, fence_markers.
  destruct (startsWith "```json" s) eqn:E7.
  - apply startsWith_skipn in E7. change (length (lit "```json")) with 7%nat in E7.
    destruct (startsWith [LF] (skipn 7 s)) eqn:EL; intros [= <-].
    + apply startsWith_skipn in EL. cbn [length] in EL.
      rewrite skipn_skipn in EL. cbn [Nat.add] in EL.
      exists (lit "```json" ++ [LF]). split; [now left|]. split; [reflexivity|].
      rewrite <- app_assoc, <- EL. exact E7.
    + exists (lit "```json"). split; [right; now left|]. now split.
  - destruct (startsWith "```" s) eqn:E3; intros [= <-].
    apply startsWith_skipn in E3.
    exists (lit "```"). split; [right; right; now left|]. now split.
Qed.

Lemma replace_fences_from_strips (s : jsstring) (k : nat) :
  strips (skipn k s) (replace_fences_from k s).
Proof.
  revert k; induction s as [|c s IH]; intros k.
  - rewrite skipn_nil. constructor.
  - destruct k as [|k]; [|apply IH]. cbn [skipn replace_fences_from].
    destruct (fence_at (c :: s)) as [[|n]|] eqn:E.
    + constructor. apply (IH 0%nat).
    + destruct (fence_at_marker _ _ E) as (m & Hm & _ & Es).
      rewrite Es. cbn [skipn]. apply strips_fence; [exact Hm|apply IH].
    + constructor. apply (IH 0%nat).
Qed.

Lemma replace_fences_strips (s : jsstring) : strips s (replace_fences s).
Proof. apply (replace_fences_from_strips s 0). Qed.

End FenceFacts.

(** ** ResponseSanitizer *)

Section SanitizerFacts.

Lemma first_at_split (c : ascii) (s : jsstring) (i : nat) :
  first_at c s i <-> exists a b, s = a ++ c :: b /\ ~ In c a /\ length a = i.
Proof.
  split.
  - intros [Hi Hlt].
    destruct (nth_error_split s i Hi) as (a & b & -> & Hlen).
    exists a, b; repeat split; auto.
    intros Hin. apply In_nth_error in Hin as [k Hk].
    assert (k < length a)%nat by (apply nth_error_Some; congruence).
    apply (Hlt k); [lia|]. now rewrite nth_error_app1.
  - intros (a & b & -> & Ha & <-). split.
    + now rewrite nth_error_app2, Nat.sub_diag by lia.
    + intros k Hk E. rewrite nth_error_app1 in E by assumption.
      apply Ha. eapply nth_error_In; eauto.
Qed.

Lemma last_at_split (c : ascii) (s : jsstring) (j : nat) :
  last_at c s j <-> exists a b, s = a ++ c :: b /\ ~ In c b /\ length a = j.
Proof.
  split.
  - intros [Hj Hgt].
    destruct (nth_error_split s j Hj) as (a & b & -> & Hlen).
    exists a, b; repeat split; auto.
    intros Hin. apply In_nth_error in Hin as [k Hk].
    apply (Hgt (length a + 1 + k)%nat); [lia|].
    rewrite nth_error_app2 by lia.
    replace (length a + 1 + k - length a)%nat with (S k) by lia. exact Hk.
  - intros (a & b & -> & Hb & <-). split.
    + now rewrite nth_error_app2, Nat.sub_diag by lia.
    + intros k Hk E. rewrite nth_error_app2 in E by lia.
      destruct (k - length a)%nat as [|n] eqn:En; [lia|]. cbn in E.
      apply Hb. eapply nth_error_In; eauto.
Qed.

(** Two decompositions of one text around different positions. *)
Lemma app_cons_overlap (a x y z : jsstring) (c : ascii) :
  a ++ c :: x = y ++ z -> (length a < length y)%nat ->
  exists m, y = a ++ c :: m /\ x = m ++ z.
Proof.
  revert y; induction a as [|d a IH]; intros y E Hlen.
  - destruct y as [|e y]; [simpl in Hlen; lia|].
    injection E as <- ->. now exists y.
  - destruct y as [|e y]; [simpl in Hlen; lia|].
    injection E as <- E. destruct (IH y E) as (m & -> & ->); [simpl in Hlen; lia|].
    now exists m.
Qed.

Lemma between_braces_split (a m b : jsstring) :
  ~ In "{"%char a -> ~ In "}"%char b ->
  between_braces (a ++ "{"%char :: m ++ "}"%char :: b) = "{"%char :: m ++ ["}"%char].
Proof.
  intros Ha Hb.
  set (cl := a ++ "{"%char :: m ++ "}"%char :: b).
  assert (Hs : indexOf cl "{" = Z.of_nat (length a)).
  { unfold indexOf, cl. change (lit "{") with ["{"%char].
    rewrite indexOf_from_first by assumption. lia. }
  assert (He : lastIndexOf cl "}" = Z.of_nat (length a + S (length m))).
  { unfold lastIndexOf, cl. change (lit "}") with ["}"%char].
    replace (a ++ "{"%char :: m ++ "}"%char :: b)
      with ((a ++ "{"%char :: m) ++ "}"%char :: b)
      by (rewrite <- app_assoc; reflexivity).
    rewrite lastIndexOf_from_last by (assumption || lia).
    rewrite length_app. cbn [length]. lia. }
  unfold between_braces. rewrite Hs, He.
  destruct (Z.eqb_spec (Z.of_nat (length a)) (-1)); [lia|].
  destruct (Z.eqb_spec (Z.of_nat (length a + S (length m))) (-1)); [lia|].
  destruct (Z.gtb_spec (Z.of_nat (length a + S (length m))) (Z.of_nat (length a))); [|lia].
  cbn [negb andb].
  replace cl with (a ++ ("{"%char :: m ++ ["}"%char]) ++ b)
    by (unfold cl; cbn [app]; rewrite <- app_assoc; reflexivity).
  replace (Z.of_nat (length a + S (length m)) + 1)
    with (Z.of_nat (length a + length ("{"%char :: m ++ ["}"%char])))
    by (cbn [length]; rewrite length_app; cbn [length]; lia).
  apply substring_middle.
Qed.

(** The two outcomes of the brace test. *)
Lemma between_braces_cases (cl : jsstring) :
  (exists a m b, cl = a ++ "{"%char :: m ++ "}"%char :: b /\
                 ~ In "{"%char a /\ ~ In "}"%char b /\
                 between_braces cl = "{"%char :: m ++ ["}"%char])
  \/ (~ brace_pair cl /\ between_braces cl = cl).
Proof.
  assert (Hno : forall c : ascii, ~ In c cl ->
                 forall i, nth_error cl i <> Some c).
  { intros c Hc i E. apply Hc. eapply nth_error_In; eauto. }
  destruct (in_dec ascii_dec "{"%char cl) as [Ho|Ho].
  2:{ right. split.
      - intros (i & j & _ & Hi & _). now apply (Hno _ Ho i).
      - unfold between_braces. change (lit "{") with ["{"%char].
        apply indexOf_absent_iff in Ho. now rewrite Ho. }
  destruct (in_dec ascii_dec "}"%char cl) as [Hc|Hc].
  2:{ right. split.
      - intros (i & j & _ & _ & Hj). now apply (Hno _ Hc j).
      - unfold between_braces. change (lit "}") with ["}"%char].
        apply lastIndexOf_absent_iff in Hc. rewrite Hc.
        now rewrite andb_false_r. }
  destruct (in_split_first _ _ Ho) as (a & x & Ea & Ha).
  destruct (in_split_last _ _ Hc) as (y & b & Ey & Hb).
  destruct (Nat.lt_ge_cases (length a) (length y)) as [Hlt|Hge].
  - left. rewrite Ea in Ey.
    destruct (app_cons_overlap _ _ _ _ _ Ey Hlt) as (m & -> & ->).
    exists a, m, b. repeat split; auto.
    rewrite Ea. now apply between_braces_split.
  - right. split.
    + intros (i & j & Hij & Hi & Hj).
      assert (length a <= i)%nat.
      { destruct (Nat.lt_ge_cases i (length a)); [|assumption].
        rewrite Ea, nth_error_app1 in Hi by assumption.
        exfalso. apply Ha. eapply nth_error_In; eauto. }
      assert (j <= length y)%nat.
      { destruct (Nat.lt_ge_cases (length y) j); [|assumption].
        rewrite Ey, nth_error_app2 in Hj by lia.
        destruct (j - length y)%nat as [|n] eqn:En; [lia|]. cbn in Hj.
        exfalso. apply Hb. eapply nth_error_In; eauto. }
      lia.
    + assert (Hs : indexOf cl "{" = Z.of_nat (length a)).
      { unfold indexOf. change (lit "{") with ["{"%char].
        rewrite Ea, indexOf_from_first by assumption. lia. }
      assert (He : lastIndexOf cl "}" = Z.of_nat (length y)).
      { unfold lastIndexOf. change (lit "}") with ["}"%char].
        rewrite Ey, lastIndexOf_from_last by (assumption || lia). lia. }
      unfold between_braces. rewrite Hs, He.
      destruct (Z.gtb_spec (Z.of_nat (length y)) (Z.of_nat (length a))); [lia|].
      now rewrite andb_false_r.
Qed.

Lemma cleanJsonResponse_nonempty (t : jsstring) :
  t <> [] ->
  cleanJsonResponse (Some t) = between_braces (trim (replace_fences t)).
Proof. destruct t; [congruence|reflexivity]. Qed.

Lemma slice_incl_split (a m b : jsstring) (c d : ascii) :
  slice_incl (a ++ c :: m ++ d :: b) (length a) (length a + S (length m))
  = c :: m ++ [d].
Proof.
  unfold slice_incl. rewrite skipn_app, skipn_all, Nat.sub_diag. cbn [app skipn].
  replace (length a + S (length m) - length a + 1)%nat with (S (length m + 1)) by lia.
  cbn [firstn]. f_equal.
  rewrite firstn_app.
  replace (length m + 1 - length m)%nat with 1%nat by lia.
  rewrite firstn_all2 by lia. reflexivity.
Qed.




(** The regular expression of the stock card. *)






End SanitizerFacts.

(** ** Claims on the sanitizer *)

Import Samples.

(** C3. [cleanJsonResponse] is a total function ([None] standing for
    [undefined]): on the empty and on the undefined input it returns the
    literal [{}]; otherwise, with [cleaned] the input without its code-fence
    markers and trimmed, if [cleaned] has an opening brace with a closing
    brace strictly after it then the result is the inclusive substring of
    [cleaned] from its first opening to its last closing brace, and if not
    the result is [cleaned] itself. *)
Theorem cleanJsonResponse_spec :
  cleanJsonResponse None = "{}" /\
  cleanJsonResponse (Some []) = "{}" /\
  forall t : jsstring, t <> [] ->
    let cleaned := trim (replace_fences t) in
    stripped_and_trimmed t cleaned /\
    (brace_pair cleaned ->
       exists i j, first_at "{" cleaned i /\ last_at "}" cleaned j /\ (i < j)%nat /\
                   cleanJsonResponse (Some t) = slice_incl cleaned i j) /\
    (~ brace_pair cleaned -> cleanJsonResponse (Some t) = cleaned).
Proof.
  split; [reflexivity|]. split; [reflexivity|].
  intros t Ht cleaned. rewrite cleanJsonResponse_nonempty by assumption.
  fold cleaned. split.
  { destruct (trim_spec (replace_fences t)) as ((u & v & E & Wu & Wv) & Hs & He).
    exists (replace_fences t), u, v.
    split; [apply replace_fences_strips|]. split; [apply has_fence_replace|].
    repeat split; assumption. }
  destruct (between_braces_cases cleaned)
    as [(a & m & b & E & Ha & Hb & R)|[Hn R]]; split.
  - intros _. exists (length a), (length a + S (length m))%nat.
    split; [apply first_at_split; now exists a, (m ++ "}"%char :: b)|].
    split.
    { apply last_at_split. exists (a ++ "{"%char :: m), b.
      rewrite <- app_assoc, length_app. cbn [app length]. auto. }
    split; [lia|].
    rewrite R. rewrite E at 1. symmetry; apply slice_incl_split.
  - intros Hn. exfalso. apply Hn.
    exists (length a), (length a + S (length m))%nat. split; [lia|].
    rewrite E. split.
    + now rewrite nth_error_app2, Nat.sub_diag by lia.
    + rewrite nth_error_app2 by lia.
      replace (length a + S (length m) - length a)%nat with (S (length m)) by lia.
      cbn [nth_error]. now rewrite nth_error_app2, Nat.sub_diag by lia.
  - intros H; contradiction.
  - intros _; exact R.
Qed.

(** On [fenced_reply] the object between the fences is returned; a text
    without braces is returned trimmed. *)
Lemma cleanJsonResponse_spec_witness :
  (fenced_reply <> [] /\
   brace_pair (trim (replace_fences fenced_reply)) /\
   exists i j,
     first_at "{" (trim (replace_fences fenced_reply)) i /\
     last_at "}" (trim (replace_fences fenced_reply)) j /\ (i < j)%nat /\
     cleanJsonResponse (Some fenced_reply)
     = slice_incl (trim (replace_fences fenced_reply)) i j) /\
  cleanJsonResponse (Some (lit " no object here ")) = "no object here".
Proof.
  assert (Hne : fenced_reply <> []) by discriminate.
  assert (Hb : brace_pair (trim (replace_fences fenced_reply))).
  { exists 0%nat, 15%nat. split; [lia|]. split; reflexivity. }
  destruct cleanJsonResponse_spec as (_ & _ & H).
  split.
  - split; [exact Hne|]. split; [exact Hb|].
    exact (proj1 (proj2 (H fenced_reply Hne)) Hb).
  - refine (proj2 (proj2 (H (lit " no object here ") ltac:(discriminate))) _).
    intros (i & j & _ & Hi & _).
    do 14 (destruct i as [|i]; [discriminate Hi|]). destruct i; discriminate Hi.
Defined.




(** C10, as stated, fails: a text of white space only is cleaned to the
    empty string, which the guard on falsy input then turns into [{}]. *)
Lemma cleanJsonResponse_not_idempotent :
  ~ (forall s : jsstring,
       cleanJsonResponse (Some (cleanJsonResponse (Some s)))
       = cleanJsonResponse (Some s)).
Proof.
  intros H. specialize (H (lit " ")). vm_compute in H. discriminate.
Qed.

(** C10, amended.  [cleanJsonResponse] is idempotent on every input whose
    cleaned text is not empty; when the cleaned text is empty a second
    application returns [{}]. *)
Theorem cleanJsonResponse_idempotent (text : option jsstring) :
  (cleanJsonResponse text <> [] ->
   cleanJsonResponse (Some (cleanJsonResponse text)) = cleanJsonResponse text) /\
  (cleanJsonResponse text = [] ->
   cleanJsonResponse (Some (cleanJsonResponse text)) = "{}").
Proof.
  split; [|intros ->; reflexivity].
  destruct text as [[|c t]|]; try reflexivity.
  set (s := c :: t). set (cl := trim (replace_fences s)).
  change (cleanJsonResponse (Some s)) with (between_braces cl). intros Hne.
  assert (Hf : has_fence cl = false).
  { destruct (trim_infix (replace_fences s)) as (u & v & E).
    pose proof (has_fence_replace s) as F. rewrite E in F.
    apply has_fence_app in F as [_ F]. now apply has_fence_app in F as [F _]. }
  destruct (between_braces_cases cl) as [(a & m & b & E & Ha & Hb & R)|[Hn R]].
  - rewrite R. rewrite cleanJsonResponse_nonempty by discriminate.
    assert (Hm : has_fence ("{"%char :: m ++ ["}"%char]) = false).
    { rewrite E in Hf. apply has_fence_app in Hf as [_ Hf].
      replace ("{"%char :: m ++ "}"%char :: b)
        with (("{"%char :: m ++ ["}"%char]) ++ b) in Hf
        by (cbn [app]; rewrite <- app_assoc; reflexivity).
      now apply has_fence_app in Hf as [Hf _]. }
    rewrite replace_fences_no_fence by assumption.
    pose proof (trim_between [] "{"%char m "}"%char [] eq_refl eq_refl) as T.
    cbn [app trimStart] in T. change (trimEnd []) with (@nil ascii) in T.
    rewrite T.
    exact (between_braces_split [] m [] (fun x => x) (fun x => x)).
  - rewrite R in *. rewrite cleanJsonResponse_nonempty by assumption.
    rewrite replace_fences_no_fence by assumption.
    unfold cl at 1. rewrite trim_idem. exact R.
Qed.

(** On [fenced_reply], and on a text of one space. *)
Lemma cleanJsonResponse_idempotent_witness :
  cleanJsonResponse (Some fenced_reply) <> [] /\
  cleanJsonResponse (Some (lit " ")) = [] /\
  cleanJsonResponse (Some (cleanJsonResponse (Some fenced_reply)))
  = cleanJsonResponse (Some fenced_reply) /\
  cleanJsonResponse (Some (cleanJsonResponse (Some (lit " ")))) = "{}".
Proof.
  assert (H1 : cleanJsonResponse (Some fenced_reply) <> []) by (vm_compute; discriminate).
  assert (H2 : cleanJsonResponse (Some (lit " ")) = []) by reflexivity.
  split; [exact H1|]. split; [exact H2|]. split.
  - exact (proj1 (cleanJsonResponse_idempotent (Some fenced_reply)) H1).
  - exact (proj2 (cleanJsonResponse_idempotent (Some (lit " "))) H2).
Defined.



(** ** ArtifactSynthesizer *)

Import GeminiService.

Lemma jsstring_eqb_eq (a b : jsstring) : jsstring_eqb a b = true <-> a = b.
Proof. unfold jsstring_eqb. destruct (list_eq_dec ascii_dec a b); split; congruence. Qed.

Lemma jsstring_eqb_refl (a : jsstring) : jsstring_eqb a a = true.
Proof. now apply jsstring_eqb_eq. Qed.

Lemma jsstring_eqb_neq (a b : jsstring) : a <> b -> jsstring_eqb a b = false.
Proof. unfold jsstring_eqb. destruct (list_eq_dec ascii_dec a b); congruence. Qed.

Lemma obj_get_set_same (k : jsstring) (v : json) (props : list (jsstring * json)) :
  obj_get k (obj_set k v props) = Some v.
Proof.
  induction props as [|[k' v'] r IH]; cbn [obj_set obj_get].
  - now rewrite jsstring_eqb_refl.
  - destruct (jsstring_eqb k k') eqn:E; cbn [obj_get]; rewrite ?jsstring_eqb_refl, ?E; auto.
Qed.

Lemma obj_get_set_other (k k' : jsstring) (v : json) (props : list (jsstring * json)) :
  k <> k' -> obj_get k (obj_set k' v props) = obj_get k props.
Proof.
  intros Hk. induction props as [|[k2 v2] r IH]; cbn [obj_set obj_get].
  - now rewrite jsstring_eqb_neq.
  - destruct (jsstring_eqb k' k2) eqn:E; cbn [obj_get].
    + apply jsstring_eqb_eq in E as <-. now rewrite !jsstring_eqb_neq.
    + now rewrite IH.
Qed.

Section ArtifactSynthesizer.

Variable JSON_parse : jsstring -> completion json.
Variable generateContent : GenerateContentParameters -> completion GenerateContentResponse.

Local Abbreviation discover := (discoverJsonPrompts JSON_parse generateContent).

(** A successful call went through its three stages. *)
Lemma discoverJsonPrompts_Return (query : jsstring) (artifact : json) :
  discover query = Return artifact ->
  exists searchResponse formatResponse parsed,
    generateContent (researchRequest query) = Return searchResponse /\
    generateContent (synthesisRequest query (researchText searchResponse))
    = Return formatResponse /\
    JSON_parse (cleanJsonResponse (Some (orElse (text formatResponse) "{}")))
    = Return parsed /\
    artifact =
      JObject
        (obj_set "sources"
           (JArray (map Source_to_json (final_sources (sources searchResponse))))
           (own_props parsed)).
Proof.
  unfold discoverJsonPrompts, discover_body, try_catch, bind.
  destruct (generateContent (researchRequest query)) as [sr|e] eqn:ES; [|discriminate].
  destruct (generateContent (synthesisRequest query (researchText sr))) as [fr|e] eqn:EF;
    [|discriminate].
  destruct (JSON_parse _) as [parsed|e] eqn:EP; [|discriminate].
  intros [= <-]. exists sr, fr, parsed. repeat split; assumption || reflexivity.
Qed.

Lemma final_sources_length (srcs : list Source) :
  (length srcs <= 5)%nat ->
  (1 <= length (final_sources srcs) <= 5)%nat.
Proof.
  unfold final_sources. destruct srcs as [|x srcs]; cbn [length Nat.ltb Nat.leb]; lia.
Qed.

Lemma sources_length (searchResponse : GenerateContentResponse) :
  (length (sources searchResponse) <= 5)%nat.
Proof. unfold sources. apply firstn_le_length. Qed.

End ArtifactSynthesizer.

Lemma chunk_to_source_usable (chunk : GroundingChunk) :
  negb (jsstring_eqb (uri (chunk_to_source chunk)) "#") = Vocabulary.usable chunk.
Proof.
  unfold Vocabulary.usable, chunk_to_source. cbn [uri].
  destruct (web chunk) as [w|]; [|reflexivity].
  destruct (web_uri w) as [[|c u]|]; reflexivity.
Qed.

Lemma filter_map_commute {A B : Type} (f : A -> B) (p : B -> bool) (q : A -> bool)
    (l : list A) :
  (forall a, p (f a) = q a) -> filter p (map f l) = map f (filter q l).
Proof.
  intros H. induction l as [|a l IH]; [reflexivity|]. cbn [map filter].
  rewrite H, IH. now destruct (q a).
Qed.

(** The [sources] constant in terms of the grounding chunks: the first five
    chunks that carry a URI of their own. *)
Lemma sources_usable_chunks (searchResponse : GenerateContentResponse) :
  sources searchResponse
  = map chunk_to_source
      (firstn 5 (filter Vocabulary.usable (Vocabulary.chunks_of searchResponse))).
Proof.
  unfold sources. fold (Vocabulary.chunks_of searchResponse).
  rewrite (filter_map_commute chunk_to_source _ Vocabulary.usable)
    by apply chunk_to_source_usable.
  now rewrite <- firstn_map.
Qed.

(** ** Claims on the synthesizer *)

(** C2, as stated, fails: the code copies whatever object the synthesis text
    parses to.  When the model's reply carries no text the code itself
    substitutes [{}], and the artifact returned has no [jsonPrompt]. *)
Lemma discoverJsonPrompts_prompt_may_be_absent :
  ~ (forall JSON_parse generateContent query artifact,
       discoverJsonPrompts JSON_parse generateContent query = Return artifact ->
       nonempty_string (field "jsonPrompt" artifact) /\
       nonempty_string (field "exampleJson" artifact)).
Proof.
  intros H.
  destruct (H JSONRef.JSON_parse silent_model (lit "invoice") _ eq_refl)
    as [(p & E & _) _].
  vm_compute in E. discriminate.
Qed.

(** C2, amended.  For every query on which [discoverJsonPrompts] returns,
    the artifact's [jsonPrompt] and [exampleJson] are the properties of
    these names of the object parsed from the sanitized synthesis text: they
    are present and non-empty strings exactly when that object has them
    so. *)
Theorem discoverJsonPrompts_prompt_fields
    (JSON_parse : jsstring -> completion json)
    (generateContent : GenerateContentParameters -> completion GenerateContentResponse)
    (query : jsstring) (artifact : json) :
  discoverJsonPrompts JSON_parse generateContent query = Return artifact ->
  exists searchResponse formatResponse parsed,
    generateContent (researchRequest query) = Return searchResponse /\
    generateContent (synthesisRequest query (researchText searchResponse))
    = Return formatResponse /\
    JSON_parse (cleanJsonResponse (Some (orElse (text formatResponse) "{}")))
    = Return parsed /\
    field "jsonPrompt" artifact = obj_get "jsonPrompt" (own_props parsed) /\
    field "exampleJson" artifact = obj_get "exampleJson" (own_props parsed) /\
    (nonempty_string (field "jsonPrompt" artifact) /\
     nonempty_string (field "exampleJson" artifact) <->
     nonempty_string (obj_get "jsonPrompt" (own_props parsed)) /\
     nonempty_string (obj_get "exampleJson" (own_props parsed))).
Proof.
  intros H.
  destruct (discoverJsonPrompts_Return _ _ _ _ H) as (sr & fr & parsed & ES & EF & EP & ->).
  exists sr, fr, parsed. repeat (split; [assumption|]).
  cbn [field]. rewrite !obj_get_set_other by discriminate.
  repeat split; tauto.
Qed.

(** With [grounded_model], whose synthesis has both properties. *)
Lemma discoverJsonPrompts_prompt_fields_witness :
  exists artifact,
    discoverJsonPrompts JSONRef.JSON_parse grounded_model (lit "invoice") = Return artifact /\
    field "jsonPrompt" artifact = Some (JString (lit "Generate an invoice.")) /\
    field "exampleJson" artifact = Some (JString (lit "{}")).
Proof.
  destruct (discoverJsonPrompts JSONRef.JSON_parse grounded_model (lit "invoice"))
    as [artifact|e] eqn:E; [|vm_compute in E; discriminate].
  exists artifact. split; [reflexivity|].
  destruct (discoverJsonPrompts_prompt_fields _ _ _ _ E)
    as (sr & fr & parsed & ES & EF & EP & -> & -> & _).
  vm_compute in ES. injection ES as <-.
  vm_compute in EF. injection EF as <-.
  vm_compute in EP. injection EP as <-.
  split; reflexivity.
Defined.

(** C4.  For every successful [discoverJsonPrompts] call the artifact's
    [sources] is a list of at least one and at most five entries.  When the
    research response has grounding chunks that carry a URI of their own
    (present, not empty, not the placeholder [#]), the entries are the first
    five of these chunks, in order; when it has none, the list is the single
    fallback source. *)
Theorem discoverJsonPrompts_sources
    (JSON_parse : jsstring -> completion json)
    (generateContent : GenerateContentParameters -> completion GenerateContentResponse)
    (query : jsstring) (artifact : json) :
  discoverJsonPrompts JSON_parse generateContent query = Return artifact ->
  exists searchResponse items,
    generateContent (researchRequest query) = Return searchResponse /\
    field "sources" artifact = Some (JArray items) /\
    (1 <= length items <= 5)%nat /\
    (filter Vocabulary.usable (Vocabulary.chunks_of searchResponse) <> [] ->
     items = map Source_to_json
               (map chunk_to_source
                  (firstn 5 (filter Vocabulary.usable
                               (Vocabulary.chunks_of searchResponse))))) /\
    (filter Vocabulary.usable (Vocabulary.chunks_of searchResponse) = [] ->
     items = [Source_to_json fallback_source]).
Proof.
  intros H.
  destruct (discoverJsonPrompts_Return _ _ _ _ H) as (sr & fr & parsed & ES & EF & EP & ->).
  exists sr, (map Source_to_json (final_sources (sources sr))).
  split; [assumption|]. cbn [field]. rewrite obj_get_set_same.
  split; [reflexivity|]. rewrite length_map.
  split; [apply final_sources_length, sources_length|].
  rewrite sources_usable_chunks. unfold final_sources.
  destruct (filter Vocabulary.usable (Vocabulary.chunks_of sr)) as [|x l];
    split; intros E; try congruence; reflexivity.
Qed.

(** With [grounded_model]: seven chunks with a URI of their own, five
    sources kept; with [silent_model]: no chunk, the fallback source. *)
Lemma discoverJsonPrompts_sources_witness :
  (exists artifact items,
     discoverJsonPrompts JSONRef.JSON_parse grounded_model (lit "invoice") = Return artifact /\
     field "sources" artifact = Some (JArray items) /\ length items = 5%nat) /\
  (exists artifact,
     discoverJsonPrompts JSONRef.JSON_parse silent_model (lit "invoice") = Return artifact /\
     field "sources" artifact = Some (JArray [Source_to_json fallback_source])).
Proof.
  split.
  - destruct (discoverJsonPrompts JSONRef.JSON_parse grounded_model (lit "invoice"))
      as [artifact|e] eqn:E; [|vm_compute in E; discriminate].
    destruct (discoverJsonPrompts_sources _ _ _ _ E)
      as (sr & items & ES & EI & _ & Hcited & _).
    exists artifact, items. split; [reflexivity|]. split; [exact EI|].
    vm_compute in ES. injection ES as <-.
    rewrite Hcited by (vm_compute; discriminate). reflexivity.
  - destruct (discoverJsonPrompts JSONRef.JSON_parse silent_model (lit "invoice"))
      as [artifact|e] eqn:E; [|vm_compute in E; discriminate].
    destruct (discoverJsonPrompts_sources _ _ _ _ E)
      as (sr & items & ES & EI & _ & _ & Hnone).
    exists artifact. split; [reflexivity|].
    vm_compute in ES. injection ES as <-.
    rewrite EI, Hnone by reflexivity. reflexivity.
Defined.

(** C5.  If the research call throws, or the synthesis call throws, or the
    sanitized synthesis text fails to parse, then [discoverJsonPrompts]
    throws one error, whose message is the message of the original error or,
    when that one is undefined or empty, the fallback message; nothing is
    returned. *)
Theorem discoverJsonPrompts_failure
    (JSON_parse : jsstring -> completion json)
    (generateContent : GenerateContentParameters -> completion GenerateContentResponse)
    (query : jsstring) (e : JSError) :
  generateContent (researchRequest query) = Throw e \/
  (exists searchResponse,
     generateContent (researchRequest query) = Return searchResponse /\
     generateContent (synthesisRequest query (researchText searchResponse)) = Throw e) \/
  (exists searchResponse formatResponse,
     generateContent (researchRequest query) = Return searchResponse /\
     generateContent (synthesisRequest query (researchText searchResponse))
     = Return formatResponse /\
     JSON_parse (cleanJsonResponse (Some (orElse (text formatResponse) "{}"))) = Throw e) ->
  discoverJsonPrompts JSON_parse generateContent query
  = Throw (new_Error (orElse (message e) fallback_message)) /\
  forall artifact,
    discoverJsonPrompts JSON_parse generateContent query <> Return artifact.
Proof.
  intros H.
  assert (E : discoverJsonPrompts JSON_parse generateContent query
              = Throw (new_Error (orElse (message e) fallback_message))).
  { unfold discoverJsonPrompts, discover_body, try_catch, bind.
    destruct H as [ES|[(sr & ES & EF)|(sr & fr & ES & EF & EP)]].
    - now rewrite ES.
    - now rewrite ES, EF.
    - now rewrite ES, EF, EP. }
  split; [exact E|]. intros artifact. rewrite E. discriminate.
Qed.

(** A call that fails with a message, one that fails without, and a
    synthesis that is not JSON. *)
Lemma discoverJsonPrompts_failure_witness :
  discoverJsonPrompts JSONRef.JSON_parse (failing_model (Some (lit "quota exceeded")))
    (lit "invoice")
  = Throw (new_Error "quota exceeded") /\
  discoverJsonPrompts JSONRef.JSON_parse (failing_model None) (lit "invoice")
  = Throw (new_Error fallback_message) /\
  discoverJsonPrompts JSONRef.JSON_parse rambling_model (lit "invoice")
  = Throw JSONRef.SyntaxError.
Proof.
  split; [|split].
  - refine (proj1 (discoverJsonPrompts_failure JSONRef.JSON_parse
                     (failing_model (Some (lit "quota exceeded"))) (lit "invoice")
                     {| message := Some (lit "quota exceeded") |} _)).
    left; reflexivity.
  - refine (proj1 (discoverJsonPrompts_failure JSONRef.JSON_parse
                     (failing_model None) (lit "invoice") {| message := None |} _)).
    left; reflexivity.
  - refine (proj1 (discoverJsonPrompts_failure JSONRef.JSON_parse
                     rambling_model (lit "invoice") JSONRef.SyntaxError _)).
    right; right. eexists _, _. repeat split; reflexivity.
Defined.

(** ** SchemaAuditor *)

Module ResultViewFacts.
Import ResultView.

Lemma step_keeps_derivedSchema (st : State) (ev : Event) :
  (forall response, ev <> SettleDerive (Return response)) ->
  derivedSchema (fst (step st ev)) = derivedSchema st.
Proof.
  intros H. destruct ev as [result|outcome|result|outcome|tab]; cbn [step fst].
  - unfold validate_start. now destruct (validate_request st result).
  - reflexivity.
  - unfold derive_start. now destruct (derive_request result).
  - destruct outcome as [response|e]; [now elim (H response)|reflexivity].
  - reflexivity.
Qed.

Lemma validate_request_derived (st : State) (result : SearchResult)
    (d : jsstring) (req : GenerateContentParameters) :
  derivedSchema st = Some d -> d <> [] ->
  validate_request st result = Some req ->
  exists ex, exampleJson result = Some ex /\ contents req = auditPrompt d ex.
Proof.
  intros Hd Hne. unfold validate_request. rewrite Hd.
  destruct d as [|c sch]; [congruence|]. cbn [or_undefined].
  destruct (exampleJson result) as [[|x ex]|]; try discriminate.
  intros [= <-]. now exists (x :: ex).
Qed.

Lemma validate_request_fallback (st : State) (result : SearchResult) :
  derivedSchema st = None \/ derivedSchema st = Some [] ->
  validate_request st result
  = match jsonSchema result, exampleJson result with
    | Some (c :: sch), Some (x :: ex) =>
        Some {| model := "gemini-3-flash-preview";
                contents := auditPrompt (c :: sch) (x :: ex);
                config := no_config |}
    | _, _ => None
    end.
Proof. unfold validate_request. now intros [-> | ->]. Qed.

Lemma trace_validate_derived (d : jsstring) (evs : list Event) :
  d <> [] -> no_derivation evs ->
  forall st result req,
    derivedSchema st = Some d ->
    In (ClickValidate result, Some req) (trace st evs) ->
    exists ex, exampleJson result = Some ex /\ contents req = auditPrompt d ex.
Proof.
  intros Hne. induction evs as [|ev evs IH]; intros Hno st result req Hd; [intros []|].
  cbn [trace]. intros [E|Hin].
  - injection E as -> E. cbn [step] in E.
    apply (validate_request_derived st result d req Hd Hne).
    unfold validate_start in E. now destruct (validate_request st result).
  - apply (IH (fun r H => Hno r (or_intror H)) (fst (step st ev)) result req); [|exact Hin].
    rewrite step_keeps_derivedSchema; [exact Hd|].
    intros r ->. apply (Hno r). now left.
Qed.

End ResultViewFacts.

(** C7, as stated, fails: when the derivation call succeeds with a text
    that trims to the empty string, the next validation request carries the
    artifact's own schema. *)
Lemma validate_after_blank_derivation :
  ~ (forall (st : ResultView.State) response d result req ex,
       option_map trim (text response) = Some d ->
       snd (ResultView.step (ResultView.derive_settle st (Return response))
              (ResultView.ClickValidate result)) = Some req ->
       ResultView.exampleJson result = Some ex ->
       contents req = ResultView.auditPrompt d ex).
Proof.
  intros H.
  specialize (H ResultView.initial
                {| text := Some (lit " "); groundingChunks := None |} []
                {| ResultView.jsonPrompt := None;
                   ResultView.exampleJson := Some (lit "{}");
                   ResultView.jsonSchema := Some (lit "S") |}
                _ (lit "{}") eq_refl eq_refl eq_refl).
  vm_compute in H. discriminate.
Qed.

(** C7, amended.  After a [deriveSchemaFromExample] call that succeeds with
    a text whose trimmed form [d] is not empty, every validation request
    sent before another derivation succeeds carries [d] as its schema,
    whatever schema the artifact has; when the derived text is undefined or
    trims to the empty string, validation falls back to the artifact's own
    schema. *)
Theorem validate_uses_derived_schema
    (st : ResultView.State) (response : GenerateContentResponse) :
  let st' := ResultView.derive_settle st (Return response) in
  (forall d evs result req,
      option_map trim (text response) = Some d -> d <> [] ->
      ResultView.no_derivation evs ->
      In (ResultView.ClickValidate result, Some req) (ResultView.trace st' evs) ->
      exists ex, ResultView.exampleJson result = Some ex /\
                 contents req = ResultView.auditPrompt d ex) /\
  (forall result,
      option_map trim (text response) = None \/
      option_map trim (text response) = Some [] ->
      ResultView.validate_request st' result
      = ResultView.validate_request ResultView.initial result).
Proof.
  intros st'. split.
  - intros d evs result req Hd Hne Hno Hin.
    exact (ResultViewFacts.trace_validate_derived d evs Hne Hno st' result req Hd Hin).
  - intros result H.
    rewrite (ResultViewFacts.validate_request_fallback st' result H).
    now rewrite (ResultViewFacts.validate_request_fallback ResultView.initial result)
      by (now left).
Qed.

(** A validation after the schema [{derived}] was derived for an artifact
    whose own schema is [{original}], and one after a blank derivation. *)
Lemma validate_uses_derived_schema_witness :
  (exists req,
     In (ResultView.ClickValidate audited_result, Some req)
        (ResultView.trace
           (ResultView.derive_settle ResultView.initial (Return derivation_response))
           [ResultView.SelectTab ResultView.TabJson;
            ResultView.ClickValidate audited_result]) /\
     contents req = ResultView.auditPrompt "{derived}" "{}") /\
  ResultView.validate_request
    (ResultView.derive_settle ResultView.initial
       (Return {| text := Some (lit " "); groundingChunks := None |}))
    audited_result
  = ResultView.validate_request ResultView.initial audited_result.
Proof.
  split.
  - eexists. split; [right; left; reflexivity|].
    destruct (proj1 (validate_uses_derived_schema ResultView.initial derivation_response)
                (lit "{derived}")
                [ResultView.SelectTab ResultView.TabJson;
                 ResultView.ClickValidate audited_result]
                audited_result _ eq_refl ltac:(discriminate)
                ltac:(intros r [H|[H|[]]]; discriminate)
                (or_intror (or_introl eq_refl)))
      as (ex & Hex & Hc).
    injection Hex as <-. exact Hc.
  - exact (proj2 (validate_uses_derived_schema ResultView.initial
                    {| text := Some (lit " "); groundingChunks := None |})
             audited_result (or_intror eq_refl)).
Defined.

(** ** ConversationSession *)

Module ChatWidgetFacts.
Import ChatWidget.

Lemma run_app (st : State) (evs1 evs2 : list Event) :
  run st (evs1 ++ evs2) = run (run st evs1) evs2.
Proof. apply fold_left_app. Qed.

Lemma set_last_text_snoc (t : jsstring) (ms : list Message) (m : Message) :
  set_last_text t (ms ++ [m]) = ms ++ [{| id := id m; role := role m; msg_text := t |}].
Proof.
  induction ms as [|a ms IH]; [reflexivity|].
  cbn [app set_last_text]. rewrite IH.
  destruct (ms ++ [m]) eqn:E; [now destruct ms|reflexivity].
Qed.

(** The fragments of a stream fold into the last message. *)
Lemma run_chunks (fragments : list (option jsstring)) :
  forall st ms m fullResponse,
    flight st = Streaming fullResponse ->
    messages st = ms ++ [m] ->
    let st' := run st (map Chunk fragments) in
    flight st' = Streaming (fullResponse ++ concat_fragments fragments) /\
    (fragments <> [] ->
     messages st' = ms ++ [{| id := id m; role := role m;
                              msg_text := fullResponse ++ concat_fragments fragments |}]) /\
    (fragments = [] -> messages st' = messages st) /\
    isTyping st' = isTyping st /\ input st' = input st /\
    chatInstance st' = chatInstance st /\ currentContext st' = currentContext st.
Proof.
  induction fragments as [|t fragments IH]; intros st ms m full Hf Hm.
  - cbn. rewrite app_nil_r. repeat split; auto; congruence.
  - cbn [map run fold_left]. fold (run (step st (Chunk t)) (map Chunk fragments)).
    set (st1 := step st (Chunk t)).
    assert (Hf1 : flight st1 = Streaming (full ++ orElse t [])).
    { unfold st1; cbn [step]. now rewrite Hf. }
    assert (Hm1 : messages st1
                  = ms ++ [{| id := id m; role := role m; msg_text := full ++ orElse t [] |}]).
    { unfold st1; cbn [step]. rewrite Hf. cbn [messages]. rewrite Hm.
      apply set_last_text_snoc. }
    assert (Hrest : isTyping st1 = isTyping st /\ input st1 = input st /\
                    chatInstance st1 = chatInstance st /\
                    currentContext st1 = currentContext st).
    { unfold st1; cbn [step]. rewrite Hf. cbn. auto. }
    destruct (IH st1 ms _ _ Hf1 Hm1) as (F & M & M0 & R1 & R2 & R3 & R4).
    assert (Ec : (full ++ orElse t []) ++ concat_fragments fragments
                 = full ++ concat_fragments (t :: fragments)).
    { unfold concat_fragments. cbn [map List.concat]. now rewrite app_assoc. }
    cbn zeta. rewrite <- Ec.
    destruct Hrest as (T1 & T2 & T3 & T4).
    split; [exact F|]. split.
    { intros _. destruct fragments as [|t' fragments'].
      - rewrite (M0 eq_refl), Hm1. unfold concat_fragments. cbn. now rewrite app_nil_r.
      - rewrite M by discriminate. reflexivity. }
    split; [discriminate|].
    repeat split; congruence.
Qed.

(** One message sent from rest, its stream complete: a user turn and an
    assistant turn are appended, the assistant's text being the concatenation
    of the fragments. *)
Lemma run_send (st : State) (value : jsstring) (now now' : Z)
    (fragments : list (option jsstring)) :
  isTyping st = false -> trim value <> [] ->
  let st' := run st (send value now now' fragments) in
  messages st' =
    messages st ++
    [{| id := Z_to_jsstring now; role := user; msg_text := trim value |};
     {| id := Z_to_jsstring (now' + 1); role := model_role;
        msg_text := concat_fragments fragments |}] /\
  isTyping st' = false /\ flight st' = Idle.
Proof.
  intros Ht Hv st'. unfold st', send.
  cbn [app run fold_left]. fold (run (step (step (step st (InputChange value)) (Submit now))
                                        (StreamOpened now')) (map Chunk fragments ++ [StreamDone])).
  set (st3 := step (step (step st (InputChange value)) (Submit now)) (StreamOpened now')).
  assert (H3 : flight st3 = Streaming [] /\
               messages st3 =
                 (messages st ++ [{| id := Z_to_jsstring now; role := user;
                                     msg_text := trim value |}]) ++
                 [{| id := Z_to_jsstring (now' + 1); role := model_role; msg_text := [] |}]).
  { unfold st3. cbn [step input isTyping]. rewrite Ht.
    destruct (trim value) as [|c m] eqn:E; [congruence|]. cbn. auto. }
  destruct H3 as [F3 M3].
  rewrite run_app.
  destruct (run_chunks fragments st3 _ _ _ F3 M3) as (F & M & M0 & _).
  set (st4 := run st3 (map Chunk fragments)) in *.
  cbn [run fold_left step]. rewrite F. cbn [messages isTyping flight].
  split; [|auto].
  destruct fragments as [|t fragments'].
  - rewrite (M0 eq_refl), M3, <- app_assoc. reflexivity.
  - rewrite M by discriminate. rewrite <- app_assoc. reflexivity.
Qed.

End ChatWidgetFacts.

(** C6, as stated, fails on the turn list of the session: the widget starts
    with an assistant greeting, so that after two messages it holds five
    turns, the first of them an assistant turn. *)
Lemma two_sends_five_turns :
  ~ (forall value1 value2 now1 now1' now2 now2' fragments1 fragments2,
       map ChatWidget.role
         (ChatWidget.messages
            (ChatWidget.run (ChatWidget.mount None 0)
               (ChatWidget.send value1 now1 now1' fragments1 ++
                ChatWidget.send value2 now2 now2' fragments2)))
       = [ChatWidget.user; ChatWidget.model_role; ChatWidget.user; ChatWidget.model_role]).
Proof.
  intros H.
  specialize (H (lit "hello") (lit "thanks") 10 11 20 21
                [Some (lit "Hi"); Some (lit " there")] [Some (lit "Bye")]).
  vm_compute in H. discriminate.
Qed.

(** C6, amended.  Two messages, each not blank, sent in sequence from a
    session at rest, and each stream delivered in full, append four turns to
    the turns the session already holds (initially the assistant's greeting),
    in the order user, assistant, user, assistant; the text of each
    assistant turn is the concatenation of the fragments of its stream in
    their arrival order. *)
Theorem two_sends_append_four_turns
    (st : ChatWidget.State) (value1 value2 : jsstring) (now1 now1' now2 now2' : Z)
    (fragments1 fragments2 : list (option jsstring)) :
  ChatWidget.isTyping st = false ->
  trim value1 <> [] -> trim value2 <> [] ->
  exists u1 a1 u2 a2,
    ChatWidget.messages
      (ChatWidget.run st (ChatWidget.send value1 now1 now1' fragments1 ++
                          ChatWidget.send value2 now2 now2' fragments2))
    = ChatWidget.messages st ++ [u1; a1; u2; a2] /\
    map ChatWidget.role [u1; a1; u2; a2]
    = [ChatWidget.user; ChatWidget.model_role; ChatWidget.user; ChatWidget.model_role] /\
    ChatWidget.msg_text u1 = trim value1 /\
    ChatWidget.msg_text a1 = ChatWidget.concat_fragments fragments1 /\
    ChatWidget.msg_text u2 = trim value2 /\
    ChatWidget.msg_text a2 = ChatWidget.concat_fragments fragments2.
Proof.
  intros Ht H1 H2. rewrite ChatWidgetFacts.run_app.
  destruct (ChatWidgetFacts.run_send st value1 now1 now1' fragments1 Ht H1)
    as (M1 & T1 & _).
  destruct (ChatWidgetFacts.run_send _ value2 now2 now2' fragments2 T1 H2)
    as (M2 & _ & _).
  do 4 eexists. split.
  - rewrite M2, M1, <- app_assoc. reflexivity.
  - repeat split; reflexivity.
Qed.

(** Two messages on a fresh widget: the greeting, then the four turns. *)
Lemma two_sends_append_four_turns_witness :
  map (fun m => (ChatWidget.role m, ChatWidget.msg_text m))
    (ChatWidget.messages
       (ChatWidget.run (ChatWidget.mount None 0)
          (ChatWidget.send " hello " 10 11 [Some (lit "Hi"); None; Some (lit " there")] ++
           ChatWidget.send "thanks" 20 21 [Some (lit "Bye")])))
  = [(ChatWidget.model_role, lit "Assistant active. Need help refining structural logic?");
     (ChatWidget.user, lit "hello"); (ChatWidget.model_role, lit "Hi there");
     (ChatWidget.user, lit "thanks"); (ChatWidget.model_role, lit "Bye")].
Proof.
  destruct (two_sends_append_four_turns (ChatWidget.mount None 0)
              (lit " hello ") (lit "thanks") 10 11 20 21
              [Some (lit "Hi"); None; Some (lit " there")] [Some (lit "Bye")]
              eq_refl ltac:(discriminate) ltac:(discriminate))
    as (u1 & a1 & u2 & a2 & M & R & U1 & A1 & U2 & A2).
  rewrite M. cbn [ChatWidget.mount ChatWidget.messages app map].
  injection R as R1 R2 R3 R4.
  rewrite R1, R2, R3, R4, U1, A1, U2, A2. reflexivity.
Defined.

(** ** FeedPoller *)

Module StockCardFacts.
Import StockCard.

Lemma lookup_In {A : Type} (id : nat) (a : A) (l : list (nat * A)) :
  NoDup (map fst l) -> In (id, a) l -> lookup id l = Some a.
Proof.
  induction l as [|[i b] l IH]; [intros _ []|].
  cbn [map fst lookup]. intros Hnd [E|Hin].
  - injection E as -> ->. now rewrite Nat.eqb_refl.
  - inversion Hnd as [|? ? Hni Hnd']; subst.
    destruct (Nat.eqb_spec id i) as [->|_]; [|now apply IH].
    exfalso. apply Hni. now apply (in_map fst) in Hin.
Qed.

Lemma lookup_absent {A : Type} (id : nat) (l : list (nat * A)) :
  ~ In id (map fst l) -> lookup id l = None.
Proof.
  induction l as [|[i b] l IH]; [reflexivity|]. cbn [map fst lookup In].
  intros H. destruct (Nat.eqb_spec id i) as [->|_]; [tauto|]. apply IH; tauto.
Qed.

Lemma lookup_app {A : Type} (id : nat) (l l' : list (nat * A)) :
  lookup id (l ++ l')
  = match lookup id l with Some a => Some a | None => lookup id l' end.
Proof.
  induction l as [|[i b] l IH]; [reflexivity|]. cbn [app lookup].
  now destruct (Nat.eqb id i).
Qed.

Lemma lookup_remove_other {A : Type} (i j : nat) (l : list (nat * A)) :
  i <> j -> lookup j (remove_id i l) = lookup j l.
Proof.
  intros Hij. induction l as [|[k b] l IH]; [reflexivity|]. cbn [remove_id lookup].
  destruct (Nat.eqb_spec i k) as [->|_].
  - destruct (Nat.eqb_spec j k); [congruence|exact IH].
  - cbn [lookup]. now rewrite IH.
Qed.

Lemma remove_id_In {A : Type} (id i : nat) (a : A) (l : list (nat * A)) :
  In (i, a) (remove_id id l) -> In (i, a) l.
Proof.
  induction l as [|[k b] l IH]; [intros []|]. cbn [remove_id].
  destruct (Nat.eqb id k); [intros H; right; auto|].
  intros [E|H]; [now left|right; auto].
Qed.

Lemma remove_id_fst_In {A : Type} (id i : nat) (l : list (nat * A)) :
  In i (map fst (remove_id id l)) -> In i (map fst l).
Proof.
  rewrite !in_map_iff. intros ([k a] & <- & H). exists (k, a). split; [reflexivity|].
  eapply remove_id_In; eauto.
Qed.

Lemma remove_id_NoDup {A : Type} (id : nat) (l : list (nat * A)) :
  NoDup (map fst l) -> NoDup (map fst (remove_id id l)).
Proof.
  induction l as [|[k b] l IH]; [intros H; exact H|]. cbn [map fst remove_id].
  intros Hnd. inversion Hnd as [|? ? Hni Hnd']; subst.
  destruct (Nat.eqb id k); [auto|]. cbn [map fst]. constructor; [|auto].
  intros H. apply Hni. eapply remove_id_fst_In; eauto.
Qed.

Lemma wf_fetch_start (st : State) (sym : jsstring) (isInit : bool) :
  (forall i, In i (map fst (pending st)) -> (i < nextFetch st)%nat) ->
  NoDup (map fst (pending st)) ->
  (forall i, In i (map fst (pending (fetch_start st sym isInit))) ->
             (i < nextFetch (fetch_start st sym isInit))%nat) /\
  NoDup (map fst (pending (fetch_start st sym isInit))).
Proof.
  intros Hlt Hnd. cbn [fetch_start pending nextFetch].
  rewrite map_app. cbn [map fst]. split.
  - intros i Hi. apply in_app_or in Hi as [Hi|[<-|[]]]; [apply Hlt in Hi|]; lia.
  - apply NoDup_app; [exact Hnd|repeat constructor; intros []|].
    intros i Hi [<-|[]]. apply Hlt in Hi. lia.
Qed.

Lemma clear_interval_frame (st : State) :
  pending (clear_interval st) = pending st /\
  nextFetch (clear_interval st) = nextFetch st /\
  mounted (clear_interval st) = mounted st /\
  refreshInterval (clear_interval st) = refreshInterval st /\
  activeSymbol (clear_interval st) = activeSymbol st /\
  data (clear_interval st) = data st.
Proof.
  unfold clear_interval. destruct (refreshInterval st) eqn:E; cbn; rewrite ?E; auto 10.
Qed.

Lemma clear_interval_nil (st : State) :
  intervals st = [] -> intervals (clear_interval st) = [].
Proof.
  intros H. unfold clear_interval. destruct (refreshInterval st); cbn [intervals];
    now rewrite H.
Qed.

Lemma remove_id_single {A : Type} (id : nat) (a : A) : remove_id id [(id, a)] = [].
Proof. cbn. now rewrite Nat.eqb_refl. Qed.

Lemma wf_effect (st : State) (sym : jsstring) :
  (forall i, In i (map fst (pending st)) -> (i < nextFetch st)%nat) ->
  NoDup (map fst (pending st)) ->
  mounted st = true -> activeSymbol st = sym ->
  intervals (clear_interval st) = [] ->
  wf (effect st sym).
Proof.
  intros Hlt Hnd Hm Ha Hi.
  destruct (wf_fetch_start st sym true Hlt Hnd) as [Hlt' Hnd'].
  unfold wf, effect.
  assert (Hc : intervals (clear_interval (fetch_start st sym true)) = []).
  { unfold clear_interval in *. cbn [fetch_start refreshInterval intervals] in *.
    destruct (refreshInterval st); exact Hi. }
  destruct (clear_interval_frame (fetch_start st sym true)) as (Hp & Hn & Hm' & _ & Ha' & _).
  cbn [fetch_start mounted activeSymbol] in Hm', Ha'. rewrite Hm in Hm'. rewrite Ha in Ha'.
  cbn [set_interval pending nextFetch mounted refreshInterval intervals activeSymbol].
  rewrite Hp, Hn, Hm', Hc, Ha'. repeat split; auto.
  eexists; split; reflexivity.
Qed.

Lemma wf_mount (initialSymbol : jsstring) : wf (mount initialSymbol).
Proof.
  apply wf_effect; try reflexivity; cbn; [tauto|constructor].
Qed.

Section Poller.

Variable JSON_parse : jsstring -> completion json.
Variable toUpperCase : jsstring -> jsstring.

Local Abbreviation accept := (accept JSON_parse).
Local Abbreviation settle := (settle JSON_parse).
Local Abbreviation step := (step JSON_parse toUpperCase).
Local Abbreviation run := (run JSON_parse toUpperCase).
Local Abbreviation handleSymbolSubmit := (handleSymbolSubmit toUpperCase).

Lemma settle_frame (st : State) (id : nat) (outcome : completion GenerateContentResponse) :
  pending (settle st id outcome) = remove_id id (pending st) /\
  nextFetch (settle st id outcome) = nextFetch st /\
  mounted (settle st id outcome) = mounted st /\
  intervals (settle st id outcome) = intervals st /\
  refreshInterval (settle st id outcome) = refreshInterval st /\
  activeSymbol (settle st id outcome) = activeSymbol st.
Proof.
  unfold StockCard.settle. destruct (lookup id (pending st)) eqn:E; cbn; repeat split; auto.
  clear - E. induction (pending st) as [|[k b] l IH]; [reflexivity|].
  cbn [lookup remove_id] in *. destruct (Nat.eqb id k); [discriminate|].
  now rewrite <- IH.
Qed.

Lemma wf_settle (st : State) (id : nat) (outcome : completion GenerateContentResponse) :
  wf st -> wf (settle st id outcome).
Proof.
  intros (Hlt & Hnd & Hi).
  destruct (settle_frame st id outcome) as (Ep & En & Em & Ei & Er & Ea).
  unfold wf. rewrite Ep, En, Em, Ei, Er, Ea. repeat split; auto.
  - intros i H. apply Hlt. eapply remove_id_fst_In; eauto.
  - now apply remove_id_NoDup.
Qed.

Lemma clear_interval_wf (st : State) :
  wf st -> mounted st = true -> intervals (clear_interval st) = [].
Proof.
  intros (_ & _ & Hi) Hm. rewrite Hm in Hi. destruct Hi as (id & Hr & Hi).
  unfold clear_interval. rewrite Hr. cbn [intervals]. rewrite Hi.
  apply remove_id_single.
Qed.

Lemma wf_handleSymbolSubmit (st : State) :
  wf st -> mounted st = true -> wf (handleSymbolSubmit st).
Proof.
  intros Hwf Hm. unfold StockCard.handleSymbolSubmit.
  destruct (trim (inputSymbol st)); [exact Hwf|].
  destruct (jsstring_eqb _ _); [exact Hwf|].
  destruct (jsstring_eqb _ _); [exact Hwf|].
  pose proof (clear_interval_wf st Hwf Hm) as Hc.
  destruct Hwf as (Hlt & Hnd & _).
  destruct (clear_interval_frame st) as (Hp & Hn & Hm' & Hr & _).
  apply wf_effect; cbn [set_activeSymbol pending nextFetch mounted activeSymbol];
    rewrite ?Hp, ?Hn, ?Hm'; auto.
  apply clear_interval_nil. exact Hc.
Qed.

Lemma wf_step (st : State) (ev : Event) : wf st -> wf (step st ev).
Proof.
  intros Hwf. unfold StockCard.step.
  destruct (mounted st) eqn:Hm; cbn [negb].
  2:{ destruct ev; auto. now apply wf_settle. }
  destruct ev as [value| |id| |id outcome|].
  - destruct Hwf as (Hlt & Hnd & Hi). unfold wf. cbn. rewrite Hm in *. auto.
  - now apply wf_handleSymbolSubmit.
  - destruct (lookup id (intervals st)) as [sym|]; [|exact Hwf].
    destruct Hwf as (Hlt & Hnd & Hi).
    destruct (wf_fetch_start st sym false Hlt Hnd) as [Hlt' Hnd'].
    unfold wf. repeat split; auto.
  - destruct (_ && _); [|exact Hwf].
    destruct Hwf as (Hlt & Hnd & Hi).
    destruct (wf_fetch_start st (activeSymbol st) true Hlt Hnd) as [Hlt' Hnd'].
    unfold wf. repeat split; auto.
  - now apply wf_settle.
  - pose proof (clear_interval_wf st Hwf Hm) as Hc.
    destruct Hwf as (Hlt & Hnd & _).
    unfold wf. cbn [pending nextFetch mounted intervals].
    destruct (clear_interval_frame st) as (-> & -> & _). auto.
Qed.

Lemma wf_run (evs : list Event) (st : State) : wf st -> wf (run st evs).
Proof.
  revert st; induction evs as [|ev evs IH]; intros st H; [exact H|].
  cbn [StockCard.run fold_left]. apply IH, wf_step, H.
Qed.

(** A reply that passes the checks is stored, whatever the symbol of the
    fetch that brought it. *)
Lemma settle_accepted (st : State) (id : nat) (f : Fetch)
    (response : GenerateContentResponse) (snapshot : MarketData) :
  lookup id (pending st) = Some f -> mounted st = true ->
  accept response = Return snapshot ->
  data (settle st id (Return response)) = Some snapshot.
Proof.
  intros Hl Hm Ha. unfold StockCard.settle. rewrite Hl. cbn [bind data].
  now rewrite Ha, Hm.
Qed.

(** A reply that fails them, and a failed call, leave [data] as it is. *)
Lemma settle_rejected (st : State) (id : nat)
    (outcome : completion GenerateContentResponse) (e : JSError) :
  bind outcome accept = Throw e ->
  data (settle st id outcome) = data st.
Proof.
  intros Ha. unfold StockCard.settle.
  destruct (lookup id (pending st)); [|reflexivity]. cbn [data]. now rewrite Ha.
Qed.

(** The test [!history || history.length === 0 || typeof currentPrice !==
    'number'] fails only on a numeric price and an admissible history. *)
Lemma incomplete_false (h c : option json) :
  incomplete h c = false ->
  (exists m e, c = Some (JNumber m e)) /\
  exists history, h = Some history /\ admissible_history history.
Proof.
  unfold incomplete. rewrite !orb_false_iff, negb_false_iff.
  intros [[E1 E2] E3]. split.
  - destruct c as [[| | m e | | |]|]; try discriminate. now exists m, e.
  - destruct h as [history|]; [|discriminate]. exists history. split; [reflexivity|].
    destruct history as [|b|m e|str|items|props]; cbn in E1, E2 |- *.
    + discriminate.
    + now destruct b.
    + now apply Z.eqb_neq.
    + now destruct str.
    + now destruct items.
    + intros e Heq. rewrite Heq in E2. discriminate.
Qed.

(** Only checked snapshots are accepted, hence stored. *)
Lemma accept_checked (response : GenerateContentResponse) (d : MarketData) :
  accept response = Return d -> checked d.
Proof.
  unfold StockCard.accept.
  destruct (match_braces _) as [jsonMatch|]; [|discriminate].
  destruct (JSON_parse jsonMatch) as [parsed|e]; [|discriminate]. cbn [bind].
  destruct parsed; try discriminate; cbn [get_prop bind];
    match goal with
    | |- context [incomplete ?h ?c] => destruct (incomplete h c) eqn:E; [discriminate|]
    end;
    intros [= <-]; apply incomplete_false in E; exact E.
Qed.

Lemma stored_snapshot_checked (evs : list Event) (st : State) :
  (forall d, data st = Some d -> checked d) ->
  forall d, data (run st evs) = Some d -> checked d.
Proof.
  revert st; induction evs as [|ev evs IH]; intros st H; [exact H|].
  cbn [StockCard.run fold_left]. apply IH. clear IH evs.
  assert (Hf : forall sym b d, data (fetch_start st sym b) = Some d -> checked d).
  { intros sym b d. cbn [fetch_start data]. destruct b; [discriminate|apply H]. }
  assert (Hs : forall id outcome d, data (settle st id outcome) = Some d -> checked d).
  { intros id outcome d. unfold StockCard.settle.
    destruct (lookup id (pending st)); [|apply H]. cbn [data].
    destruct (bind outcome accept) as [snapshot|e] eqn:E; [|apply H].
    destruct (mounted st); [|apply H]. intros [= <-].
    destruct outcome as [response|e]; [|discriminate].
    apply (accept_checked response). exact E. }
  intros d. unfold StockCard.step.
  destruct (mounted st); cbn [negb].
  2:{ destruct ev; try apply H. apply Hs. }
  destruct ev as [value| |id| |id outcome|]; try apply H; try apply Hs.
  - unfold StockCard.handleSymbolSubmit.
    destruct (trim (inputSymbol st)); [apply H|].
    destruct (jsstring_eqb _ _); [apply H|].
    destruct (jsstring_eqb _ _); [apply H|].
    unfold effect. cbn [set_interval data].
    destruct (clear_interval_frame
                (fetch_start (set_activeSymbol (clear_interval st)
                                (toUpperCase (inputSymbol st)))
                   (toUpperCase (inputSymbol st)) true)) as (_ & _ & _ & _ & _ & ->).
    discriminate.
  - destruct (lookup id (intervals st)); [apply Hf|apply H].
  - destruct (_ && _); [apply Hf|apply H].
  - cbn [data]. destruct (clear_interval_frame st) as (_ & _ & _ & _ & _ & ->). apply H.
Qed.

Lemma step_settle (st : State) (id : nat) (outcome : completion GenerateContentResponse) :
  step st (Settle id outcome) = settle st id outcome.
Proof. unfold StockCard.step. now destruct (mounted st). Qed.

Lemma effect_frame (st : State) (sym : jsstring) :
  intervals (clear_interval st) = [] ->
  data (effect st sym) = None /\
  pending (effect st sym)
  = pending st ++ [(nextFetch st, {| symbol := sym; isInitial := true |})] /\
  mounted (effect st sym) = mounted st /\
  intervals (effect st sym) = [(nextInterval st, sym)] /\
  activeSymbol (effect st sym) = activeSymbol st.
Proof.
  intros Hi. unfold effect.
  assert (Hc : intervals (clear_interval (fetch_start st sym true)) = []).
  { unfold clear_interval in *. cbn [fetch_start refreshInterval intervals] in *.
    destruct (refreshInterval st); exact Hi. }
  destruct (clear_interval_frame (fetch_start st sym true))
    as (Hp & Hn & Hm & Hr & Ha & Hd).
  cbn [set_interval data pending mounted intervals activeSymbol].
  rewrite Hp, Hm, Ha, Hd, Hc.
  assert (Hni : nextInterval (clear_interval (fetch_start st sym true)) = nextInterval st).
  { unfold clear_interval. cbn [fetch_start refreshInterval].
    now destruct (refreshInterval st). }
  rewrite Hni. repeat split; reflexivity.
Qed.

(** What a change of subject does at once. *)
Lemma handleSymbolSubmit_changes (st : State) :
  wf st -> mounted st = true ->
  activeSymbol (handleSymbolSubmit st) <> activeSymbol st ->
  let st1 := handleSymbolSubmit st in
  data st1 = None /\
  pending st1
  = pending st ++ [(nextFetch st, {| symbol := activeSymbol st1; isInitial := true |})] /\
  mounted st1 = true /\
  intervals st1 = [(nextInterval st, activeSymbol st1)] /\
  activeSymbol st1 = toUpperCase (inputSymbol st).
Proof.
  intros Hwf Hm. unfold StockCard.handleSymbolSubmit.
  destruct (trim (inputSymbol st)); [intros H; now elim H|].
  destruct (jsstring_eqb _ _); [intros H; now elim H|].
  destruct (jsstring_eqb _ _); [intros H; now elim H|].
  intros _. cbn zeta.
  set (sym := toUpperCase (inputSymbol st)).
  pose proof (clear_interval_wf st Hwf Hm) as Hc.
  destruct (clear_interval_frame st) as (Hp & Hn & Hm' & Hr & _).
  destruct (effect_frame (set_activeSymbol (clear_interval st) sym) sym)
    as (Ed & Ep & Em & Ei & Ea).
  { apply clear_interval_nil. exact Hc. }
  cbn [set_activeSymbol pending nextFetch mounted nextInterval activeSymbol] in *.
  rewrite Ed, Ep, Em, Ei, Ea, Hp, Hn, Hm', Hm.
  assert (Hni : nextInterval (clear_interval st) = nextInterval st).
  { unfold clear_interval. now destruct (refreshInterval st). }
  rewrite Hni. repeat split; reflexivity.
Qed.

End Poller.

End StockCardFacts.

(** ** Claims on the feed poller *)

(** C8.  A fetch whose parsed reply has no history or an empty one, or a
    current price that is not a number, is rejected: its result is an error
    and the snapshot held is left as it was. *)
Theorem fetch_incomplete_rejected
    (JSON_parse : jsstring -> completion json) (toUpperCase : jsstring -> jsstring)
    (st : StockCard.State) (id : nat) (response : GenerateContentResponse)
    (jsonMatch : jsstring) (parsed : json) :
  match_braces (orElse (text response) []) = Some jsonMatch ->
  JSON_parse jsonMatch = Return parsed ->
  (obj_get "history" (own_props parsed) = None \/
   obj_get "history" (own_props parsed) = Some (JArray []) \/
   is_number (obj_get "currentPrice" (own_props parsed)) = false) ->
  (exists e, StockCard.accept JSON_parse response = Throw e) /\
  StockCard.data
    (StockCard.step JSON_parse toUpperCase st (StockCard.Settle id (Return response)))
  = StockCard.data st.
Proof.
  intros Hm Hp H.
  assert (E : exists e, StockCard.accept JSON_parse response = Throw e).
  { unfold StockCard.accept. rewrite Hm. cbn [bind]. rewrite Hp.
    destruct parsed; try (eexists; reflexivity);
      cbn [StockCard.get_prop bind];
      match goal with
      | |- context [StockCard.incomplete ?h ?c] =>
          assert (Hi : StockCard.incomplete h c = true);
          [|rewrite Hi; eexists; reflexivity]
      end;
      unfold StockCard.incomplete;
      destruct H as [-> | [-> | ->]]; cbn; rewrite ?orb_true_r; reflexivity. }
  split; [exact E|]. destruct E as [e E].
  rewrite StockCardFacts.step_settle.
  apply (StockCardFacts.settle_rejected JSON_parse st id (Return response) e).
  exact E.
Qed.

(** The initial fetch for AAPL answered with an empty history. *)
Lemma fetch_incomplete_rejected_witness :
  StockCard.data
    (StockCard.run JSONRef.JSON_parse StockCard.ascii_toUpperCase
       (StockCard.mount "AAPL")
       [StockCard.Settle 0 (Return empty_history_reply)])
  = None.
Proof.
  refine (eq_trans
            (proj2 (fetch_incomplete_rejected JSONRef.JSON_parse
                      StockCard.ascii_toUpperCase (StockCard.mount "AAPL") 0
                      empty_history_reply
                      ("{" +++ dq +++ "currentPrice" +++ dq +++ ": 10, " +++
                       dq +++ "history" +++ dq +++ ": []}")
                      (JObject [(lit "currentPrice", JNumber 10 0);
                                (lit "history", JArray [])])
                      eq_refl eq_refl (or_intror (or_introl eq_refl))))
            eq_refl).
Defined.

(** C1, as stated, fails: nothing in [fetchMarketData] ties a reply to the
    subject it was fetched for.  Here a refresh for AAPL is outstanding when
    the subject becomes MSFT; the reply for MSFT arrives first, the late
    reply for AAPL arrives after it and is what the card then shows. *)
Lemma stale_reply_overwrites :
  ~ StockCard.stale_results_discarded JSONRef.JSON_parse StockCard.ascii_toUpperCase.
Proof.
  intros H.
  destruct (StockCard.accept JSONRef.JSON_parse (quote_reply "333"))
    as [snapOld|] eqn:EO; [|vm_compute in EO; discriminate].
  destruct (StockCard.accept JSONRef.JSON_parse (quote_reply "222"))
    as [snapNew|] eqn:EN; [|vm_compute in EN; discriminate].
  specialize (H (lit "AAPL")
                [StockCard.Settle 0 (Return (quote_reply "111"));
                 StockCard.Tick 1;
                 StockCard.InputChange "msft"]
                1%nat {| StockCard.symbol := "AAPL"; StockCard.isInitial := false |}
                (quote_reply "333") (quote_reply "222") snapOld snapNew
                eq_refl (or_introl eq_refl)
                ltac:(vm_compute; discriminate) EO EN).
  vm_compute in EO, EN. injection EO as <-. injection EN as <-.
  vm_compute in H. discriminate.
Qed.

(** C1, amended.  When the subject is changed while a fetch [i] issued
    under the old subject is outstanding, the snapshot is cleared, the armed
    interval is replaced by one for the new subject and an initial fetch for
    the new subject is issued; of the two replies, both passing the checks,
    the one that arrives last is the snapshot shown: the new subject's when
    the old reply arrives first, the old subject's when it arrives last. *)
Theorem subject_change_last_reply_wins
    (JSON_parse : jsstring -> completion json) (toUpperCase : jsstring -> jsstring)
    (initialSymbol : jsstring) (evs : list StockCard.Event)
    (i : nat) (f : StockCard.Fetch)
    (rOld rNew : GenerateContentResponse) (snapOld snapNew : StockCard.MarketData) :
  let st := StockCard.run JSON_parse toUpperCase (StockCard.mount initialSymbol) evs in
  let st1 := StockCard.step JSON_parse toUpperCase st StockCard.SymbolSubmit in
  let j := StockCard.nextFetch st in
  StockCard.mounted st = true -> In (i, f) (StockCard.pending st) ->
  StockCard.activeSymbol st1 <> StockCard.activeSymbol st ->
  StockCard.accept JSON_parse rOld = Return snapOld ->
  StockCard.accept JSON_parse rNew = Return snapNew ->
  (StockCard.data st1 = None /\
   StockCard.intervals st1 = [(StockCard.nextInterval st, StockCard.activeSymbol st1)] /\
   StockCard.lookup i (StockCard.pending st1) = Some f /\
   StockCard.lookup j (StockCard.pending st1)
   = Some {| StockCard.symbol := StockCard.activeSymbol st1;
             StockCard.isInitial := true |}) /\
  StockCard.data
    (StockCard.run JSON_parse toUpperCase st1
       [StockCard.Settle i (Return rOld); StockCard.Settle j (Return rNew)])
  = Some snapNew /\
  StockCard.data
    (StockCard.run JSON_parse toUpperCase st1
       [StockCard.Settle j (Return rNew); StockCard.Settle i (Return rOld)])
  = Some snapOld.
Proof.
  intros st st1 j Hm Hin Hch Hold Hnew.
  assert (Hwf : StockCard.wf st)
    by apply StockCardFacts.wf_run, StockCardFacts.wf_mount.
  assert (E1 : st1 = StockCard.handleSymbolSubmit toUpperCase st).
  { unfold st1, StockCard.step. now rewrite Hm. }
  rewrite E1 in Hch.
  destruct (StockCardFacts.handleSymbolSubmit_changes toUpperCase st Hwf Hm Hch)
    as (Hd & Hp & Hm1 & Hi & Ha).
  rewrite <- E1 in *.
  destruct Hwf as (Hlt & Hnd & _).
  assert (Hij : i <> j).
  { assert (i < j)%nat; [|lia]. apply Hlt. now apply (in_map fst) in Hin. }
  assert (Li : StockCard.lookup i (StockCard.pending st1) = Some f).
  { rewrite Hp, StockCardFacts.lookup_app.
    now rewrite (StockCardFacts.lookup_In i f _ Hnd Hin). }
  assert (Lj : StockCard.lookup j (StockCard.pending st1)
               = Some {| StockCard.symbol := StockCard.activeSymbol st1;
                         StockCard.isInitial := true |}).
  { rewrite Hp, StockCardFacts.lookup_app.
    rewrite StockCardFacts.lookup_absent.
    - cbn [StockCard.lookup]. fold j. now rewrite Nat.eqb_refl.
    - intros H. apply Hlt in H. fold j in H. lia. }
  split; [repeat split; assumption|].
  cbn [StockCard.run fold_left]. rewrite !StockCardFacts.step_settle.
  split.
  - destruct (StockCardFacts.settle_frame JSON_parse st1 i (Return rOld))
      as (Ep & _ & Em & _).
    eapply StockCardFacts.settle_accepted; [|congruence|exact Hnew].
    rewrite Ep, StockCardFacts.lookup_remove_other by assumption. exact Lj.
  - destruct (StockCardFacts.settle_frame JSON_parse st1 j (Return rNew))
      as (Ep & _ & Em & _).
    eapply StockCardFacts.settle_accepted; [|congruence|exact Hold].
    rewrite Ep, StockCardFacts.lookup_remove_other by congruence. exact Li.
Qed.

(** AAPL to MSFT with a refresh for AAPL outstanding, in both orders of
    arrival. *)
Lemma subject_change_last_reply_wins_witness :
  let st := StockCard.run JSONRef.JSON_parse StockCard.ascii_toUpperCase
              (StockCard.mount "AAPL")
              [StockCard.Settle 0 (Return (quote_reply "111"));
               StockCard.Tick 1;
               StockCard.InputChange "msft"] in
  let st1 := StockCard.step JSONRef.JSON_parse StockCard.ascii_toUpperCase st
               StockCard.SymbolSubmit in
  exists snapOld snapNew,
    StockCard.accept JSONRef.JSON_parse (quote_reply "333") = Return snapOld /\
    StockCard.accept JSONRef.JSON_parse (quote_reply "222") = Return snapNew /\
    StockCard.activeSymbol st1 = lit "MSFT" /\
    StockCard.data st1 = None /\
    StockCard.data
      (StockCard.run JSONRef.JSON_parse StockCard.ascii_toUpperCase st1
         [StockCard.Settle 1 (Return (quote_reply "333"));
          StockCard.Settle 2 (Return (quote_reply "222"))])
    = Some snapNew /\
    StockCard.data
      (StockCard.run JSONRef.JSON_parse StockCard.ascii_toUpperCase st1
         [StockCard.Settle 2 (Return (quote_reply "222"));
          StockCard.Settle 1 (Return (quote_reply "333"))])
    = Some snapOld.
Proof.
  intros st st1.
  destruct (StockCard.accept JSONRef.JSON_parse (quote_reply "333"))
    as [snapOld|] eqn:EO; [|vm_compute in EO; discriminate].
  destruct (StockCard.accept JSONRef.JSON_parse (quote_reply "222"))
    as [snapNew|] eqn:EN; [|vm_compute in EN; discriminate].
  exists snapOld, snapNew.
  destruct (subject_change_last_reply_wins JSONRef.JSON_parse StockCard.ascii_toUpperCase
              (lit "AAPL")
              [StockCard.Settle 0 (Return (quote_reply "111"));
               StockCard.Tick 1;
               StockCard.InputChange "msft"]
              1%nat {| StockCard.symbol := "AAPL"; StockCard.isInitial := false |}
              (quote_reply "333") (quote_reply "222") snapOld snapNew
              eq_refl (or_introl eq_refl)
              ltac:(vm_compute; discriminate) EO EN)
    as ((Hd & _) & Hnew & Hold).
  repeat split; try reflexivity; assumption.
Defined.

(* ################################################################# *)
(** * Further properties *)

Import Vocabulary.

(** ** The sanitizer *)

Lemma cleanJsonResponse_result (text : option jsstring) :
  cleanJsonResponse text = "{}" \/
  exists t cleaned,
    text = Some t /\ cleaned = trim (replace_fences t) /\ has_fence cleaned = false /\
    ((exists a m b, cleaned = a ++ "{"%char :: m ++ "}"%char :: b /\
                    cleanJsonResponse text = "{"%char :: m ++ ["}"%char]) \/
     cleanJsonResponse text = cleaned).
Proof.
  destruct text as [[|c t]|]; [now left|right|now left].
  set (s := c :: t). set (cl := trim (replace_fences s)).
  exists s, cl. split; [reflexivity|]. split; [reflexivity|].
  assert (Hf : has_fence cl = false).
  { destruct (trim_infix (replace_fences s)) as (u & v & E).
    pose proof (has_fence_replace s) as F. rewrite E in F.
    apply has_fence_app in F as [_ F]. now apply has_fence_app in F as [F _]. }
  split; [exact Hf|].
  change (cleanJsonResponse (Some s)) with (between_braces cl).
  destruct (between_braces_cases cl) as [(a & m & b & E & _ & _ & R)|[_ R]].
  - left. now exists a, m, b.
  - now right.
Qed.

(** Whatever the input, the text returned by [cleanJsonResponse] holds no
    code-fence marker. *)
Theorem cleanJsonResponse_no_fence (text : option jsstring) :
  has_fence (cleanJsonResponse text) = false.
Proof.
  destruct (cleanJsonResponse_result text)
    as [->|(t & cl & _ & _ & Hf & [(a & m & b & E & ->)| ->])];
    [reflexivity| |exact Hf].
  rewrite E in Hf. apply has_fence_app in Hf as [_ Hf].
  replace ("{"%char :: m ++ "}"%char :: b)
    with (("{"%char :: m ++ ["}"%char]) ++ b) in Hf
    by (cbn [app]; rewrite <- app_assoc; reflexivity).
  now apply has_fence_app in Hf as [Hf _].
Qed.

(** Whatever the input, the text returned by [cleanJsonResponse] neither
    starts nor ends with white space: trimming it changes nothing. *)
Theorem cleanJsonResponse_trimmed (text : option jsstring) :
  trim (cleanJsonResponse text) = cleanJsonResponse text.
Proof.
  destruct (cleanJsonResponse_result text)
    as [->|(t & cl & _ & Ecl & _ & [(a & m & b & _ & ->)| ->])].
  - reflexivity.
  - pose proof (trim_between [] "{"%char m "}"%char [] eq_refl eq_refl) as T.
    cbn [app trimStart] in T. exact T.
  - rewrite Ecl. apply trim_idem.
Qed.

(** ** The synthesizer *)

Lemma orElse_nonempty (o : option jsstring) (d : jsstring) :
  d <> [] -> orElse o d <> [].
Proof. intros Hd. destruct o as [[|c s]|]; cbn; congruence. Qed.

Lemma In_firstn {A : Type} (x : A) (n : nat) (l : list A) :
  In x (firstn n l) -> In x l.
Proof.
  intros H. rewrite <- (firstn_skipn n l). apply in_or_app. now left.
Qed.

(** The sources of a response are its first five usable grounding chunks,
    in the order of the response: a chunk is left out only if it has no URI
    of its own or comes after five usable ones. *)
Theorem sources_first_five_usable (searchResponse : GenerateContentResponse) :
  sources searchResponse
  = map chunk_to_source (firstn 5 (filter usable (chunks_of searchResponse))) /\
  length (sources searchResponse)
  = Nat.min 5 (length (filter usable (chunks_of searchResponse))).
Proof.
  rewrite sources_usable_chunks. split; [reflexivity|].
  now rewrite length_map, length_firstn.
Qed.

(** No source taken from the grounding has the placeholder URI, an empty
    URI or an empty title. *)
Theorem sources_never_placeholder
    (searchResponse : GenerateContentResponse) (s : Source) :
  In s (sources searchResponse) ->
  uri s <> "#" /\ uri s <> [] /\ title s <> [].
Proof.
  unfold sources. intros H. apply In_firstn in H.
  apply filter_In in H as [H Hu]. apply in_map_iff in H as (chunk & <- & _).
  split; [|split].
  - intros E. rewrite E in Hu. discriminate.
  - apply orElse_nonempty. discriminate.
  - apply orElse_nonempty. discriminate.
Qed.

(** The two theorems above at [seven_chunks]. *)
Lemma sources_never_placeholder_witness :
  uri {| title := "Grounded Reference"; uri := "https://schema.org/Invoice" |} <> "#".
Proof.
  refine (proj1 (sources_never_placeholder
                   {| text := None; groundingChunks := Some Samples.seven_chunks |}
                   {| title := "Grounded Reference"; uri := "https://schema.org/Invoice" |}
                   _)).
  right; left; reflexivity.
Defined.

(** Every error thrown by [discoverJsonPrompts] carries a message that is
    not empty. *)
Theorem discoverJsonPrompts_error_message
    (JSON_parse : jsstring -> completion json)
    (generateContent : GenerateContentParameters -> completion GenerateContentResponse)
    (query : jsstring) (e : JSError) :
  discoverJsonPrompts JSON_parse generateContent query = Throw e ->
  exists m, message e = Some m /\ m <> [].
Proof.
  unfold discoverJsonPrompts, try_catch.
  destruct (discover_body JSON_parse generateContent query) as [a|err]; [discriminate|].
  intros [= <-]. eexists. split; [reflexivity|].
  apply orElse_nonempty. discriminate.
Qed.

(** With a model whose calls fail without a message. *)
Lemma discoverJsonPrompts_error_message_witness :
  exists m,
    discoverJsonPrompts JSONRef.JSON_parse (Samples.failing_model None) (lit "invoice")
    = Throw {| message := Some m |} /\ m <> [].
Proof.
  destruct (discoverJsonPrompts_error_message JSONRef.JSON_parse
              (Samples.failing_model None) (lit "invoice")
              (new_Error fallback_message) eq_refl) as (m & Hm & Hne).
  exists m. injection Hm as <-. split; [reflexivity|exact Hne].
Defined.

(** ** The application state *)

Module AppFacts.
Import App.

Lemma push_history_In (q h : jsstring) (history : list jsstring) :
  In h (push_history q history) -> h = q \/ (h <> q /\ In h history).
Proof.
  unfold push_history. intros H. apply In_firstn in H.
  destruct H as [<-|H]; [now left|]. right.
  apply filter_In in H as [H E]. split; [|exact H].
  intros ->. now rewrite jsstring_eqb_refl in E.
Qed.

Lemma NoDup_firstn {A : Type} (n : nat) (l : list A) : NoDup l -> NoDup (firstn n l).
Proof.
  intros H. rewrite <- (firstn_skipn n l) in H. now apply NoDup_app_remove_r in H.
Qed.

Lemma push_history_NoDup (q : jsstring) (history : list jsstring) :
  NoDup history -> NoDup (push_history q history).
Proof.
  intros H. unfold push_history. apply NoDup_firstn. constructor.
  - intros Hin. apply filter_In in Hin as [_ E]. now rewrite jsstring_eqb_refl in E.
  - now apply NoDup_filter.
Qed.

Lemma push_history_length (q : jsstring) (history : list jsstring) :
  (length (push_history q history) <= 10)%nat.
Proof. apply firstn_le_length. Qed.

Lemma step_history (st : AppState) (ev : Event) :
  searchHistory (step st ev) = searchHistory st \/
  searchHistory (step st ev) = [] \/
  exists q, searchHistory (step st ev) = push_history q (searchHistory st).
Proof.
  destruct ev as [q|id outcome|newId now|favId|fav|]; cbn [step].
  - unfold search_start. destruct (trim q); now left.
  - unfold search_settle. destruct (StockCard.lookup id (searches st)) as [q|]; [|now left].
    destruct outcome; [right; right; now exists q|now left].
  - destruct (results st), (isSearching st); now left.
  - destruct (results st), (isSearching st); now left.
  - destruct (results st), (isSearching st); now left.
  - right; now left.
Qed.

Lemma toggle_titles (favs : list SavedResult) (result : SearchResult)
    (newId : jsstring) (now : Z) :
  NoDup (map (fun f => title (saved f)) favs) ->
  NoDup (map (fun f => title (saved f)) (toggle_favorites favs result newId now)).
Proof.
  intros H. unfold toggle_favorites. destruct (isSaved favs result) eqn:E.
  - clear E. induction favs as [|f favs IH]; [constructor|].
    cbn [map] in H. inversion H as [|? ? Hni Hnd]; subst. cbn [filter].
    destruct (negb _); [|auto]. cbn [map]. constructor; [|auto].
    intros Hin. apply Hni. apply in_map_iff in Hin as (g & <- & Hg).
    apply filter_In in Hg as [Hg _]. now apply (in_map (fun f => title (saved f))).
  - cbn [map saved]. constructor; [|exact H].
    intros Hin. apply in_map_iff in Hin as (g & Eg & Hg).
    unfold isSaved in E.
    assert (existsb (fun f => jsstring_eqb (title (saved f)) (title result)) favs = true);
      [|congruence].
    apply existsb_exists. exists g. split; [exact Hg|]. now apply jsstring_eqb_eq.
Qed.

Lemma filter_titles (p : SavedResult -> bool) (favs : list SavedResult) :
  NoDup (map (fun f => title (saved f)) favs) ->
  NoDup (map (fun f => title (saved f)) (filter p favs)).
Proof.
  induction favs as [|f favs IH]; [intros H; exact H|].
  cbn [map]. intros H. inversion H as [|? ? Hni Hnd]; subst. cbn [filter].
  destruct (p f); [|auto]. cbn [map]. constructor; [|auto].
  intros Hin. apply Hni. apply in_map_iff in Hin as (g & <- & Hg).
  apply filter_In in Hg as [Hg _]. now apply (in_map (fun f => title (saved f))).
Qed.

End AppFacts.

(** The search history never holds a query twice nor more than ten queries,
    provided it was so when the application started (it is read from
    [localStorage]). *)
Theorem searchHistory_invariant (st : App.AppState) (evs : list App.Event) :
  NoDup (App.searchHistory st) -> (length (App.searchHistory st) <= 10)%nat ->
  NoDup (App.searchHistory (App.run st evs)) /\
  (length (App.searchHistory (App.run st evs)) <= 10)%nat.
Proof.
  revert st. induction evs as [|ev evs IH]; intros st Hnd Hlen; [now split|].
  cbn [App.run fold_left]. apply IH.
  - destruct (AppFacts.step_history st ev) as [-> | [-> | [q ->]]];
      [exact Hnd|constructor|now apply AppFacts.push_history_NoDup].
  - destruct (AppFacts.step_history st ev) as [-> | [-> | [q ->]]];
      [exact Hlen|cbn; lia|apply AppFacts.push_history_length].
Qed.

(** Three searches on a first visit, the first query searched again. *)
Lemma searchHistory_invariant_witness :
  let r := AppSamples.invoice_result in
  App.searchHistory
    (App.run App.fresh
       [App.Search "invoice"; App.SearchSettled 0 (Return r);
        App.Search "user"; App.SearchSettled 1 (Return r);
        App.Search "invoice"; App.SearchSettled 2 (Return r)])
  = [lit "invoice"; lit "user"] /\
  NoDup (App.searchHistory
           (App.run App.fresh
              [App.Search "invoice"; App.SearchSettled 0 (Return r);
               App.Search "user"; App.SearchSettled 1 (Return r);
               App.Search "invoice"; App.SearchSettled 2 (Return r)])).
Proof.
  intros r. split; [reflexivity|].
  refine (proj1 (searchHistory_invariant App.fresh _ _ _)); [constructor|cbn; lia].
Defined.

(** A search that succeeds puts its query at the head of the history,
    where it then occurs once, keeps only entries of the old history after
    it, cuts the list to ten entries, shows the result and ends the
    search. *)
Theorem search_success_history
    (st : App.AppState) (id : nat) (q : jsstring) (r : App.SearchResult) :
  StockCard.lookup id (App.searches st) = Some q ->
  let st' := App.step st (App.SearchSettled id (Return r)) in
  hd_error (App.searchHistory st') = Some q /\
  count_occ (list_eq_dec ascii_dec) (App.searchHistory st') q = 1%nat /\
  (forall h, In h (App.searchHistory st') -> h = q \/ In h (App.searchHistory st)) /\
  (length (App.searchHistory st') <= 10)%nat /\
  App.results st' = Some r /\ App.isSearching st' = false.
Proof.
  intros Hl st'. unfold st'. cbn [App.step]. unfold App.search_settle. rewrite Hl.
  cbn [App.searchHistory App.results App.isSearching].
  split; [reflexivity|].
  split; [|split; [|split; [apply AppFacts.push_history_length|now split]]].
  - unfold App.push_history. rewrite firstn_cons. cbn [count_occ].
    destruct (list_eq_dec ascii_dec q q) as [_|N]; [|congruence]. f_equal.
    apply count_occ_not_In. intros H. apply In_firstn in H.
    apply filter_In in H as [_ E]. now rewrite jsstring_eqb_refl in E.
  - intros h H. apply AppFacts.push_history_In in H as [->|[_ H]]; auto.
Qed.

Lemma search_success_history_witness :
  let r := AppSamples.invoice_result in
  let st' := App.step (App.step App.fresh (App.Search "invoice"))
               (App.SearchSettled 0 (Return r)) in
  hd_error (App.searchHistory st') = Some (lit "invoice") /\
  (length (App.searchHistory st') <= 10)%nat.
Proof.
  intros r.
  destruct (search_success_history (App.step App.fresh (App.Search "invoice"))
              0 (lit "invoice") r eq_refl) as (Hhead & _ & _ & Hlen & _).
  split; [exact Hhead|exact Hlen].
Defined.

(** A search that fails leaves the history, the favourites and the result
    shown as they were, ends the search, and sets an error text that is not
    empty: the message of the error, or the fallback text when the error has
    none. *)
Theorem search_failure
    (st : App.AppState) (id : nat) (q : jsstring) (e : JSError) :
  StockCard.lookup id (App.searches st) = Some q ->
  let st' := App.step st (App.SearchSettled id (Throw e)) in
  App.searchHistory st' = App.searchHistory st /\
  App.favorites st' = App.favorites st /\
  App.results st' = App.results st /\
  App.isSearching st' = false /\
  exists m, App.error st' = Some m /\ m <> [] /\
            (forall m', message e = Some m' -> m' <> [] -> m = m').
Proof.
  intros Hl st'. unfold st'. cbn [App.step]. unfold App.search_settle. rewrite Hl.
  cbn. repeat split; try reflexivity.
  eexists. split; [reflexivity|]. split; [apply orElse_nonempty; discriminate|].
  intros m' -> Hm. now destruct m'.
Qed.

Lemma search_failure_witness :
  App.error
    (App.step (App.step App.fresh (App.Search "invoice"))
       (App.SearchSettled 0 (Throw {| message := None |})))
  = Some App.severed_message.
Proof.
  destruct (search_failure (App.step App.fresh (App.Search "invoice")) 0
              (lit "invoice") {| message := None |} eq_refl)
    as (_ & _ & _ & _ & m & Hm & _).
  cbv zeta in Hm. rewrite Hm. cbn in Hm. injection Hm as <-. reflexivity.
Defined.

(** The error text shown after a failed [discoverJsonPrompts] is the message
    that [discoverJsonPrompts] threw: [handleSearch] needs its own fallback
    text for no error of the service. *)
Theorem search_failure_shows_service_message
    (JSON_parse : jsstring -> completion json)
    (generateContent : GenerateContentParameters -> completion GenerateContentResponse)
    (st : App.AppState) (id : nat) (q : jsstring) (e : JSError) :
  StockCard.lookup id (App.searches st) = Some q ->
  discoverJsonPrompts JSON_parse generateContent q = Throw e ->
  App.error (App.step st (App.SearchSettled id (Throw e))) = message e.
Proof.
  intros Hl He.
  destruct (discoverJsonPrompts_error_message _ _ _ _ He) as (m & Hm & Hne).
  cbn [App.step]. unfold App.search_settle. rewrite Hl. cbn [App.error].
  rewrite Hm. now destruct m.
Qed.

Lemma search_failure_shows_service_message_witness :
  App.error
    (App.step (App.step App.fresh (App.Search "invoice"))
       (App.SearchSettled 0 (Throw (new_Error fallback_message))))
  = Some fallback_message.
Proof.
  exact (search_failure_shows_service_message JSONRef.JSON_parse
           (Samples.failing_model None)
           (App.step App.fresh (App.Search "invoice")) 0 (lit "invoice")
           (new_Error fallback_message) eq_refl eq_refl).
Defined.

Lemma filter_all {A : Type} (p : A -> bool) (l : list A) :
  (forall a, In a l -> p a = true) -> filter p l = l.
Proof.
  induction l as [|a l IH]; [reflexivity|]. intros H. cbn [filter].
  rewrite (H a) by now left. f_equal. apply IH. intros b Hb. apply H. now right.
Qed.

(** Saving a result that is not among the favourites makes it saved, and
    toggling it once more gives back the favourites as they were. *)
Theorem toggle_save_round_trip
    (st : App.AppState) (r : App.SearchResult)
    (id1 id2 : jsstring) (now1 now2 : Z) :
  App.results st = Some r -> App.isSearching st = false ->
  App.isSaved (App.favorites st) r = false ->
  let st1 := App.step st (App.ToggleSave id1 now1) in
  App.favorites st1
  = {| App.saved := r; App.id := id1; App.savedAt := now1 |} :: App.favorites st /\
  App.isSaved (App.favorites st1) r = true /\
  App.favorites (App.step st1 (App.ToggleSave id2 now2)) = App.favorites st.
Proof.
  intros Hr Hs Hn st1.
  assert (E1 : App.favorites st1
               = {| App.saved := r; App.id := id1; App.savedAt := now1 |}
                 :: App.favorites st).
  { unfold st1. cbn [App.step]. rewrite Hr, Hs. cbn [App.with_favorites App.favorites].
    unfold App.toggle_favorites. now rewrite Hn. }
  assert (E2 : App.isSaved (App.favorites st1) r = true).
  { rewrite E1. unfold App.isSaved. cbn [existsb App.saved].
    now rewrite jsstring_eqb_refl. }
  split; [exact E1|]. split; [exact E2|].
  assert (Hr1 : App.results st1 = Some r /\ App.isSearching st1 = false).
  { unfold st1. cbn [App.step]. rewrite Hr, Hs. cbn. now rewrite Hr, Hs. }
  destruct Hr1 as [Hr1 Hs1].
  cbn [App.step]. rewrite Hr1, Hs1. cbn [App.with_favorites App.favorites].
  unfold App.toggle_favorites. rewrite E2, E1. cbn [filter App.saved].
  rewrite jsstring_eqb_refl. cbn [negb].
  apply filter_all. intros f Hf.
  unfold App.isSaved in Hn.
  destruct (jsstring_eqb (App.title (App.saved f)) (App.title r)) eqn:E; [|reflexivity].
  assert (existsb (fun f => jsstring_eqb (App.title (App.saved f)) (App.title r))
            (App.favorites st) = true); [|congruence].
  apply existsb_exists. now exists f.
Qed.

(** A result found on a first visit, saved and unsaved. *)
Lemma toggle_save_round_trip_witness :
  let r := AppSamples.invoice_result in
  let st := App.run App.fresh [App.Search "invoice"; App.SearchSettled 0 (Return r)] in
  App.favorites
    (App.run st [App.ToggleSave "k3x9a" 5; App.ToggleSave "p0q2z" 9])
  = [].
Proof.
  intros r st.
  exact (proj2 (proj2 (toggle_save_round_trip st r (lit "k3x9a") (lit "p0q2z") 5 9
                         eq_refl eq_refl eq_refl))).
Defined.

(** The favourites never hold two results with the same title, provided
    they did not when the application started. *)
Theorem favorites_titles_distinct (st : App.AppState) (evs : list App.Event) :
  NoDup (map (fun f => App.title (App.saved f)) (App.favorites st)) ->
  NoDup (map (fun f => App.title (App.saved f)) (App.favorites (App.run st evs))).
Proof.
  revert st. induction evs as [|ev evs IH]; intros st H; [exact H|].
  cbn [App.run fold_left]. apply IH. clear IH.
  destruct ev as [q|id outcome|newId now|favId|fav|]; cbn [App.step].
  - unfold App.search_start. now destruct (trim q).
  - unfold App.search_settle.
    destruct (StockCard.lookup id (App.searches st)); [|exact H].
    now destruct outcome.
  - destruct (App.results st) as [r|], (App.isSearching st); try exact H.
    cbn [App.with_favorites App.favorites]. now apply AppFacts.toggle_titles.
  - destruct (App.results st) as [r|], (App.isSearching st); try exact H.
    cbn [App.with_favorites App.favorites]. now apply AppFacts.filter_titles.
  - now destruct (App.results st) as [r|], (App.isSearching st).
  - exact H.
Qed.

Lemma favorites_titles_distinct_witness :
  let r := AppSamples.invoice_result in
  NoDup (map (fun f => App.title (App.saved f))
           (App.favorites
              (App.run App.fresh
                 [App.Search "invoice"; App.SearchSettled 0 (Return r);
                  App.ToggleSave "k3x9a" 5; App.Search "invoice";
                  App.SearchSettled 1 (Return r); App.ToggleSave "p0q2z" 9]))).
Proof.
  intros r. apply (favorites_titles_distinct App.fresh). constructor.
Defined.

(** A query that the search bar passes on is trimmed and not blank, and
    [handleSearch] then starts a search for it: the result shown and the
    error are cleared and the call is issued.  The bar passes nothing on
    while a search is running. *)
Theorem searchBar_starts_search
    (st : App.AppState) (input q : jsstring) :
  SearchBar.handleSubmit input (App.isSearching st) = Some q ->
  App.isSearching st = false /\ q = trim input /\ q <> [] /\ trim q = q /\
  let st' := App.step st (App.Search q) in
  App.isSearching st' = true /\ App.query st' = q /\
  App.results st' = None /\ App.error st' = None /\
  App.searches st' = App.searches st ++ [(App.nextSearch st, q)].
Proof.
  unfold SearchBar.handleSubmit.
  destruct (trim input) as [|c m] eqn:E; [discriminate|].
  destruct (App.isSearching st); [discriminate|]. intros [= <-].
  assert (T : trim (c :: m) = c :: m) by (rewrite <- E; apply trim_idem).
  split; [reflexivity|]. split; [reflexivity|]. split; [discriminate|].
  split; [exact T|].
  cbn [App.step]. unfold App.search_start. rewrite T. cbn. auto.
Qed.

Lemma searchBar_starts_search_witness :
  App.query (App.step App.fresh (App.Search "invoice")) = lit "invoice".
Proof.
  destruct (searchBar_starts_search App.fresh (lit "  invoice ") (lit "invoice") eq_refl)
    as (_ & _ & _ & _ & _ & Hq & _).
  exact Hq.
Defined.

(** ** The feed poller *)

(** In every state the stock card reaches, exactly one interval is armed
    while it is mounted, and its callback closes over the current subject;
    none is armed once it is unmounted.  A tick therefore does nothing or
    issues a refresh fetch for the current subject: no fetch is issued for a
    superseded subject. *)
Theorem one_interval_for_current_subject
    (JSON_parse : jsstring -> completion json) (toUpperCase : jsstring -> jsstring)
    (initialSymbol : jsstring) (evs : list StockCard.Event) :
  let st := StockCard.run JSON_parse toUpperCase (StockCard.mount initialSymbol) evs in
  (if StockCard.mounted st
   then exists id, StockCard.intervals st = [(id, StockCard.activeSymbol st)]
   else StockCard.intervals st = []) /\
  forall id,
    StockCard.step JSON_parse toUpperCase st (StockCard.Tick id) = st \/
    StockCard.step JSON_parse toUpperCase st (StockCard.Tick id)
    = StockCard.fetch_start st (StockCard.activeSymbol st) false.
Proof.
  intros st.
  assert (Hwf : StockCard.wf st)
    by apply StockCardFacts.wf_run, StockCardFacts.wf_mount.
  destruct Hwf as (_ & _ & Hi). split.
  - destruct (StockCard.mounted st); [|exact Hi].
    destruct Hi as (id & _ & Hi). now exists id.
  - intros id. unfold StockCard.step.
    destruct (StockCard.mounted st); cbn [negb]; [|now left].
    destruct Hi as (id0 & _ & Hi). rewrite Hi. cbn [StockCard.lookup].
    destruct (Nat.eqb id id0); [now right|now left].
Qed.

Lemma unmounted_step_shown
    (JSON_parse : jsstring -> completion json) (toUpperCase : jsstring -> jsstring)
    (st : StockCard.State) (ev : StockCard.Event) :
  StockCard.mounted st = false ->
  let st' := StockCard.step JSON_parse toUpperCase st ev in
  StockCard.mounted st' = false /\ shown st' = shown st /\
  StockCard.intervals st' = StockCard.intervals st /\
  StockCard.nextFetch st' = StockCard.nextFetch st.
Proof.
  intros Hm st'. unfold st', StockCard.step. rewrite Hm. cbn [negb].
  destruct ev; try (repeat split; assumption || reflexivity).
  unfold StockCard.settle, shown. destruct (StockCard.lookup id (StockCard.pending st));
    [|repeat split; assumption || reflexivity].
  cbn. rewrite Hm. cbn.
  destruct (bind outcome (StockCard.accept JSON_parse)); repeat split; reflexivity.
Qed.

(** Once the stock card is unmounted its interval is cleared and nothing
    that happens afterwards, late replies included, changes what it holds or
    issues a fetch. *)
Theorem unmount_is_final
    (JSON_parse : jsstring -> completion json) (toUpperCase : jsstring -> jsstring)
    (initialSymbol : jsstring) (before after : list StockCard.Event) :
  let st := StockCard.step JSON_parse toUpperCase
              (StockCard.run JSON_parse toUpperCase (StockCard.mount initialSymbol) before)
              StockCard.Unmount in
  let st' := StockCard.run JSON_parse toUpperCase st after in
  StockCard.intervals st' = [] /\ shown st' = shown st /\
  StockCard.nextFetch st' = StockCard.nextFetch st.
Proof.
  intros st st'.
  assert (Hwf : StockCard.wf st)
    by apply StockCardFacts.wf_step, StockCardFacts.wf_run, StockCardFacts.wf_mount.
  assert (Hm : StockCard.mounted st = false).
  { unfold st, StockCard.step.
    destruct (StockCard.mounted (StockCard.run _ _ _ before)) eqn:E; [reflexivity|exact E]. }
  destruct Hwf as (_ & _ & Hi). rewrite Hm in Hi.
  unfold st'. clearbody st. clear st'.
  revert st Hm Hi. induction after as [|ev after IH]; intros st Hm Hi; [now split|].
  cbn [StockCard.run fold_left].
  destruct (unmounted_step_shown JSON_parse toUpperCase st ev Hm) as (Hm' & Hs & Hi' & Hn).
  destruct (IH _ Hm' (eq_trans Hi' Hi)) as (A & B & C).
  split; [exact A|]. split; [exact (eq_trans B Hs)|exact (eq_trans C Hn)].
Qed.

Lemma tick_or_failure_step
    (JSON_parse : jsstring -> completion json) (toUpperCase : jsstring -> jsstring)
    (st : StockCard.State) (ev : StockCard.Event) :
  tick_or_failure JSON_parse ev ->
  Forall (fun p => StockCard.isInitial (snd p) = false) (StockCard.pending st) ->
  StockCard.error st = None ->
  let st' := StockCard.step JSON_parse toUpperCase st ev in
  Forall (fun p => StockCard.isInitial (snd p) = false) (StockCard.pending st') /\
  StockCard.error st' = None /\ StockCard.data st' = StockCard.data st.
Proof.
  intros Hev Hp He st'. unfold st', StockCard.step.
  assert (Hs : forall id outcome,
             (exists e, bind outcome (StockCard.accept JSON_parse) = Throw e) ->
             Forall (fun p => StockCard.isInitial (snd p) = false)
               (StockCard.pending (StockCard.settle JSON_parse st id outcome)) /\
             StockCard.error (StockCard.settle JSON_parse st id outcome) = None /\
             StockCard.data (StockCard.settle JSON_parse st id outcome) = StockCard.data st).
  { intros id outcome [e E]. unfold StockCard.settle.
    destruct (StockCard.lookup id (StockCard.pending st)) as [f|] eqn:L; [|auto].
    cbn [StockCard.pending StockCard.error StockCard.data]. rewrite E.
    assert (Hf : StockCard.isInitial f = false).
    { rewrite Forall_forall in Hp. clear - L Hp.
      induction (StockCard.pending st) as [|[k b] l IH]; [discriminate|].
      cbn [StockCard.lookup] in L. destruct (Nat.eqb id k).
      - injection L as <-. apply (Hp (k, b)). now left.
      - apply IH; [|exact L]. intros x Hx. apply Hp. now right. }
    rewrite Hf, andb_false_r. split; [|now split].
    rewrite Forall_forall in *. intros x Hx. apply Hp.
    destruct x as [k b]. eapply StockCardFacts.remove_id_In; eauto. }
  destruct (StockCard.mounted st); cbn [negb].
  - destruct ev as [value| |id| |id outcome|]; try contradiction.
    + destruct (StockCard.lookup id (StockCard.intervals st)) as [sym|]; [|auto].
      cbn [StockCard.fetch_start StockCard.pending StockCard.error StockCard.data].
      split; [|now split]. apply Forall_app. split; [exact Hp|]. now repeat constructor.
    + now apply Hs.
  - destruct ev as [value| |id| |id outcome|]; try contradiction; auto.
Qed.

(** While a snapshot is shown with no error and every outstanding fetch is
    a refresh, any number of ticks and of failed refreshes, in any order,
    leave the snapshot shown and raise no error: a failing feed is never
    reported after the initial fetch. *)
Theorem refresh_failures_are_silent
    (JSON_parse : jsstring -> completion json) (toUpperCase : jsstring -> jsstring)
    (st : StockCard.State) (evs : list StockCard.Event) :
  Forall (tick_or_failure JSON_parse) evs ->
  Forall (fun p => StockCard.isInitial (snd p) = false) (StockCard.pending st) ->
  StockCard.error st = None ->
  StockCard.data (StockCard.run JSON_parse toUpperCase st evs) = StockCard.data st /\
  StockCard.error (StockCard.run JSON_parse toUpperCase st evs) = None.
Proof.
  revert st. induction evs as [|ev evs IH]; intros st Hevs Hp He; [now split|].
  inversion Hevs as [|? ? Hev Hevs']; subst.
  cbn [StockCard.run fold_left].
  destruct (tick_or_failure_step JSON_parse toUpperCase st ev Hev Hp He) as (Hp' & He' & Hd).
  destruct (IH _ Hevs' Hp' He') as (A & B). split; [exact (eq_trans A Hd)|exact B].
Qed.

(** AAPL shown, then two ticks whose fetches fail: a call that throws and a
    reply without JSON. *)
Lemma refresh_failures_are_silent_witness :
  let st := StockCard.run JSONRef.JSON_parse StockCard.ascii_toUpperCase
              (StockCard.mount "AAPL")
              [StockCard.Settle 0 (Return (Samples.quote_reply "111"))] in
  let st' := StockCard.run JSONRef.JSON_parse StockCard.ascii_toUpperCase st
               [StockCard.Tick 1;
                StockCard.Settle 1 (Throw (new_Error "503"));
                StockCard.Tick 1;
                StockCard.Settle 2
                  (Return {| text := Some (lit "no data today"); groundingChunks := None |})] in
  StockCard.data st' = StockCard.data st /\ StockCard.data st <> None /\
  StockCard.error st' = None.
Proof.
  intros st st'.
  destruct (refresh_failures_are_silent JSONRef.JSON_parse StockCard.ascii_toUpperCase st
              [StockCard.Tick 1;
               StockCard.Settle 1 (Throw (new_Error "503"));
               StockCard.Tick 1;
               StockCard.Settle 2
                 (Return {| text := Some (lit "no data today"); groundingChunks := None |})])
    as (A & B).
  - repeat constructor; eexists; reflexivity.
  - constructor.
  - reflexivity.
  - split; [exact A|]. split; [|exact B]. vm_compute. discriminate.
Defined.

(** In every state the stock card reaches, the snapshot it shows went
    through the checks of [fetchMarketData]: its [currentPrice] is a number,
    and its [history] is present and is none of [null], [false], zero, the
    empty string, the empty array and an object whose [length] is zero. *)
Theorem shown_snapshot_checked
    (JSON_parse : jsstring -> completion json) (toUpperCase : jsstring -> jsstring)
    (initialSymbol : jsstring) (evs : list StockCard.Event) (d : StockCard.MarketData) :
  StockCard.data (StockCard.run JSON_parse toUpperCase (StockCard.mount initialSymbol) evs)
  = Some d ->
  (exists m e, obj_get "currentPrice" (StockCard.fields d) = Some (JNumber m e)) /\
  exists history,
    obj_get "history" (StockCard.fields d) = Some history /\
    match history with
    | JNull => False
    | JBool b => b = true
    | JNumber m _ => m <> 0
    | JString s => s <> []
    | JArray items => items <> []
    | JObject props => forall e, obj_get "length" props <> Some (JNumber 0 e)
    end.
Proof.
  intros H.
  exact (StockCardFacts.stored_snapshot_checked JSON_parse toUpperCase evs
           (StockCard.mount initialSymbol) (fun d' H' => ltac:(discriminate H')) d H).
Qed.

(** The snapshot shown after the first reply for AAPL: a price of 111 and a
    history of one day. *)
Lemma shown_snapshot_checked_witness :
  exists d items,
    StockCard.data
      (StockCard.run JSONRef.JSON_parse StockCard.ascii_toUpperCase (StockCard.mount "AAPL")
         [StockCard.Settle 0 (Return (Samples.quote_reply "111"))]) = Some d /\
    obj_get "currentPrice" (StockCard.fields d) = Some (JNumber 111 0) /\
    obj_get "history" (StockCard.fields d) = Some (JArray items) /\ items <> [].
Proof.
  destruct (StockCard.data
              (StockCard.run JSONRef.JSON_parse StockCard.ascii_toUpperCase
                 (StockCard.mount "AAPL")
                 [StockCard.Settle 0 (Return (Samples.quote_reply "111"))]))
    as [d|] eqn:E; [|vm_compute in E; discriminate].
  destruct (shown_snapshot_checked JSONRef.JSON_parse StockCard.ascii_toUpperCase "AAPL"
              [StockCard.Settle 0 (Return (Samples.quote_reply "111"))] d E)
    as (_ & history & Hh & Ha).
  vm_compute in E. injection E as <-.
  vm_compute in Hh. injection Hh as <-.
  eexists. eexists. split; [reflexivity|]. split; [reflexivity|].
  split; [reflexivity|exact Ha].
Defined.

(** When the initial fetch of a mounted stock card fails, whatever the
    failure, loading ends, an error with a message and a hint is shown, the
    snapshot is left as it was, and the Retry button then issues an initial
    fetch for the current subject. *)
Theorem initial_failure_offers_retry
    (JSON_parse : jsstring -> completion json) (toUpperCase : jsstring -> jsstring)
    (st : StockCard.State) (id : nat) (f : StockCard.Fetch)
    (outcome : completion GenerateContentResponse) (e : JSError) :
  StockCard.mounted st = true ->
  StockCard.lookup id (StockCard.pending st) = Some f ->
  StockCard.isInitial f = true ->
  bind outcome (StockCard.accept JSON_parse) = Throw e ->
  let st' := StockCard.step JSON_parse toUpperCase st (StockCard.Settle id outcome) in
  StockCard.isLoading st' = false /\
  StockCard.data st' = StockCard.data st /\
  (exists info, StockCard.error st' = Some info /\
                StockCard.err_message info <> [] /\ StockCard.hint info <> []) /\
  StockCard.step JSON_parse toUpperCase st' StockCard.Retry
  = StockCard.fetch_start st' (StockCard.activeSymbol st) true.
Proof.
  intros Hm Hl Hf He st'.
  assert (E : st' = StockCard.settle JSON_parse st id outcome).
  { unfold st', StockCard.step. now rewrite Hm. }
  rewrite E. unfold StockCard.settle. rewrite Hl, He, Hm, Hf.
  cbn [StockCard.isLoading StockCard.data StockCard.error andb].
  split; [reflexivity|]. split; [reflexivity|]. split.
  - eexists. split; [reflexivity|]. cbn [StockCard.describe StockCard.err_message StockCard.hint].
    split.
    + apply orElse_nonempty. discriminate.
    + destruct (includes _ "malformed"); [discriminate|].
      destruct (includes _ "empty"); discriminate.
  - unfold StockCard.step.
    cbn [StockCard.mounted StockCard.isLoading StockCard.error StockCard.activeSymbol
         negb andb orb].
    reflexivity.
Qed.

Lemma initial_failure_offers_retry_witness :
  let st := StockCard.mount "AAPL" in
  let st' := StockCard.step JSONRef.JSON_parse StockCard.ascii_toUpperCase st
               (StockCard.Settle 0 (Throw (new_Error "503"))) in
  StockCard.isLoading st' = false /\
  StockCard.data st' = StockCard.data st /\
  (exists info, StockCard.error st' = Some info /\
                StockCard.err_message info <> [] /\ StockCard.hint info <> []) /\
  StockCard.step JSONRef.JSON_parse StockCard.ascii_toUpperCase st' StockCard.Retry
  = StockCard.fetch_start st' (StockCard.activeSymbol st) true.
Proof.
  exact (initial_failure_offers_retry JSONRef.JSON_parse StockCard.ascii_toUpperCase
           (StockCard.mount "AAPL") 0 {| StockCard.symbol := "AAPL"; StockCard.isInitial := true |}
           (Throw (new_Error "503")) (new_Error "503")
           eq_refl eq_refl eq_refl eq_refl).
Defined.

(** The hint shown after a failed initial fetch names the failure: a reply
    with no brace-delimited span is reported as malformed, with the hint
    that retrying might help; a reply whose data is incomplete is reported
    as an empty dataset, with the hint that no price data was found. *)
Theorem initial_failure_hint
    (JSON_parse : jsstring -> completion json)
    (st : StockCard.State) (id : nat) (f : StockCard.Fetch)
    (response : GenerateContentResponse) :
  StockCard.mounted st = true ->
  StockCard.lookup id (StockCard.pending st) = Some f ->
  StockCard.isInitial f = true ->
  let st' := StockCard.settle JSON_parse st id (Return response) in
  (match_braces (orElse (text response) []) = None ->
   StockCard.error st'
   = Some {| StockCard.err_message := StockCard.malformed_message;
             StockCard.hint :=
               "The search engine could not structure the price data correctly. Retrying might solve this." |}) /\
  (forall jsonMatch parsed,
     match_braces (orElse (text response) []) = Some jsonMatch ->
     JSON_parse jsonMatch = Return parsed ->
     parsed <> JNull ->
      (obj_get "history" (own_props parsed) = None \/
       obj_get "history" (own_props parsed) = Some (JArray []) \/
       is_number (obj_get "currentPrice" (own_props parsed)) = false) ->
      StockCard.error st'
      = Some {| StockCard.err_message := StockCard.incomplete_message;
                StockCard.hint :=
                  "No recent historical price data was found for this symbol on the web." |}).
Proof.
  intros Hm Hl Hf st'. unfold st', StockCard.settle. rewrite Hl, Hm, Hf.
  cbn [StockCard.error andb bind]. unfold StockCard.accept. split.
  - intros ->. reflexivity.
  - intros jsonMatch parsed -> Hp. cbn [bind]. rewrite Hp.
    intros Hn H.
      destruct parsed; try congruence; cbn [StockCard.get_prop bind];
        match goal with
        | |- context [StockCard.incomplete ?h ?c] =>
            assert (Hi : StockCard.incomplete h c = true);
            [|rewrite Hi; reflexivity]
        end;
        unfold StockCard.incomplete;
        destruct H as [-> | [-> | ->]]; cbn; rewrite ?orb_true_r; reflexivity.
Qed.

(** A first reply of prose only. *)
Lemma initial_failure_hint_witness :
  let st := StockCard.mount "AAPL" in
  let prose := {| text := Some (lit "no data today"); groundingChunks := None |} in
  StockCard.error (StockCard.settle JSONRef.JSON_parse st 0 (Return prose))
  = Some {| StockCard.err_message := StockCard.malformed_message;
            StockCard.hint :=
              "The search engine could not structure the price data correctly. Retrying might solve this." |}.
Proof.
  intros st prose.
  exact (proj1 (initial_failure_hint JSONRef.JSON_parse (StockCard.mount "AAPL") 0
                  {| StockCard.symbol := "AAPL"; StockCard.isInitial := true |}
                  prose eq_refl eq_refl eq_refl) eq_refl).
Defined.

(** ** The chat assistant *)

Module ChatFacts.
Import ChatWidget.

Lemma title_test (a b : option jsstring) :
  match a, b with
  | Some x, Some y => jsstring_eqb x y
  | None, None => true
  | _, _ => false
  end = true <-> a = b.
Proof.
  destruct a as [x|], b as [y|]; try (split; [discriminate|congruence]).
  - rewrite jsstring_eqb_eq. split; congruence.
  - split; reflexivity.
Qed.

(** The widget is typing exactly while a send is in flight. *)
Lemma typing_iff_flight (st : State) (evs : list Event) :
  (isTyping st = true <-> flight st <> Idle) ->
  isTyping (run st evs) = true <-> flight (run st evs) <> Idle.
Proof.
  revert st. induction evs as [|ev evs IH]; intros st H; [exact H|].
  cbn [run fold_left]. apply IH. clear IH evs.
  destruct ev; cbn [step];
    [match goal with |- context [if ?b then _ else _] => destruct b end; exact H
    |exact H
    |destruct (trim (input st)) as [|c m]; [exact H|];
     destruct (isTyping st) eqn:T; [rewrite T; exact H|];
     cbn; split; [discriminate|reflexivity]
    |..];
    destruct (flight st) eqn:F; cbn [isTyping flight fail_send]; rewrite ?F;
    first [exact H
          |split; [discriminate|intros _; apply H; discriminate]
          |split; [discriminate|congruence]].
Qed.

Lemma set_last_text_turns (t : jsstring) (ms : list Message) :
  map (fun m => (id m, role m)) (set_last_text t ms) = map (fun m => (id m, role m)) ms.
Proof.
  induction ms as [|m ms IH]; [reflexivity|].
  destruct ms as [|m' ms']; [reflexivity|].
  change (set_last_text t (m :: m' :: ms')) with (m :: set_last_text t (m' :: ms')).
  cbn [map] in *. now rewrite IH.
Qed.

Lemma step_turns (st : State) (ev : Event) :
  keeps_context ev -> exists extra, turns (step st ev) = turns st ++ extra.
Proof.
  unfold turns.
  assert (H0 : exists extra : list (jsstring * Role),
             map (fun m => (id m, role m)) (messages st)
             = map (fun m => (id m, role m)) (messages st) ++ extra)
    by (exists []; now rewrite app_nil_r).
  destruct ev; cbn [keeps_context step]; intros Hk; try contradiction.
  - exact H0.
  - destruct (trim (input st)); [exact H0|]. destruct (isTyping st); [exact H0|].
    cbn [messages]. rewrite map_app. eexists; reflexivity.
  - destruct (flight st); try exact H0. cbn [messages]. rewrite map_app. eexists; reflexivity.
  - destruct (flight st); try exact H0. cbn [fail_send messages]. rewrite map_app.
    eexists; reflexivity.
  - destruct (flight st); try exact H0. cbn [messages]. now rewrite set_last_text_turns.
  - destruct (flight st); try exact H0. cbn [fail_send messages]. rewrite map_app.
    eexists; reflexivity.
  - destruct (flight st); exact H0.
Qed.

(** The state after a message is typed and submitted from rest and its
    stream is opened. *)
Lemma run_open (st : State) (value : jsstring) (now now' : Z) :
  isTyping st = false -> trim value <> [] ->
  let st' := run st [InputChange value; Submit now; StreamOpened now'] in
  flight st' = Streaming [] /\
  messages st' =
    (messages st ++ [{| id := Z_to_jsstring now; role := user; msg_text := trim value |}]) ++
    [{| id := Z_to_jsstring (now' + 1); role := model_role; msg_text := [] |}] /\
  isTyping st' = true /\
  chatInstance st' = Some (match chatInstance st with
                           | Some i => i
                           | None => systemInstruction_of (currentContext st)
                           end).
Proof.
  intros Ht Hv. cbn [run fold_left step input isTyping]. rewrite Ht.
  destruct (trim value) as [|c m] eqn:E; [congruence|]. cbn. auto.
Qed.

End ChatFacts.

(** At most one send is outstanding: in every state the widget reaches, it
    is typing exactly while a send is in flight, and submitting while one
    is in flight changes nothing, whatever has been typed. *)
Theorem one_send_in_flight
    (ctx : option ChatWidget.Context) (now : Z) (evs : list ChatWidget.Event) (now' : Z) :
  let st := ChatWidget.run (ChatWidget.mount ctx now) evs in
  (ChatWidget.isTyping st = true <-> ChatWidget.flight st <> ChatWidget.Idle) /\
  (ChatWidget.flight st <> ChatWidget.Idle ->
   ChatWidget.step st (ChatWidget.Submit now') = st).
Proof.
  intros st.
  assert (Hiff : ChatWidget.isTyping st = true <-> ChatWidget.flight st <> ChatWidget.Idle).
  { apply ChatFacts.typing_iff_flight. cbn. split; [discriminate|congruence]. }
  split; [exact Hiff|]. intros Hf. apply Hiff in Hf.
  cbn [ChatWidget.step]. rewrite Hf.
  now destruct (trim (ChatWidget.input st)).
Qed.

(** During a send, and at rest after its stream is complete. *)
Lemma one_send_in_flight_witness :
  let busy := ChatWidget.run (ChatWidget.mount None 0)
                [ChatWidget.InputChange "add a field"; ChatWidget.Submit 5;
                 ChatWidget.InputChange "and another"] in
  let rest := ChatWidget.run (ChatWidget.mount None 0)
                (ChatWidget.send "add a field" 5 9 [Some (lit "Done.")]) in
  (ChatWidget.isTyping busy = true /\
   ChatWidget.step busy (ChatWidget.Submit 6) = busy) /\
  ChatWidget.isTyping rest <> true.
Proof.
  intros busy rest. split.
  - destruct (one_send_in_flight None 0
                [ChatWidget.InputChange "add a field"; ChatWidget.Submit 5;
                 ChatWidget.InputChange "and another"] 6) as [Hiff Hsub].
    assert (Hf : ChatWidget.flight busy <> ChatWidget.Idle) by (vm_compute; discriminate).
    split; [apply Hiff, Hf|apply Hsub, Hf].
  - destruct (one_send_in_flight None 0
                (ChatWidget.send "add a field" 5 9 [Some (lit "Done.")]) 6) as [Hiff _].
    intros Ht. apply Hiff in Ht. apply Ht. reflexivity.
Defined.

(** While a stream is being read, the transcript holds the user turn and an
    assistant turn whose text is the concatenation of the fragments received
    so far; the widget is still typing. *)
Theorem partial_stream_shown
    (st : ChatWidget.State) (value : jsstring) (now now' : Z)
    (fragments : list (option jsstring)) :
  ChatWidget.isTyping st = false -> trim value <> [] ->
  let st' := ChatWidget.run st
               ([ChatWidget.InputChange value; ChatWidget.Submit now;
                 ChatWidget.StreamOpened now'] ++ map ChatWidget.Chunk fragments) in
  ChatWidget.messages st' =
    ChatWidget.messages st ++
    [{| ChatWidget.id := Z_to_jsstring now; ChatWidget.role := ChatWidget.user;
        ChatWidget.msg_text := trim value |};
     {| ChatWidget.id := Z_to_jsstring (now' + 1); ChatWidget.role := ChatWidget.model_role;
        ChatWidget.msg_text := ChatWidget.concat_fragments fragments |}] /\
  ChatWidget.isTyping st' = true /\
  ChatWidget.flight st' = ChatWidget.Streaming (ChatWidget.concat_fragments fragments).
Proof.
  intros Ht Hv st'. unfold st'. clear st'. rewrite ChatWidgetFacts.run_app.
  destruct (ChatFacts.run_open st value now now' Ht Hv) as (F3 & M3 & T3 & _).
  set (st3 := ChatWidget.run st [_; _; _]) in *.
  destruct (ChatWidgetFacts.run_chunks fragments st3 _ _ _ F3 M3) as (F & M & M0 & T & _).
  split; [|split; [congruence|exact F]].
  destruct fragments as [|t fragments'].
  - rewrite (M0 eq_refl), M3, <- app_assoc. reflexivity.
  - rewrite M by discriminate. rewrite <- app_assoc. reflexivity.
Qed.

Lemma partial_stream_shown_witness :
  let st' := ChatWidget.run (ChatWidget.mount None 0)
               ([ChatWidget.InputChange " add a field "; ChatWidget.Submit 5;
                 ChatWidget.StreamOpened 9] ++
                map ChatWidget.Chunk [Some (lit "Sure"); None; Some (lit ", done.")]) in
  ChatWidget.messages st' =
    [ChatWidget.greeting] ++
    [{| ChatWidget.id := Z_to_jsstring 5; ChatWidget.role := ChatWidget.user;
        ChatWidget.msg_text := trim " add a field " |};
     {| ChatWidget.id := Z_to_jsstring (9 + 1); ChatWidget.role := ChatWidget.model_role;
        ChatWidget.msg_text :=
          ChatWidget.concat_fragments [Some (lit "Sure"); None; Some (lit ", done.")] |}] /\
  ChatWidget.isTyping st' = true /\
  ChatWidget.flight st' =
    ChatWidget.Streaming
      (ChatWidget.concat_fragments [Some (lit "Sure"); None; Some (lit ", done.")]).
Proof.
  apply (partial_stream_shown (ChatWidget.mount None 0) " add a field " 5 9
           [Some (lit "Sure"); None; Some (lit ", done.")]).
  - reflexivity.
  - vm_compute. discriminate.
Defined.

(** A send that fails is reported in the transcript and ends the typing
    state, and the session is kept for the next send.  When the call is
    rejected, the failure notice follows the user turn; when the stream
    breaks off, it follows the assistant turn, which keeps the text received
    until then. *)
Theorem failed_send_reported
    (st : ChatWidget.State) (value : jsstring) (now now' : Z)
    (fragments : list (option jsstring)) :
  ChatWidget.isTyping st = false -> trim value <> [] ->
  let userTurn := {| ChatWidget.id := Z_to_jsstring now; ChatWidget.role := ChatWidget.user;
                     ChatWidget.msg_text := trim value |} in
  let rejected := ChatWidget.run st
                    [ChatWidget.InputChange value; ChatWidget.Submit now;
                     ChatWidget.StreamRejected] in
  let broken := ChatWidget.run st
                  ([ChatWidget.InputChange value; ChatWidget.Submit now;
                    ChatWidget.StreamOpened now'] ++ map ChatWidget.Chunk fragments ++
                   [ChatWidget.StreamFailed]) in
  (ChatWidget.messages rejected
   = ChatWidget.messages st ++ [userTurn; ChatWidget.failure_message] /\
   ChatWidget.isTyping rejected = false /\ ChatWidget.flight rejected = ChatWidget.Idle /\
   ChatWidget.chatInstance rejected <> None) /\
  (ChatWidget.messages broken
   = ChatWidget.messages st ++
     [userTurn;
      {| ChatWidget.id := Z_to_jsstring (now' + 1); ChatWidget.role := ChatWidget.model_role;
         ChatWidget.msg_text := ChatWidget.concat_fragments fragments |};
      ChatWidget.failure_message] /\
   ChatWidget.isTyping broken = false /\ ChatWidget.flight broken = ChatWidget.Idle /\
   ChatWidget.chatInstance broken <> None).
Proof.
  intros Ht Hv userTurn rejected broken. split.
  - unfold rejected, userTurn. cbn [ChatWidget.run fold_left ChatWidget.step
                                     ChatWidget.input ChatWidget.isTyping].
    rewrite Ht. destruct (trim value) as [|c m] eqn:E; [congruence|].
    cbn. rewrite <- app_assoc. repeat split; try reflexivity. discriminate.
  - pose proof (partial_stream_shown st value now now' fragments Ht Hv) as H.
    cbn zeta in H. destruct H as (M & T & F).
    destruct (ChatFacts.run_open st value now now' Ht Hv) as (_ & _ & _ & C3).
    assert (C : ChatWidget.chatInstance
                  (ChatWidget.run st
                     ([ChatWidget.InputChange value; ChatWidget.Submit now;
                       ChatWidget.StreamOpened now'] ++ map ChatWidget.Chunk fragments))
                <> None).
    { rewrite ChatWidgetFacts.run_app.
      destruct (ChatFacts.run_open st value now now' Ht Hv) as (F3 & M3 & _ & C3').
      destruct (ChatWidgetFacts.run_chunks fragments _ _ _ _ F3 M3)
        as (_ & _ & _ & _ & _ & C4 & _).
      rewrite C4, C3'. discriminate. }
    unfold broken. clear rejected broken. rewrite app_assoc, ChatWidgetFacts.run_app.
    set (st4 := ChatWidget.run st (_ ++ _)) in *.
    cbn [ChatWidget.run fold_left ChatWidget.step]. rewrite F.
    cbn [ChatWidget.fail_send ChatWidget.messages ChatWidget.isTyping ChatWidget.flight
         ChatWidget.chatInstance].
    rewrite M, <- app_assoc. repeat split; try reflexivity. exact C.
Qed.

Lemma failed_send_reported_witness :
  let broken := ChatWidget.run (ChatWidget.mount None 0)
                  ([ChatWidget.InputChange " add a field "; ChatWidget.Submit 5;
                    ChatWidget.StreamOpened 9] ++
                   map ChatWidget.Chunk [Some (lit "Sure")] ++ [ChatWidget.StreamFailed]) in
  ChatWidget.messages broken
  = [ChatWidget.greeting] ++
    [{| ChatWidget.id := Z_to_jsstring 5; ChatWidget.role := ChatWidget.user;
        ChatWidget.msg_text := trim " add a field " |};
     {| ChatWidget.id := Z_to_jsstring (9 + 1); ChatWidget.role := ChatWidget.model_role;
        ChatWidget.msg_text := ChatWidget.concat_fragments [Some (lit "Sure")] |};
     ChatWidget.failure_message] /\
  ChatWidget.isTyping broken = false /\ ChatWidget.flight broken = ChatWidget.Idle /\
  ChatWidget.chatInstance broken <> None.
Proof.
  apply (failed_send_reported (ChatWidget.mount None 0) " add a field " 5 9 [Some (lit "Sure")]).
  - reflexivity.
  - vm_compute. discriminate.
Defined.

(** When the context changes to a result with another title, the transcript
    is replaced by the greeting for that result and the session is dropped:
    the next message is sent through a session created with the system
    instruction of the new context. *)
Theorem title_change_resets_session
    (st : ChatWidget.State) (ctx : ChatWidget.Context) (now : Z)
    (value : jsstring) (now' : Z) :
  ChatWidget.title ctx <> ChatWidget.title_of (ChatWidget.currentContext st) ->
  ChatWidget.isTyping st = false -> trim value <> [] ->
  let st1 := ChatWidget.step st (ChatWidget.SetContext (Some ctx) now) in
  ChatWidget.messages st1 = [ChatWidget.context_greeting ctx now] /\
  ChatWidget.sent
    (ChatWidget.run st1 [ChatWidget.InputChange value; ChatWidget.Submit now'])
  = ChatWidget.sent st ++ [(ChatWidget.systemInstruction_of (Some ctx), trim value)].
Proof.
  intros Hd Ht Hv st1.
  assert (E : st1 = {| ChatWidget.currentContext := Some ctx;
                       ChatWidget.messages := [ChatWidget.context_greeting ctx now];
                       ChatWidget.input := ChatWidget.input st;
                       ChatWidget.isTyping := ChatWidget.isTyping st;
                       ChatWidget.chatInstance := None;
                       ChatWidget.sent := ChatWidget.sent st;
                       ChatWidget.flight := ChatWidget.flight st |}).
  { unfold st1. cbn [ChatWidget.step].
    match goal with |- context [if ?b then _ else _] => destruct b eqn:E end; [|reflexivity].
    apply ChatFacts.title_test in E. now elim Hd. }
  rewrite E. split; [reflexivity|].
  cbn [ChatWidget.run fold_left ChatWidget.step ChatWidget.input ChatWidget.isTyping].
  rewrite Ht. destruct (trim value) as [|c m] eqn:Ev; [congruence|]. reflexivity.
Qed.

Lemma title_change_resets_session_witness :
  let st := ChatWidget.run (ChatWidget.mount None 0)
              (ChatWidget.send "hello" 5 9 [Some (lit "Hi.")]) in
  let ctx := {| ChatWidget.title := Some (lit "Invoice");
                ChatWidget.ctx_jsonPrompt := Some (lit "Extract the invoice.") |} in
  let st1 := ChatWidget.step st (ChatWidget.SetContext (Some ctx) 20) in
  ChatWidget.messages st1 = [ChatWidget.context_greeting ctx 20] /\
  ChatWidget.sent
    (ChatWidget.run st1 [ChatWidget.InputChange "add a field"; ChatWidget.Submit 30])
  = ChatWidget.sent st ++ [(ChatWidget.systemInstruction_of (Some ctx), trim "add a field")].
Proof.
  apply (title_change_resets_session
           (ChatWidget.run (ChatWidget.mount None 0)
              (ChatWidget.send "hello" 5 9 [Some (lit "Hi.")]))
           {| ChatWidget.title := Some (lit "Invoice");
              ChatWidget.ctx_jsonPrompt := Some (lit "Extract the invoice.") |}
           20 "add a field" 30).
  - vm_compute. discriminate.
  - reflexivity.
  - vm_compute. discriminate.
Defined.

(** When the context changes to a result with the same title, transcript
    and session are kept: once a session exists, later messages still go
    through it, with the system instruction it was created with, even if
    the prompt of the result has changed. *)
Theorem same_title_keeps_session
    (st : ChatWidget.State) (ctx : option ChatWidget.Context) (now : Z)
    (instruction value : jsstring) (now' : Z) :
  ChatWidget.title_of ctx = ChatWidget.title_of (ChatWidget.currentContext st) ->
  ChatWidget.chatInstance st = Some instruction ->
  ChatWidget.isTyping st = false -> trim value <> [] ->
  let st1 := ChatWidget.step st (ChatWidget.SetContext ctx now) in
  ChatWidget.messages st1 = ChatWidget.messages st /\
  ChatWidget.sent
    (ChatWidget.run st1 [ChatWidget.InputChange value; ChatWidget.Submit now'])
  = ChatWidget.sent st ++ [(instruction, trim value)].
Proof.
  intros He Hc Ht Hv st1.
  assert (E : st1 = {| ChatWidget.currentContext := ctx;
                       ChatWidget.messages := ChatWidget.messages st;
                       ChatWidget.input := ChatWidget.input st;
                       ChatWidget.isTyping := ChatWidget.isTyping st;
                       ChatWidget.chatInstance := ChatWidget.chatInstance st;
                       ChatWidget.sent := ChatWidget.sent st;
                       ChatWidget.flight := ChatWidget.flight st |}).
  { unfold st1. cbn [ChatWidget.step].
    match goal with |- context [if ?b then _ else _] => destruct b eqn:E end; [reflexivity|].
    apply ChatFacts.title_test in He. congruence. }
  rewrite E. split; [reflexivity|].
  cbn [ChatWidget.run fold_left ChatWidget.step ChatWidget.input ChatWidget.isTyping
       ChatWidget.chatInstance].
  rewrite Ht, Hc. destruct (trim value) as [|c m] eqn:Ev; [congruence|]. reflexivity.
Qed.

Lemma same_title_keeps_session_witness :
  let old := {| ChatWidget.title := Some (lit "Invoice");
                ChatWidget.ctx_jsonPrompt := Some (lit "Extract the invoice.") |} in
  let new := {| ChatWidget.title := Some (lit "Invoice");
                ChatWidget.ctx_jsonPrompt := Some (lit "Extract every line item.") |} in
  let st := ChatWidget.run (ChatWidget.mount (Some old) 0)
              (ChatWidget.send "hello" 5 9 [Some (lit "Hi.")]) in
  let st1 := ChatWidget.step st (ChatWidget.SetContext (Some new) 20) in
  ChatWidget.messages st1 = ChatWidget.messages st /\
  ChatWidget.sent
    (ChatWidget.run st1 [ChatWidget.InputChange "add a field"; ChatWidget.Submit 30])
  = ChatWidget.sent st ++ [(ChatWidget.systemInstruction_of (Some old), trim "add a field")].
Proof.
  intros old new st st1.
  apply (same_title_keeps_session st (Some new) 20
           (ChatWidget.systemInstruction_of (Some old)) "add a field" 30).
  - reflexivity.
  - reflexivity.
  - reflexivity.
  - vm_compute. discriminate.
Defined.

(** A fragment that arrives after the context changed to a result with
    another title is written into the last turn of the transcript, which is
    then the greeting for the new result: its text becomes the response
    accumulated so far. *)
Theorem late_fragment_overwrites_greeting
    (st : ChatWidget.State) (fullResponse : jsstring) (ctx : ChatWidget.Context) (now : Z)
    (chunk_text : option jsstring) :
  ChatWidget.flight st = ChatWidget.Streaming fullResponse ->
  ChatWidget.title ctx <> ChatWidget.title_of (ChatWidget.currentContext st) ->
  ChatWidget.messages
    (ChatWidget.run st [ChatWidget.SetContext (Some ctx) now; ChatWidget.Chunk chunk_text])
  = [{| ChatWidget.id := Z_to_jsstring now; ChatWidget.role := ChatWidget.model_role;
        ChatWidget.msg_text := fullResponse +++ orElse chunk_text [] |}].
Proof.
  intros Hf Hd. cbn [ChatWidget.run fold_left]. cbn [ChatWidget.step].
  match goal with |- context [if ?b then _ else _] => destruct b eqn:E end.
  { apply ChatFacts.title_test in E. now elim Hd. }
  cbn [ChatWidget.flight ChatWidget.messages]. rewrite Hf. reflexivity.
Qed.

Lemma late_fragment_overwrites_greeting_witness :
  let st := ChatWidget.run (ChatWidget.mount None 0)
              [ChatWidget.InputChange "hello"; ChatWidget.Submit 5;
               ChatWidget.StreamOpened 9; ChatWidget.Chunk (Some (lit "Hi"))] in
  let ctx := {| ChatWidget.title := Some (lit "Invoice");
                ChatWidget.ctx_jsonPrompt := Some (lit "Extract the invoice.") |} in
  ChatWidget.messages
    (ChatWidget.run st [ChatWidget.SetContext (Some ctx) 20;
                        ChatWidget.Chunk (Some (lit " there."))])
  = [{| ChatWidget.id := Z_to_jsstring 20; ChatWidget.role := ChatWidget.model_role;
        ChatWidget.msg_text := "Hi" +++ orElse (Some (lit " there.")) [] |}].
Proof.
  intros st ctx.
  apply (late_fragment_overwrites_greeting st "Hi" ctx 20 (Some (lit " there."))).
  - reflexivity.
  - vm_compute. discriminate.
Defined.

(** Apart from a change of context, nothing removes or reorders turns: the
    turns of the transcript, with their ids and roles, remain a prefix of
    the transcript after any events. *)
Theorem turns_only_appended (st : ChatWidget.State) (evs : list ChatWidget.Event) :
  Forall keeps_context evs ->
  exists extra, turns (ChatWidget.run st evs) = turns st ++ extra.
Proof.
  revert st. induction evs as [|ev evs IH]; intros st H.
  - exists []. now rewrite app_nil_r.
  - inversion H as [|? ? Hev Hevs]; subst. cbn [ChatWidget.run fold_left].
    destruct (ChatFacts.step_turns st ev Hev) as [e1 E1].
    destruct (IH (ChatWidget.step st ev) Hevs) as [e2 E2].
    exists (e1 ++ e2). unfold ChatWidget.run in E2. now rewrite E2, E1, app_assoc.
Qed.

Lemma turns_only_appended_witness :
  exists extra,
    turns (ChatWidget.run (ChatWidget.mount None 0)
             (ChatWidget.send "hello" 5 9 [Some (lit "Hi."); None]))
    = turns (ChatWidget.mount None 0) ++ extra.
Proof.
  apply (turns_only_appended (ChatWidget.mount None 0)
           (ChatWidget.send "hello" 5 9 [Some (lit "Hi."); None])).
  repeat constructor.
Defined.

(** ** The result view *)

Module SnippetFacts.
Import Snippets.

Lemma guarded_sound (c : ascii) (s : jsstring) :
  forall p, guarded c p s = true ->
  forall i, nth_error s i = Some c ->
            match i with
            | O => p = true
            | S j => nth_error s j = Some BACKSLASH
            end.
Proof.
  induction s as [|a s IH]; intros p H i Hi; [now destruct i|].
  cbn [guarded] in H. apply andb_prop in H as [H1 H2].
  destruct i as [|j]; cbn [nth_error] in Hi.
  - injection Hi as ->. rewrite Ascii.eqb_refl in H1. exact H1.
  - specialize (IH _ H2 j Hi). destruct j as [|k]; cbn [nth_error].
    + apply Ascii.eqb_eq in IH. now rewrite IH.
    + exact IH.
Qed.

Lemma interpolation_guarded_sound (s : jsstring) :
  forall p, interpolation_guarded p s = true ->
  forall i, nth_error s i = Some "$"%char -> nth_error s (S i) = Some "{"%char ->
            match i with
            | O => p = true
            | S j => nth_error s j = Some BACKSLASH
            end.
Proof.
  induction s as [|a s IH]; intros p H i Hi Hn; [now destruct i|].
  cbn [interpolation_guarded] in H. apply andb_prop in H as [H1 H2].
  destruct i as [|j]; cbn [nth_error] in Hi, Hn.
  - injection Hi as ->. destruct s as [|d s']; [discriminate|].
    cbn [nth_error] in Hn. injection Hn as ->. exact H1.
  - specialize (IH _ H2 j Hi Hn). destruct j as [|k]; cbn [nth_error].
    + apply Ascii.eqb_eq in IH. now rewrite IH.
    + exact IH.
Qed.

Lemma escape_backquotes_guarded (s : jsstring) :
  forall p, guarded "`" p (escape_backquotes s) = true.
Proof.
  induction s as [|c s IH]; intros p; [reflexivity|].
  cbn [escape_backquotes]. destruct (Ascii.eqb_spec c "`") as [->|Hc].
  - cbn [guarded]. rewrite IH. reflexivity.
  - cbn [guarded]. rewrite IH. apply Ascii.eqb_neq in Hc. now rewrite Hc.
Qed.

(** [escape_interpolations] unfolded one step. *)
Lemma escape_interpolations_cons (c : ascii) (s : jsstring) :
  escape_interpolations (c :: s)
  = if Ascii.eqb c "$" then
      match s with
      | d :: s'' =>
          if Ascii.eqb d "{" then BACKSLASH :: c :: d :: escape_interpolations s''
          else c :: escape_interpolations s
      | [] => [c]
      end
    else c :: escape_interpolations s.
Proof. reflexivity. Qed.

Lemma escape_interpolations_keeps_backquotes (n : nat) :
  forall s p, (length s <= n)%nat -> guarded "`" p s = true ->
              guarded "`" p (escape_interpolations s) = true.
Proof.
  induction n as [|n IH]; intros s p Hl H.
  - destruct s; [reflexivity|cbn in Hl; lia].
  - destruct s as [|c s]; [reflexivity|]. cbn [length] in Hl.
    rewrite escape_interpolations_cons.
    cbn [guarded] in H. apply andb_prop in H as [H1 H2].
    assert (Hdef : guarded "`" p (c :: escape_interpolations s) = true).
    { cbn [guarded]. rewrite H1. apply IH; [lia|exact H2]. }
    destruct (Ascii.eqb_spec c "$") as [->|Hc]; [|exact Hdef].
    destruct s as [|d s'']; [reflexivity|].
    destruct (Ascii.eqb_spec d "{") as [->|Hd]; [|exact Hdef].
    cbn [guarded] in H2 |- *. apply andb_prop in H2 as [_ H3].
    cbn [length] in Hl. rewrite (IH s'' _ ltac:(lia) H3). reflexivity.
Qed.

(** The first code unit of an escaped string is a [{] only if that of the
    string is. *)
Lemma escape_interpolations_head (d : ascii) (s : jsstring) :
  d <> "{"%char ->
  exists h t, escape_interpolations (d :: s) = h :: t /\ h <> "{"%char.
Proof.
  intros Hd. rewrite escape_interpolations_cons.
  destruct (Ascii.eqb d "$"); [|eauto].
  destruct s as [|e s'']; [eauto|].
  destruct (Ascii.eqb e "{"); [|eauto].
  do 2 eexists. split; [reflexivity|]. now vm_compute.
Qed.

Lemma escape_interpolations_guarded (n : nat) :
  forall s p, (length s <= n)%nat -> interpolation_guarded p (escape_interpolations s) = true.
Proof.
  induction n as [|n IH]; intros s p Hl.
  - destruct s; [reflexivity|cbn in Hl; lia].
  - destruct s as [|c s]; [reflexivity|]. cbn [length] in Hl.
    rewrite escape_interpolations_cons.
    destruct (Ascii.eqb_spec c "$") as [->|Hc].
    + destruct s as [|d s'']; [reflexivity|].
      destruct (Ascii.eqb_spec d "{") as [->|Hd].
      * cbn [length] in Hl.
        change (interpolation_guarded p
                  (BACKSLASH :: "$"%char :: "{"%char :: escape_interpolations s''))
          with (match escape_interpolations s'' with
                | _ :: _ => true
                | [] => true
                end && interpolation_guarded false (escape_interpolations s'')).
        rewrite IH by lia. now destruct (escape_interpolations s'').
      * destruct (escape_interpolations_head d s'' Hd) as (h & t & E & Hh).
        pose proof (IH (d :: s'') false ltac:(lia)) as G. rewrite E in G |- *.
        change (interpolation_guarded p ("$"%char :: h :: t))
          with ((negb (Ascii.eqb h "{") || p) && interpolation_guarded false (h :: t)).
        rewrite G. apply Ascii.eqb_neq in Hh. now rewrite Hh.
    + cbn [interpolation_guarded]. rewrite IH by lia.
      apply Ascii.eqb_neq in Hc. rewrite Hc.
      now destruct (escape_interpolations s).
Qed.

End SnippetFacts.

(** In the harness as it is spliced into the generated snippets, every
    backquote and every [${] comes right after a backslash. *)
Theorem escape_for_template_escapes (harness : jsstring) :
  each_escaped "`" (Snippets.escape_for_template harness) /\
  each_interpolation_escaped (Snippets.escape_for_template harness).
Proof.
  unfold Snippets.escape_for_template. split.
  - intros i Hi.
    assert (G : guarded "`" false
                  (Snippets.escape_interpolations (Snippets.escape_backquotes harness)) = true)
      by (eapply SnippetFacts.escape_interpolations_keeps_backquotes;
          [apply Nat.le_refl|apply SnippetFacts.escape_backquotes_guarded]).
    pose proof (SnippetFacts.guarded_sound _ _ _ G i Hi) as H.
    destruct i as [|j]; [discriminate|]. now exists j.
  - intros i Hi Hn.
    assert (G : interpolation_guarded false
                  (Snippets.escape_interpolations (Snippets.escape_backquotes harness)) = true)
      by (eapply SnippetFacts.escape_interpolations_guarded; apply Nat.le_refl).
    pose proof (SnippetFacts.interpolation_guarded_sound _ _ G i Hi Hn) as H.
    destruct i as [|j]; [discriminate|]. now exists j.
Qed.

Module ViewFacts.
Import ResultView.

(** The request an event sends depends on the state through
    [derivedSchema] only, and so does the schema held after it. *)
Lemma step_request_derivedSchema (st1 st2 : State) (ev : Event) :
  derivedSchema st1 = derivedSchema st2 ->
  snd (step st1 ev) = snd (step st2 ev) /\
  derivedSchema (fst (step st1 ev)) = derivedSchema (fst (step st2 ev)).
Proof.
  intros H. destruct ev as [result|outcome|result|outcome|tab]; cbn [step fst snd].
  - unfold validate_start, validate_request. rewrite H.
    destruct (or_undefined (derivedSchema st2) (jsonSchema result)) as [[|c sch]|];
      [now split|destruct (exampleJson result) as [[|d ex]|]; now split|now split].
  - now split.
  - unfold derive_start. destruct (derive_request result); now split.
  - destruct outcome; now split.
  - now split.
Qed.

Lemma trace_requests_derivedSchema (evs : list Event) :
  forall st1 st2, derivedSchema st1 = derivedSchema st2 ->
                  map snd (trace st1 evs) = map snd (trace st2 evs).
Proof.
  induction evs as [|ev evs IH]; intros st1 st2 H; [reflexivity|].
  cbn [trace map snd]. destruct (step_request_derivedSchema st1 st2 ev H) as [R D].
  now rewrite R, (IH _ _ D).
Qed.

Lemma step_keeps_schemaError (st : State) (ev : Event) :
  schemaError st = Some (lit "Architectural Fault.") ->
  schemaError (fst (step st ev)) = Some (lit "Architectural Fault.").
Proof.
  intros H. destruct ev as [result|outcome|result|outcome|tab]; cbn [step fst].
  - unfold validate_start. now destruct (validate_request st result).
  - exact H.
  - unfold derive_start. now destruct (derive_request result).
  - now destruct outcome.
  - exact H.
Qed.

End ViewFacts.

(** A schema derivation that fails leaves the schema in use as it was: every
    later event sends the request it would have sent without the failed
    derivation.  The fault it records is never cleared afterwards, not even
    by a derivation that succeeds. *)
Theorem failed_derivation_keeps_schema
    (st : ResultView.State) (e : JSError) (evs : list ResultView.Event) :
  let st1 := ResultView.derive_settle st (Throw e) in
  ResultView.isDerivingSchema st1 = false /\
  map snd (ResultView.trace st1 evs) = map snd (ResultView.trace st evs) /\
  ResultView.schemaError (view_after st1 evs) = Some (lit "Architectural Fault.").
Proof.
  intros st1. split; [reflexivity|]. split.
  - now apply ViewFacts.trace_requests_derivedSchema.
  - assert (H : ResultView.schemaError st1 = Some (lit "Architectural Fault."))
      by reflexivity.
    clearbody st1. revert st1 H. induction evs as [|ev evs IH]; intros st1 H; [exact H|].
    cbn [view_after fold_left]. apply IH. now apply ViewFacts.step_keeps_schemaError.
Qed.

(** A validation that is started always ends with a report: while the call
    is outstanding the previous report is cleared and the view is
    validating; once the call settles, whether it returned or failed, the
    view is no longer validating and holds a non-empty report. *)
Theorem validation_always_reports
    (st : ResultView.State) (result : ResultView.SearchResult)
    (req : GenerateContentParameters) (outcome : completion GenerateContentResponse) :
  snd (ResultView.step st (ResultView.ClickValidate result)) = Some req ->
  let st1 := fst (ResultView.step st (ResultView.ClickValidate result)) in
  let st2 := fst (ResultView.step st1 (ResultView.SettleValidate outcome)) in
  (ResultView.isValidatingSchema st1 = true /\ ResultView.validationReport st1 = None) /\
  ResultView.isValidatingSchema st2 = false /\
  exists report, ResultView.validationReport st2 = Some report /\ report <> [].
Proof.
  cbn [ResultView.step fst snd]. unfold ResultView.validate_start.
  destruct (ResultView.validate_request st result) as [r|]; [|discriminate].
  intros _. cbn [fst]. split; [now split|]. split; [reflexivity|].
  unfold ResultView.validate_settle. cbn [ResultView.validationReport].
  destruct outcome as [response|e]; eexists; (split; [reflexivity|]).
  - apply orElse_nonempty. discriminate.
  - discriminate.
Qed.

Lemma validation_always_reports_witness :
  let result := {| ResultView.jsonPrompt := Some (lit "Extract the invoice.");
                   ResultView.exampleJson := Some (lit "{}");
                   ResultView.jsonSchema := Some (lit "{}") |} in
  let st1 := fst (ResultView.step ResultView.initial (ResultView.ClickValidate result)) in
  let st2 := fst (ResultView.step st1
                    (ResultView.SettleValidate (Throw (new_Error "503")))) in
  (ResultView.isValidatingSchema st1 = true /\ ResultView.validationReport st1 = None) /\
  ResultView.isValidatingSchema st2 = false /\
  exists report, ResultView.validationReport st2 = Some report /\ report <> [].
Proof.
  intros result.
  exact (validation_always_reports ResultView.initial result _
           (Throw (new_Error "503")) eq_refl).
Defined.

(** ** The synthesizer: what a successful call returns *)

(** When both calls return and the sanitized synthesis text parses,
    [discoverJsonPrompts] returns: every property of the parsed object other
    than [sources] is passed through as it is, and [sources] is always the
    citations of the research stage (or the fallback), whatever the
    synthesis text says under that name. *)
Theorem discoverJsonPrompts_returns
    (JSON_parse : jsstring -> completion json)
    (generateContent : GenerateContentParameters -> completion GenerateContentResponse)
    (query : jsstring) (searchResponse formatResponse : GenerateContentResponse)
    (parsed : json) :
  generateContent (researchRequest query) = Return searchResponse ->
  generateContent (synthesisRequest query (researchText searchResponse))
  = Return formatResponse ->
  JSON_parse (cleanJsonResponse (Some (orElse (text formatResponse) "{}"))) = Return parsed ->
  exists artifact,
    discoverJsonPrompts JSON_parse generateContent query = Return artifact /\
    (forall k, k <> lit "sources" -> field k artifact = obj_get k (own_props parsed)) /\
    field "sources" artifact
    = Some (JArray (map Source_to_json (final_sources (sources searchResponse)))).
Proof.
  intros ES EF EP. eexists. split.
  - unfold discoverJsonPrompts, discover_body, try_catch, bind.
    rewrite ES, EF, EP. reflexivity.
  - cbn [field]. split.
    + intros k Hk. now rewrite obj_get_set_other.
    + apply obj_get_set_same.
Qed.

(** The synthesis text of [grounded_model] has no [sources]; the artifact
    has the five citations, and the title of the text. *)
Lemma discoverJsonPrompts_returns_witness :
  exists artifact,
    discoverJsonPrompts JSONRef.JSON_parse grounded_model (lit "invoice") = Return artifact /\
    field "title" artifact <> None /\
    field "sources" artifact
    = Some (JArray (map Source_to_json
                      (sources {| text := None; groundingChunks := Some seven_chunks |}))).
Proof.
  destruct (JSONRef.JSON_parse (cleanJsonResponse (Some (orElse (Some synthesis_text) "{}"))))
    as [parsed|e] eqn:EP; [|vm_compute in EP; discriminate].
  destruct (discoverJsonPrompts_returns JSONRef.JSON_parse grounded_model (lit "invoice")
              {| text := Some (lit "Invoices have a number and lines.");
                 groundingChunks := Some seven_chunks |}
              {| text := Some synthesis_text; groundingChunks := None |}
              parsed eq_refl eq_refl EP) as (artifact & E & Hk & Hs).
  exists artifact. split; [exact E|]. split.
  - rewrite Hk by discriminate. vm_compute in EP. injection EP as <-.
    vm_compute. discriminate.
  - rewrite Hs. vm_compute. reflexivity.
Defined.

(** ** The application: overlapping searches *)

(** A search started from the history while another is outstanding is not
    tied to the result shown: when the first search settles last, its
    result is the one shown, under the query of the second search, and it
    is the first query that heads the history. *)
Theorem overlapping_searches_last_settled_shown
    (st : App.AppState) (q1 q2 : jsstring) (r1 r2 : App.SearchResult) :
  App.searches st = [] -> trim q1 <> [] -> trim q2 <> [] ->
  let n := App.nextSearch st in
  let st' := App.run st [App.Search q1; App.Search q2;
                         App.SearchSettled (S n) (Return r2);
                         App.SearchSettled n (Return r1)] in
  App.results st' = Some r1 /\ App.query st' = q2 /\ App.isSearching st' = false /\
  App.searchHistory st'
  = App.push_history q1 (App.push_history q2 (App.searchHistory st)).
Proof.
  intros Hs H1 H2 n st'. unfold st', n. clear st' n.
  assert (Hstart : forall s q, trim q <> [] ->
            App.search_start s q
            = {| App.isSearching := true; App.query := q; App.results := None;
                 App.error := None; App.favorites := App.favorites s;
                 App.searchHistory := App.searchHistory s;
                 App.useCount := App.useCount s; App.isSubscribed := App.isSubscribed s;
                 App.searches := App.searches s ++ [(App.nextSearch s, q)];
                 App.nextSearch := S (App.nextSearch s) |}).
  { intros s q Hq. unfold App.search_start. now destruct (trim q). }
  assert (Hneq : Nat.eqb (S (App.nextSearch st)) (App.nextSearch st) = false)
    by (apply Nat.eqb_neq; lia).
  cbn [App.run fold_left App.step].
  rewrite (Hstart st q1 H1), (Hstart _ q2 H2).
  cbn [App.searches App.nextSearch App.searchHistory App.query App.favorites
       App.useCount App.isSubscribed]. rewrite Hs. cbn [app].
  unfold App.search_settle.
  repeat (progress (cbn [App.searches StockCard.lookup StockCard.remove_id];
                    rewrite ?Hneq, ?Nat.eqb_refl)).
  cbn [App.results App.query App.isSearching App.searchHistory]. auto.
Qed.

Lemma overlapping_searches_last_settled_shown_witness :
  let r1 := AppSamples.invoice_result in
  let r2 := AppSamples.invoice_result in
  let st' := App.run App.fresh
               [App.Search "invoice"; App.Search "receipt";
                App.SearchSettled 1 (Return r2); App.SearchSettled 0 (Return r1)] in
  App.results st' = Some r1 /\ App.query st' = lit "receipt" /\
  App.isSearching st' = false /\
  App.searchHistory st'
  = App.push_history "invoice" (App.push_history "receipt" (App.searchHistory App.fresh)).
Proof.
  intros r1 r2.
  apply (overlapping_searches_last_settled_shown App.fresh "invoice" "receipt" r1 r2).
  - reflexivity.
  - vm_compute. discriminate.
  - vm_compute. discriminate.
Defined.
